(** * The vectorized hash-join operator: build / probe orchestration

    A shallow embedding of [src/execution/operator/join/physical_hash_join.cpp]
    (class [PhysicalHashJoin]): the constructor, [GetGlobalState],
    [GetLocalSinkState], [Sink], [ProbeHashTable] and [GetChunkInternal].

    The hash table, the scan structure, the expression executor, the data
    chunk container and the probe-side child operator are collaborators whose
    code is outside this file's scope: they appear as the fields of a class
    (or as section variables) and are only assumed to have the signature with
    which the operator calls them.

    Two further modules embed [PhysicalIndexScan::_GetChunk]
    ([src/execution/operator/scan/physical_index_scan.cpp]) and
    [Binder::Bind(InsertStatement &)]
    ([src/planner/binder/statement/bind_insert.cpp]) in the same way. *)

From Stdlib Require Import List Arith Lia Bool Permutation String.
From stdpp Require Import base decidable list gmap strings.
From Equations Require Import Equations.
Import ListNotations.

(** ** Join types

    Modelled from the spec: the enum [JoinType] is declared in a header that is
    not part of the sources at hand; the operator distinguishes the join kinds
    listed in the specification (inner, left, full outer, semi, anti, mark). *)
Inductive JoinType : Set :=
| INNER | LEFT | OUTER | SEMI | ANTI | MARK.

#[global] Instance JoinType_eq_dec : EqDecision JoinType.
Proof. solve_decision. Defined.

(** [inspect] keeps the equation of a scrutinee when a loop is defined by
    well-founded recursion on the outcome of its body. *)
Definition inspect {A : Type} (a : A) : {b : A | a = b} := exist _ a eq_refl.

(** * Build side: construction, [GetGlobalState], [GetLocalSinkState], [Sink] *)
Module BuildSide.

(** The types the build side works with, whose declarations are outside the
    sources at hand. *)
Class Types : Type := {
  (** the values a column vector holds *)
  Value : Type;
  LogicalType : Type;
  (** a bound expression, with its [return_type] *)
  Expression : Type;
  return_type : Expression -> LogicalType;
  (** an aggregate function, with its [return_type] *)
  AggregateFunction : Type;
  aggregate_return_type : AggregateFunction -> LogicalType;
  (** [CountStarFun::GetFunction()] and [CountFun::GetFunction()] *)
  CountStarFun_GetFunction : AggregateFunction;
  CountFun_GetFunction : AggregateFunction;
  (** the rows a [JoinHashTable] holds *)
  Entries : Type;
  no_entries : Entries;
  (** [JoinHTScanState], and the value its default constructor gives *)
  JoinHTScanState : Type;
  JoinHTScanState_new : JoinHTScanState;
}.

(** How a construction ends. *)
Inductive Construction (A : Type) : Type :=
| Constructed (a : A)
| AssertionFailed
| IndexOutOfRange.
Arguments Constructed {A} a.
Arguments AssertionFailed {A}.
Arguments IndexOutOfRange {A}.

Section Operator.
Context `{T : Types}.

(** [JoinCondition]: the probe-side and the build-side expression. *)
Record JoinCondition : Type := {
  left : Expression;
  right : Expression;
}.

(** A child operator, as far as the constructor looks at it: [GetTypes()]. *)
Record PhysicalOperator : Type := {
  GetTypes : list LogicalType;
}.

(** The members of [PhysicalHashJoin]. *)
Record PhysicalHashJoin : Type := {
  types : list LogicalType;
  children : list PhysicalOperator;
  conditions : list JoinCondition;
  join_type : JoinType;
  right_projection_map : list nat;
  condition_types : list LogicalType;
  build_types : list LogicalType;
  delim_types : list LogicalType;
}.

(** Modelled from the spec: [LogicalOperator::MapTypes] is not part of the
    sources at hand.  The right projection map is an "ordered sequence of
    column indices selecting which build-side columns become the payload;
    absent (empty) means use the entire build-side batch as payload".  An index
    outside the child's columns has no type to select. *)
Definition MapTypes (child_types : list LogicalType) (projection_map : list nat)
    : option (list LogicalType) :=
  match projection_map with
  | [] => Some child_types
  | _ => mapM (fun index => child_types !! index) projection_map
  end.

(** The constructor with seven arguments (lines 13-30); [op_types] are the
    types of the logical operator [op], which the base class keeps with the
    conditions and the join type. *)
Definition PhysicalHashJoin_new (op_types : list LogicalType)
    (left_child right_child : PhysicalOperator) (cond : list JoinCondition)
    (jt : JoinType) (left_projection_map right_projection_map : list nat)
    : Construction PhysicalHashJoin :=
  let children := [left_child; right_child] in
  (* assert(left_projection_map.size() == 0) *)
  if negb (length left_projection_map =? 0) then AssertionFailed
  else
    let condition_types := map (fun condition => return_type (left condition)) cond in
    (* for ANTI, SEMI and MARK join, we only need to store the keys *)
    if negb (bool_decide (jt = ANTI)) && negb (bool_decide (jt = SEMI))
       && negb (bool_decide (jt = MARK))
    then
      match MapTypes (GetTypes right_child) right_projection_map with
      | Some mapped =>
          Constructed {| types := op_types; children := children; conditions := cond;
                         join_type := jt; right_projection_map := right_projection_map;
                         condition_types := condition_types; build_types := mapped;
                         delim_types := [] |}
      | None => IndexOutOfRange
      end
    else
      Constructed {| types := op_types; children := children; conditions := cond;
                     join_type := jt; right_projection_map := right_projection_map;
                     condition_types := condition_types; build_types := [];
                     delim_types := [] |}.

(** The constructor with five arguments (lines 32-35). *)
Definition PhysicalHashJoin_new5 (op_types : list LogicalType)
    (left_child right_child : PhysicalOperator) (cond : list JoinCondition)
    (jt : JoinType) : Construction PhysicalHashJoin :=
  PhysicalHashJoin_new op_types left_child right_child cond jt [] [].

(** ** [GetGlobalState] *)

(** [BoundAggregateExpression(return_type, function, distinct)] *)
Record BoundAggregateExpression : Type := {
  aggr_return_type : LogicalType;
  function : AggregateFunction;
  distinct : bool;
}.

(** [SuperLargeHashTable(initial_capacity, group_types, payload_types,
    aggregates)] *)
Record SuperLargeHashTable : Type := {
  initial_capacity : nat;
  group_types : list LogicalType;
  payload_types : list LogicalType;
  aggregates : list BoundAggregateExpression;
}.

(** [correlated_mark_join_info]; a chunk is seen through the types with which
    it was initialized, [None] when it was not. *)
Record CorrelatedMarkJoinInfo : Type := {
  correlated_counts : option SuperLargeHashTable;
  correlated_aggregates : list BoundAggregateExpression;
  correlated_types : list LogicalType;
  group_chunk : option (list LogicalType);
  payload_chunk : option (list LogicalType);
  result_chunk : option (list LogicalType);
}.

Definition no_info : CorrelatedMarkJoinInfo :=
  {| correlated_counts := None; correlated_aggregates := []; correlated_types := [];
     group_chunk := None; payload_chunk := None; result_chunk := None |}.

(** [JoinHashTable], as [GetGlobalState] and [Sink] see it. *)
Record JoinHashTable : Type := {
  ht_conditions : list JoinCondition;
  ht_build_types : list LogicalType;
  ht_join_type : JoinType;
  correlated_mark_join_info : CorrelatedMarkJoinInfo;
  entries : Entries;
}.

(** [make_unique<JoinHashTable>(buffer_manager, conditions, build_types,
    join_type)] *)
Definition JoinHashTable_new (cond : list JoinCondition) (btypes : list LogicalType)
    (jt : JoinType) : JoinHashTable :=
  {| ht_conditions := cond; ht_build_types := btypes; ht_join_type := jt;
     correlated_mark_join_info := no_info; entries := no_entries |}.

Definition set_info (ht : JoinHashTable) (info : CorrelatedMarkJoinInfo) : JoinHashTable :=
  {| ht_conditions := ht_conditions ht; ht_build_types := ht_build_types ht;
     ht_join_type := ht_join_type ht; correlated_mark_join_info := info;
     entries := entries ht |}.

(** The loop of lines 78-83 over [aggregate_functions]: the aggregates owned
    by the info, the pointers to them, and the payload types. *)
Fixpoint bind_aggregates (aggregate_functions : list AggregateFunction)
    (owned pointers : list BoundAggregateExpression) (ptypes : list LogicalType)
    : list BoundAggregateExpression * list BoundAggregateExpression * list LogicalType :=
  match aggregate_functions with
  | [] => (owned, pointers, ptypes)
  | f :: rest =>
      let aggr := {| aggr_return_type := aggregate_return_type f; function := f;
                     distinct := false |} in
      bind_aggregates rest (owned ++ [aggr]) (pointers ++ [aggr])
        (ptypes ++ [aggregate_return_type f])
  end.

(** [HashJoinGlobalState] *)
Record HashJoinGlobalState : Type := {
  hash_table : JoinHashTable;
  ht_scan_state : JoinHTScanState;
}.

(** [GetGlobalState] (lines 58-94). *)
Definition GetGlobalState (op : PhysicalHashJoin) : HashJoinGlobalState :=
  let state :=
    {| hash_table := JoinHashTable_new (conditions op) (build_types op) (join_type op);
       ht_scan_state := JoinHTScanState_new |} in
  if (0 <? length (delim_types op)) && bool_decide (join_type op = MARK) then
    (* correlated MARK join *)
    if length (delim_types op) + 1 =? length (conditions op) then
      let info := correlated_mark_join_info (hash_table state) in
      let aggregate_functions := [CountStarFun_GetFunction; CountFun_GetFunction] in
      let '(owned, correlated_aggregates, payload_types) :=
        bind_aggregates aggregate_functions (correlated_aggregates info) [] [] in
      {| hash_table :=
           set_info (hash_table state)
             {| correlated_counts :=
                  Some {| initial_capacity := 1024; group_types := delim_types op;
                          payload_types := payload_types;
                          aggregates := correlated_aggregates |};
                correlated_aggregates := owned;
                correlated_types := delim_types op;
                group_chunk := Some (delim_types op);
                payload_chunk := Some payload_types;
                result_chunk := Some payload_types |};
         ht_scan_state := ht_scan_state state |}
    else state
  else state.

(** The side structure exists when its aggregation table was allocated. *)
Definition has_correlated_counts (state : HashJoinGlobalState) : Prop :=
  correlated_counts (correlated_mark_join_info (hash_table state)) <> None.

(** The reading of the specification by which the side structure is created
    exactly when the join is a MARK join with one condition more than
    correlation columns. *)
Definition created_iff_one_more_condition : Prop :=
  forall op,
    has_correlated_counts (GetGlobalState op) <->
    join_type op = MARK /\ length (conditions op) = length (delim_types op) + 1.

(** The invariant of the specification on the build schema. *)
Definition build_types_empty_iff_keys_only : Prop :=
  forall op_types left_child right_child cond jt lmap rmap op,
    PhysicalHashJoin_new op_types left_child right_child cond jt lmap rmap
    = Constructed op ->
    (build_types op = [] <-> jt = SEMI \/ jt = ANTI \/ jt = MARK).

(** ** [GetLocalSinkState] and [Sink] *)

(** Modelled from the spec: the container [DataChunk] ("a fixed-capacity
    columnar group of rows") is not part of the sources at hand.  A chunk is
    its column vectors [data] and its cardinality [count]; [Initialize] gives
    one empty vector for each type, [Reset] empties the vectors and sets the
    cardinality to 0, [SetCardinality] takes over the cardinality of another
    chunk. *)
Definition Vector : Type := list Value.

Record DataChunk : Type := {
  data : list Vector;
  count : nat;
}.

Definition Initialize (column_types : list LogicalType) : DataChunk :=
  {| data := map (fun _ => []) column_types; count := 0 |}.

Definition Reset (chunk : DataChunk) : DataChunk :=
  {| data := map (fun _ => []) (data chunk); count := 0 |}.

Definition SetCardinality (chunk other : DataChunk) : DataChunk :=
  {| data := data chunk; count := count other |}.

(** [HashJoinLocalState]; the executor is the list of its expressions. *)
Record HashJoinLocalState : Type := {
  build_chunk : DataChunk;
  join_keys : DataChunk;
  build_executor : list Expression;
}.

(** [GetLocalSinkState] (lines 96-106); a chunk that is not initialized has no
    columns. *)
Definition GetLocalSinkState (op : PhysicalHashJoin) : HashJoinLocalState :=
  {| build_chunk :=
       if 0 <? length (right_projection_map op) then Initialize (build_types op)
       else {| data := []; count := 0 |};
     build_executor := map right (conditions op);
     join_keys := Initialize (condition_types op) |}.

Section Sink.
(** [ExpressionExecutor::Execute(input, result)] for the expressions of an
    executor, and [JoinHashTable::Build(keys, payload)]. *)
Variable Execute : list Expression -> DataChunk -> DataChunk.
Variable Build : JoinHashTable -> DataChunk -> DataChunk -> JoinHashTable.

(** The loop of lines 119-121, from the index [i] on:
    [build_chunk.data[i].Reference(input.data[right_projection_map[i]])].  An
    index outside either vector of columns has nothing to refer to. *)
Fixpoint reference_columns (projection_map : list nat) (i : nat)
    (input chunk : DataChunk) : option DataChunk :=
  match projection_map with
  | [] => Some chunk
  | index :: rest =>
      match data input !! index with
      | Some column =>
          if i <? length (data chunk) then
            reference_columns rest (S i) input
              {| data := <[i := column]> (data chunk); count := count chunk |}
          else None
      | None => None
      end
  end.

(** [Sink] (lines 108-127).  There is no output chunk: the call leaves the
    global and the local state. *)
Definition Sink (op : PhysicalHashJoin) (sink : HashJoinGlobalState)
    (lstate : HashJoinLocalState) (input : DataChunk)
    : option (HashJoinGlobalState * HashJoinLocalState) :=
  (* resolve the join keys for the right chunk *)
  let keys := Execute (build_executor lstate) input in
  (* build the HT *)
  if 0 <? length (right_projection_map op) then
    (* there is a projection map: fill the build chunk with the projected columns *)
    let chunk := SetCardinality (Reset (build_chunk lstate)) input in
    match reference_columns (right_projection_map op) 0 input chunk with
    | Some chunk =>
        Some ({| hash_table := Build (hash_table sink) keys chunk;
                 ht_scan_state := ht_scan_state sink |},
              {| build_chunk := chunk; join_keys := keys;
                 build_executor := build_executor lstate |})
    | None => None
    end
  else
    (* there is not a projected map: place the entire right chunk in the HT *)
    Some ({| hash_table := Build (hash_table sink) keys input;
             ht_scan_state := ht_scan_state sink |},
          {| build_chunk := build_chunk lstate; join_keys := keys;
             build_executor := build_executor lstate |}).

End Sink.

End Operator.

(** ** A small instance of the build side

    Columns hold numbers; an expression is a reference to an input column with
    its type; a hash table counts the rows it was given. *)
Module Example.

Inductive SqlType : Set := INTEGER | BIGINT | VARCHAR.

Definition types : Types := {|
  Value := nat;
  LogicalType := SqlType;
  Expression := nat * SqlType;
  return_type := snd;
  AggregateFunction := string;
  aggregate_return_type := fun _ => BIGINT;
  CountStarFun_GetFunction := "count_star"%string;
  CountFun_GetFunction := "count"%string;
  Entries := nat;
  no_entries := 0;
  JoinHTScanState := nat;
  JoinHTScanState_new := 0;
|}.

Definition chunk (columns : list (list nat)) (rows : nat) : @DataChunk types :=
  @Build_DataChunk types columns rows.

Definition Execute (exprs : list (nat * SqlType)) (input : @DataChunk types)
    : @DataChunk types :=
  chunk (map (fun e => default [] (@data types input !! fst e)) exprs)
    (@count types input).

Definition Build (ht : @JoinHashTable types) (keys payload : @DataChunk types)
    : @JoinHashTable types :=
  @Build_JoinHashTable types (ht_conditions ht) (ht_build_types ht) (ht_join_type ht)
    (correlated_mark_join_info ht) (@entries types ht + @count types keys).

Definition child (column_types : list SqlType) : @PhysicalOperator types :=
  @Build_PhysicalOperator types column_types.

Definition equal_on (column : nat) : @JoinCondition types :=
  @Build_JoinCondition types (column, INTEGER) (column, INTEGER).

(** An operator as the constructor leaves it, with the correlation columns
    that the planner sets afterwards. *)
Definition operator (cond : list (@JoinCondition types)) (jt : JoinType)
    (rmap : list nat) (btypes delim : list SqlType) : @PhysicalHashJoin types :=
  @Build_PhysicalHashJoin types [INTEGER] [child [INTEGER]; child [INTEGER; VARCHAR]]
    cond jt rmap (map (fun c => @return_type types (left c)) cond) btypes delim.

(** An inner join that projects the second build column: as constructed, and
    with a batch of two build rows. *)
Definition projecting : @PhysicalHashJoin types :=
  operator [equal_on 0] INNER [1] [VARCHAR] [].

Definition two_build_rows : @DataChunk types := chunk [[1; 2]; [10; 20]] 2.

(** A mark join without correlation columns, and a correlated one. *)
Definition plain_mark : @PhysicalHashJoin types :=
  operator [equal_on 0] MARK [] [] [].

Definition correlated_mark : @PhysicalHashJoin types :=
  operator [equal_on 0; equal_on 1] MARK [] [] [INTEGER].

(** An inner join whose build side has no column. *)
Definition no_build_column : @PhysicalHashJoin types :=
  @Build_PhysicalHashJoin types [INTEGER] [child [INTEGER]; child []]
    [] INNER [] [] [] [].

End Example.

(** ** Facts about the build side *)
Section OperatorFacts.
Context `{T : Types}.

Lemma MapTypes_length child_types projection_map mapped :
  MapTypes child_types projection_map = Some mapped ->
  length mapped = match projection_map with
                  | [] => length child_types
                  | _ => length projection_map
                  end.
Proof.
  unfold MapTypes. destruct projection_map as [|index rest].
  - intros [= <-]. reflexivity.
  - intros Hm. apply length_mapM in Hm. symmetry. exact Hm.
Qed.

Lemma keys_only_test (jt : JoinType) :
  negb (bool_decide (jt = ANTI)) && negb (bool_decide (jt = SEMI))
  && negb (bool_decide (jt = MARK)) = false
  <-> jt = SEMI \/ jt = ANTI \/ jt = MARK.
Proof. destruct jt; vm_compute; intuition (congruence || auto). Qed.

(** What a successful construction tells about its arguments. *)
Lemma PhysicalHashJoin_new_Constructed op_types left_child right_child cond jt lmap rmap op :
  PhysicalHashJoin_new op_types left_child right_child cond jt lmap rmap
  = Constructed op ->
  lmap = [] /\ join_type op = jt /\ right_projection_map op = rmap /\
  conditions op = cond /\
  (jt = SEMI \/ jt = ANTI \/ jt = MARK -> build_types op = []) /\
  (~ (jt = SEMI \/ jt = ANTI \/ jt = MARK) ->
   MapTypes (GetTypes right_child) rmap = Some (build_types op)).
Proof.
  unfold PhysicalHashJoin_new. destruct lmap; [|done]. cbn [length Nat.eqb negb].
  destruct (negb (bool_decide (jt = ANTI)) && negb (bool_decide (jt = SEMI))
            && negb (bool_decide (jt = MARK))) eqn:Htest.
  - assert (~ (jt = SEMI \/ jt = ANTI \/ jt = MARK)) as Hno.
    { rewrite <- keys_only_test, Htest. done. }
    destruct (MapTypes (GetTypes right_child) rmap) as [mapped|] eqn:Hm; [|done].
    intros [= <-]. cbn. done.
  - apply keys_only_test in Htest. intros [= <-]. cbn. done.
Qed.

(** *** C6: the build schema *)

(** C6, as the code has it.  After construction the build schema is empty
    whenever the join type is SEMI, ANTI or MARK.  For the other join types
    it is what [MapTypes] selects from the build-side child, so that the
    equivalence holds when a right projection map is given or the build-side
    child has at least one column. *)
Theorem build_types_keys_only op_types left_child right_child cond jt lmap rmap op :
  PhysicalHashJoin_new op_types left_child right_child cond jt lmap rmap
  = Constructed op ->
  join_type op = jt /\
  (jt = SEMI \/ jt = ANTI \/ jt = MARK -> build_types op = []) /\
  (~ (jt = SEMI \/ jt = ANTI \/ jt = MARK) ->
   MapTypes (GetTypes right_child) rmap = Some (build_types op)) /\
  (rmap <> [] \/ GetTypes right_child <> [] ->
   (build_types op = [] <-> jt = SEMI \/ jt = ANTI \/ jt = MARK)).
Proof.
  intros Hnew.
  destruct (PhysicalHashJoin_new_Constructed _ _ _ _ _ _ _ _ Hnew)
    as (_ & Hjt & _ & _ & Hkeys & Hmapped).
  split; [exact Hjt|]. split; [exact Hkeys|]. split; [exact Hmapped|].
  intros Hsome. split; [|exact Hkeys]. intros Hnil.
  destruct (decide (jt = SEMI \/ jt = ANTI \/ jt = MARK)) as [Hyes|Hno]; [exact Hyes|].
  exfalso. specialize (Hmapped Hno). rewrite Hnil in Hmapped.
  apply MapTypes_length in Hmapped. cbn [length] in Hmapped.
  destruct rmap as [|index rest]; [|cbn in Hmapped; lia].
  destruct Hsome as [Hr|Ht]; [done|].
  destruct (GetTypes right_child); [done|cbn in Hmapped; lia].
Qed.

(** *** C10: the left projection map *)

(** C10.  A non-empty left projection map makes the assertion of the
    constructor fail; an operator that was constructed had an empty left
    projection map and keeps the right projection map it was given; with an
    empty left projection map the assertion holds, as it does for the
    constructor with five arguments, which passes two empty maps. *)
Theorem constructor_left_projection_map op_types left_child right_child cond jt lmap rmap :
  (lmap <> [] ->
   PhysicalHashJoin_new op_types left_child right_child cond jt lmap rmap
   = AssertionFailed) /\
  (forall op,
     PhysicalHashJoin_new op_types left_child right_child cond jt lmap rmap
     = Constructed op ->
     lmap = [] /\ right_projection_map op = rmap) /\
  (lmap = [] ->
   PhysicalHashJoin_new op_types left_child right_child cond jt lmap rmap
   <> AssertionFailed) /\
  PhysicalHashJoin_new5 op_types left_child right_child cond jt
  = PhysicalHashJoin_new op_types left_child right_child cond jt [] [] /\
  PhysicalHashJoin_new5 op_types left_child right_child cond jt <> AssertionFailed.
Proof.
  assert (forall l r,
    l = [] ->
    PhysicalHashJoin_new op_types left_child right_child cond jt l r <> AssertionFailed)
    as Hok.
  { intros l r ->. unfold PhysicalHashJoin_new. cbn.
    repeat case_match; done. }
  split; [|split; [|split; [|split]]].
  - intros Hne. unfold PhysicalHashJoin_new. destruct lmap; [done|]. reflexivity.
  - intros op Hnew.
    destruct (PhysicalHashJoin_new_Constructed _ _ _ _ _ _ _ _ Hnew)
      as (Hl & _ & Hr & _).
    split; assumption.
  - apply Hok.
  - reflexivity.
  - apply Hok. reflexivity.
Qed.

(** *** C9: the correlated mark join *)

(** C9, as the code has it.  The side structure is created exactly when the
    join type is MARK, there is at least one correlation column, and there is
    one join condition more than correlation columns.  It is then an
    aggregation with the initial capacity 1024, grouped by the correlation
    column types, with the two aggregates count-star and count (neither of
    them distinct) and their return types as payload; the three scratch chunks
    are initialized accordingly.  Otherwise the table keeps the empty info. *)
Theorem correlated_mark_join_setup op :
  let count_star := {| aggr_return_type := aggregate_return_type CountStarFun_GetFunction;
                       function := CountStarFun_GetFunction; distinct := false |} in
  let count := {| aggr_return_type := aggregate_return_type CountFun_GetFunction;
                  function := CountFun_GetFunction; distinct := false |} in
  let payload := [aggregate_return_type CountStarFun_GetFunction;
                  aggregate_return_type CountFun_GetFunction] in
  (has_correlated_counts (GetGlobalState op) <->
   join_type op = MARK /\ delim_types op <> [] /\
   length (conditions op) = length (delim_types op) + 1) /\
  (has_correlated_counts (GetGlobalState op) ->
   correlated_mark_join_info (hash_table (GetGlobalState op))
   = {| correlated_counts :=
          Some {| initial_capacity := 1024; group_types := delim_types op;
                  payload_types := payload; aggregates := [count_star; count] |};
        correlated_aggregates := [count_star; count];
        correlated_types := delim_types op;
        group_chunk := Some (delim_types op);
        payload_chunk := Some payload;
        result_chunk := Some payload |}) /\
  (~ has_correlated_counts (GetGlobalState op) ->
   correlated_mark_join_info (hash_table (GetGlobalState op)) = no_info).
Proof.
  intros count_star count payload. unfold has_correlated_counts, GetGlobalState.
  assert (forall (B : Prop) (info : CorrelatedMarkJoinInfo), ~ B ->
    ((@None SuperLargeHashTable <> None <-> B) /\
     (@None SuperLargeHashTable <> None -> no_info = info) /\
     (~ @None SuperLargeHashTable <> None -> no_info = no_info))) as Habsent.
  { intros B info HB. split; [split; [intros Hn; done|intros Hb; done]|].
    split; [intros Hn; done|reflexivity]. }
  destruct (0 <? length (delim_types op)) eqn:Hd; cbn [andb].
  - apply Nat.ltb_lt in Hd.
    destruct (bool_decide (join_type op = MARK)) eqn:Hm.
    + apply bool_decide_eq_true in Hm.
      destruct (length (delim_types op) + 1 =? length (conditions op)) eqn:Hc.
      * apply Nat.eqb_eq in Hc. cbn. split; [|split].
        -- split; [|intros _; discriminate].
           intros _. split; [exact Hm|]. split; [|symmetry; exact Hc].
           intros Hnil. rewrite Hnil in Hd. cbn in Hd. lia.
        -- intros _. reflexivity.
        -- intros Hn. exfalso. apply Hn. discriminate.
      * apply Nat.eqb_neq in Hc. cbn. apply Habsent. intros (_ & _ & Hlen). lia.
    + apply bool_decide_eq_false in Hm. cbn. apply Habsent. intros (Hmark & _). done.
  - apply Nat.ltb_ge in Hd. cbn. apply Habsent.
    intros (_ & Hne & _). destruct (delim_types op); [done|cbn in Hd; lia].
Qed.

(** *** C8: [Sink] *)

Lemma reference_columns_spec projection_map : forall i input chunk,
  Forall (fun index => index < length (data input)) projection_map ->
  i + length projection_map <= length (data chunk) ->
  exists chunk',
    reference_columns projection_map i input chunk = Some chunk' /\
    count chunk' = count chunk /\
    length (data chunk') = length (data chunk) /\
    (forall k index, projection_map !! k = Some index ->
       data chunk' !! (i + k) = data input !! index) /\
    (forall k, k < i -> data chunk' !! k = data chunk !! k).
Proof.
  induction projection_map as [|index rest IH]; intros i input chunk Hin Hlen.
  - exists chunk. cbn. repeat split; intros; done.
  - apply Forall_cons in Hin as [Hindex Hrest]. cbn in Hlen. cbn [reference_columns].
    destruct (lookup_lt_is_Some_2 _ _ Hindex) as [column Hcol]. rewrite Hcol.
    rewrite (proj2 (Nat.ltb_lt _ _)) by lia.
    destruct (IH (S i) input
                {| data := <[i := column]> (data chunk); count := count chunk |} Hrest)
      as (chunk' & Hrun & Hcount & Hcols & Hmapped & Hbefore).
    { cbn. rewrite length_insert. lia. }
    exists chunk'. split; [exact Hrun|]. split; [exact Hcount|].
    split; [rewrite Hcols; cbn; apply length_insert|]. split.
    + intros [|k] index' Hk.
      * cbn in Hk. injection Hk as <-. rewrite Nat.add_0_r, Hbefore by lia. cbn.
        rewrite list_lookup_insert_eq by lia. symmetry. exact Hcol.
      * cbn in Hk. replace (i + S k) with (S i + k) by lia. exact (Hmapped k index' Hk).
    + intros k Hk. rewrite Hbefore by lia. cbn.
      apply list_lookup_insert_ne. lia.
Qed.

(** The local state that [GetLocalSinkState] creates for a constructed
    operator meets what [Sink] needs: its executor holds the right-hand
    expressions, and with a right projection map and a join that stores a
    payload the build chunk has one column for each index of the map. *)
Lemma GetLocalSinkState_ready op_types left_child right_child cond jt lmap rmap op :
  PhysicalHashJoin_new op_types left_child right_child cond jt lmap rmap
  = Constructed op ->
  build_executor (GetLocalSinkState op) = map right (conditions op) /\
  (rmap <> [] -> ~ (jt = SEMI \/ jt = ANTI \/ jt = MARK) ->
   length (data (build_chunk (GetLocalSinkState op)))
   = length (right_projection_map op)).
Proof.
  intros Hnew. split; [reflexivity|]. intros Hmap Hpayload.
  destruct (PhysicalHashJoin_new_Constructed _ _ _ _ _ _ _ _ Hnew)
    as (_ & _ & Hr & _ & _ & Hmapped).
  specialize (Hmapped Hpayload). apply MapTypes_length in Hmapped.
  unfold GetLocalSinkState. rewrite Hr.
  destruct rmap as [|index rest]; [done|]. cbn [length Nat.ltb Nat.leb].
  cbn. rewrite length_map. exact Hmapped.
Qed.

(** C8.  Let the executor keep the row count, as its contract says, and let
    the executor of the local state hold the right-hand expressions of the
    conditions, as [GetLocalSinkState] sets it up.  [Sink] evaluates them into
    the keys, which have the row count of the input.  Without a right
    projection map the keys and the input itself go into the hash table.  With
    one, whose indices are columns of the input and for which the build chunk
    has columns, the payload has the cardinality of the input and its column
    [i] is the input column [right_projection_map[i]].  The only change to the
    global state is the table that [Build] returns; the call has no output
    chunk. *)
Theorem Sink_inserts
    (Execute : list Expression -> DataChunk -> DataChunk)
    (Build : JoinHashTable -> DataChunk -> DataChunk -> JoinHashTable)
    op sink lstate input :
  (forall exprs chunk, count (Execute exprs chunk) = count chunk) ->
  build_executor lstate = map right (conditions op) ->
  let keys := Execute (map right (conditions op)) input in
  count keys = count input /\
  (right_projection_map op = [] ->
   Sink Execute Build op sink lstate input
   = Some ({| hash_table := Build (hash_table sink) keys input;
              ht_scan_state := ht_scan_state sink |},
           {| build_chunk := build_chunk lstate; join_keys := keys;
              build_executor := build_executor lstate |})) /\
  (right_projection_map op <> [] ->
   Forall (fun index => index < length (data input)) (right_projection_map op) ->
   length (right_projection_map op) <= length (data (build_chunk lstate)) ->
   exists payload,
     Sink Execute Build op sink lstate input
     = Some ({| hash_table := Build (hash_table sink) keys payload;
                ht_scan_state := ht_scan_state sink |},
             {| build_chunk := payload; join_keys := keys;
                build_executor := build_executor lstate |}) /\
     count payload = count input /\
     (forall i index, right_projection_map op !! i = Some index ->
        data payload !! i = data input !! index)).
Proof.
  intros Hcount Hexec keys. split; [apply Hcount|]. unfold Sink. rewrite Hexec.
  fold keys. split.
  - intros ->. reflexivity.
  - intros Hne Hin Hlen.
    rewrite (proj2 (Nat.ltb_lt _ _))
      by (destruct (right_projection_map op); [done|cbn; lia]).
    destruct (reference_columns_spec (right_projection_map op) 0 input
                (SetCardinality (Reset (build_chunk lstate)) input) Hin)
      as (payload & Hrun & Hc & _ & Hmapped & _).
    { cbn. rewrite length_map. exact Hlen. }
    exists payload. rewrite Hrun. split; [reflexivity|]. split; [exact Hc|].
    intros i index Hi. exact (Hmapped i index Hi).
Qed.

End OperatorFacts.

(** C6 fails as stated: an inner join whose build-side child has no column and
    that has no right projection map is constructed with an empty build
    schema. *)
Lemma inner_join_with_empty_build_types :
  @PhysicalHashJoin_new Example.types [Example.INTEGER]
    (Example.child [Example.INTEGER]) (Example.child []) [] INNER [] []
  = Constructed Example.no_build_column /\
  build_types Example.no_build_column = [] /\
  ~ @build_types_empty_iff_keys_only Example.types.
Proof.
  split; [reflexivity|]. split; [reflexivity|].
  intros Hclaim.
  destruct (Hclaim [Example.INTEGER] (Example.child [Example.INTEGER])
              (Example.child []) [] INNER [] [] Example.no_build_column eq_refl)
    as [Hkeys _].
  destruct (Hkeys eq_refl) as [H|[H|H]]; discriminate H.
Qed.

(** C6 as amended, for an inner join that projects one build column. *)
Lemma build_types_keys_only_witness :
  join_type Example.projecting = INNER /\
  (INNER = SEMI \/ INNER = ANTI \/ INNER = MARK -> build_types Example.projecting = []) /\
  (~ (INNER = SEMI \/ INNER = ANTI \/ INNER = MARK) ->
   @MapTypes Example.types [Example.INTEGER; Example.VARCHAR] [1]
   = Some (build_types Example.projecting)) /\
  ([1] <> [] \/ [Example.INTEGER; Example.VARCHAR] <> [] ->
   (build_types Example.projecting = [] <-> INNER = SEMI \/ INNER = ANTI \/ INNER = MARK)).
Proof.
  apply (@build_types_keys_only Example.types [Example.INTEGER]
           (Example.child [Example.INTEGER])
           (Example.child [Example.INTEGER; Example.VARCHAR])
           [Example.equal_on 0] INNER [] [1] Example.projecting).
  reflexivity.
Defined.

(** C10 at work: a left projection map with one index. *)
Lemma constructor_left_projection_map_witness :
  ([2] <> [] ->
   @PhysicalHashJoin_new Example.types [Example.INTEGER]
     (Example.child [Example.INTEGER])
     (Example.child [Example.INTEGER; Example.VARCHAR])
     [Example.equal_on 0] INNER [2] [1]
   = AssertionFailed) /\
  (forall op,
     @PhysicalHashJoin_new Example.types [Example.INTEGER]
       (Example.child [Example.INTEGER])
       (Example.child [Example.INTEGER; Example.VARCHAR])
       [Example.equal_on 0] INNER [2] [1]
     = Constructed op ->
     [2] = [] /\ right_projection_map op = [1]) /\
  ([2] = [] ->
   @PhysicalHashJoin_new Example.types [Example.INTEGER]
     (Example.child [Example.INTEGER])
     (Example.child [Example.INTEGER; Example.VARCHAR])
     [Example.equal_on 0] INNER [2] [1]
   <> AssertionFailed) /\
  @PhysicalHashJoin_new5 Example.types [Example.INTEGER]
    (Example.child [Example.INTEGER])
    (Example.child [Example.INTEGER; Example.VARCHAR])
    [Example.equal_on 0] INNER
  = @PhysicalHashJoin_new Example.types [Example.INTEGER]
      (Example.child [Example.INTEGER])
      (Example.child [Example.INTEGER; Example.VARCHAR])
      [Example.equal_on 0] INNER [] [] /\
  @PhysicalHashJoin_new5 Example.types [Example.INTEGER]
    (Example.child [Example.INTEGER])
    (Example.child [Example.INTEGER; Example.VARCHAR])
    [Example.equal_on 0] INNER
  <> AssertionFailed.
Proof.
  exact (@constructor_left_projection_map Example.types [Example.INTEGER]
           (Example.child [Example.INTEGER])
           (Example.child [Example.INTEGER; Example.VARCHAR])
           [Example.equal_on 0] INNER [2] [1]).
Defined.

(** C9 fails as stated: a mark join without correlation columns has one
    condition, one more than correlation columns, and gets no side
    structure. *)
Lemma plain_mark_join_has_no_counts :
  join_type Example.plain_mark = MARK /\
  length (conditions Example.plain_mark) = length (delim_types Example.plain_mark) + 1 /\
  correlated_counts (correlated_mark_join_info
                       (hash_table (GetGlobalState Example.plain_mark))) = None /\
  ~ @created_iff_one_more_condition Example.types.
Proof.
  split; [reflexivity|]. split; [reflexivity|]. split; [reflexivity|].
  intros Hclaim. destruct (Hclaim Example.plain_mark) as [_ Hcreated].
  apply Hcreated; [split; reflexivity|reflexivity].
Qed.

(** C9 as amended, for a mark join with one correlation column and two
    conditions. *)
Lemma correlated_mark_join_setup_witness :
  has_correlated_counts (GetGlobalState Example.correlated_mark) /\
  correlated_mark_join_info (hash_table (GetGlobalState Example.correlated_mark))
  = @Build_CorrelatedMarkJoinInfo Example.types
      (Some (@Build_SuperLargeHashTable Example.types 1024 [Example.INTEGER]
               [Example.BIGINT; Example.BIGINT]
               [@Build_BoundAggregateExpression Example.types Example.BIGINT
                  "count_star"%string false;
                @Build_BoundAggregateExpression Example.types Example.BIGINT
                  "count"%string false]))
      [@Build_BoundAggregateExpression Example.types Example.BIGINT
         "count_star"%string false;
       @Build_BoundAggregateExpression Example.types Example.BIGINT
         "count"%string false]
      [Example.INTEGER] (Some [Example.INTEGER])
      (Some [Example.BIGINT; Example.BIGINT]) (Some [Example.BIGINT; Example.BIGINT]).
Proof.
  destruct (@correlated_mark_join_setup Example.types Example.correlated_mark)
    as (Hiff & Hinfo & _).
  assert (has_correlated_counts (GetGlobalState Example.correlated_mark)) as Hhas.
  { apply Hiff. split; [reflexivity|]. split; [discriminate|reflexivity]. }
  split; [exact Hhas|]. exact (Hinfo Hhas).
Defined.

(** C8 at work: two build rows, of which the second column is the payload. *)
Lemma Sink_inserts_witness :
  @count Example.types (Example.Execute [(0, Example.INTEGER)] Example.two_build_rows) = 2 /\
  (right_projection_map Example.projecting = [] ->
   @Sink Example.types Example.Execute Example.Build Example.projecting
     (GetGlobalState Example.projecting) (GetLocalSinkState Example.projecting)
     Example.two_build_rows
   = Some (@Build_HashJoinGlobalState Example.types
             (Example.Build (hash_table (GetGlobalState Example.projecting))
                (Example.Execute [(0, Example.INTEGER)] Example.two_build_rows)
                Example.two_build_rows)
             (ht_scan_state (GetGlobalState Example.projecting)),
           @Build_HashJoinLocalState Example.types
             (build_chunk (GetLocalSinkState Example.projecting))
             (Example.Execute [(0, Example.INTEGER)] Example.two_build_rows)
             (build_executor (GetLocalSinkState Example.projecting)))) /\
  (right_projection_map Example.projecting <> [] ->
   Forall (fun index => index < 2) [1] ->
   1 <= 1 ->
   exists payload,
     @Sink Example.types Example.Execute Example.Build Example.projecting
       (GetGlobalState Example.projecting) (GetLocalSinkState Example.projecting)
       Example.two_build_rows
     = Some (@Build_HashJoinGlobalState Example.types
               (Example.Build (hash_table (GetGlobalState Example.projecting))
                  (Example.Execute [(0, Example.INTEGER)] Example.two_build_rows)
                  payload)
               (ht_scan_state (GetGlobalState Example.projecting)),
             @Build_HashJoinLocalState Example.types payload
               (Example.Execute [(0, Example.INTEGER)] Example.two_build_rows)
               (build_executor (GetLocalSinkState Example.projecting))) /\
     @count Example.types payload = 2 /\
     (forall i index, [1] !! i = Some index ->
        @data Example.types payload !! i
        = @data Example.types Example.two_build_rows !! index)).
Proof.
  apply (@Sink_inserts Example.types Example.Execute Example.Build Example.projecting
           (GetGlobalState Example.projecting) (GetLocalSinkState Example.projecting)
           Example.two_build_rows).
  - intros exprs chunk. reflexivity.
  - reflexivity.
Defined.

(** ** Successive calls of [Sink] *)
Section SinkMore.
Context `{T : Types}.
Variable Execute : list Expression -> DataChunk -> DataChunk.
Variable Build : JoinHashTable -> DataChunk -> DataChunk -> JoinHashTable.

(** [Sink] for the batches of the build side, one after the other, with the
    same local state. *)
Fixpoint Sink_all (op : PhysicalHashJoin) (sink : HashJoinGlobalState)
    (lstate : HashJoinLocalState) (inputs : list DataChunk)
    : option (HashJoinGlobalState * HashJoinLocalState) :=
  match inputs with
  | [] => Some (sink, lstate)
  | input :: rest =>
      match Sink Execute Build op sink lstate input with
      | Some (sink, lstate) => Sink_all op sink lstate rest
      | None => None
      end
  end.

(** The columns that the right projection map selects from an input. *)
Definition projected (op : PhysicalHashJoin) (input : DataChunk) : DataChunk :=
  if 0 <? length (right_projection_map op) then
    {| data := omap (fun index => data input !! index) (right_projection_map op);
       count := count input |}
  else input.

Lemma reference_columns_data projection_map : forall i input chunk,
  Forall (fun index => index < length (data input)) projection_map ->
  i + length projection_map = length (data chunk) ->
  reference_columns projection_map i input chunk
  = Some {| data := take i (data chunk)
                    ++ omap (fun index => data input !! index) projection_map;
            count := count chunk |}.
Proof.
  induction projection_map as [|index rest IH]; intros i input chunk Hin Hlen.
  - cbn in *. rewrite app_nil_r, take_ge by lia. destruct chunk. reflexivity.
  - apply Forall_cons in Hin as [Hindex Hrest]. cbn [length] in Hlen.
    cbn [reference_columns omap list_omap].
    destruct (lookup_lt_is_Some_2 _ _ Hindex) as [column Hcol]. rewrite Hcol.
    rewrite (proj2 (Nat.ltb_lt _ _)) by lia.
    rewrite (IH (S i) input) by (cbn; rewrite ?length_insert; (assumption || lia)).
    cbn [data count].
    rewrite (take_S_r _ _ column) by (apply list_lookup_insert_eq; lia).
    rewrite take_insert_ge by lia. rewrite <- app_assoc. reflexivity.
Qed.

Lemma length_projected_columns (input : DataChunk) projection_map :
  Forall (fun index => index < length (data input)) projection_map ->
  length (omap (fun index => data input !! index) projection_map)
  = length projection_map.
Proof.
  induction 1 as [|index rest Hindex _ IH]; [reflexivity|]. cbn [omap list_omap].
  destruct (lookup_lt_is_Some_2 _ _ Hindex) as [column ->]. cbn. rewrite IH. reflexivity.
Qed.

(** X7.  The local state that one call of [Sink] leaves is fit for the next.
    Let the indices of the right projection map be columns of every input and,
    when there is such a map, let the build chunk have one column for each of
    its indices, as [GetLocalSinkState] initializes it.  Then the calls for the
    inputs all succeed, and the table they leave is the one that [Build] gives,
    input after input, for the keys of the input and the columns selected from
    it, without a column of an earlier input; the scan cursor and the executor
    are not changed. *)
Theorem Sink_all_builds op inputs : forall sink lstate,
  Forall (fun input =>
            Forall (fun index => index < length (data input)) (right_projection_map op))
    inputs ->
  (right_projection_map op <> [] ->
   length (data (build_chunk lstate)) = length (right_projection_map op)) ->
  exists lstate',
    Sink_all op sink lstate inputs
    = Some ({| hash_table :=
                 fold_left (fun ht input =>
                              Build ht (Execute (build_executor lstate) input)
                                (projected op input))
                   inputs (hash_table sink);
               ht_scan_state := ht_scan_state sink |}, lstate') /\
    build_executor lstate' = build_executor lstate.
Proof.
  induction inputs as [|input rest IH]; intros sink lstate Hin Hcols.
  - exists lstate. destruct sink. done.
  - apply Forall_cons in Hin as [Hinput Hrest]. cbn [Sink_all fold_left].
    assert (exists lstate1,
      Sink Execute Build op sink lstate input
      = Some ({| hash_table := Build (hash_table sink)
                                 (Execute (build_executor lstate) input)
                                 (projected op input);
                 ht_scan_state := ht_scan_state sink |}, lstate1) /\
      build_executor lstate1 = build_executor lstate /\
      (right_projection_map op <> [] ->
       length (data (build_chunk lstate1)) = length (right_projection_map op)))
      as (lstate1 & Hsink & Hexec1 & Hcols1).
    { unfold Sink, projected.
      destruct (0 <? length (right_projection_map op)) eqn:Hmap.
      - apply Nat.ltb_lt in Hmap.
        assert (right_projection_map op <> []) as Hne
          by (intros Hnil; rewrite Hnil in Hmap; cbn in Hmap; lia).
        rewrite (reference_columns_data _ 0 input); [|exact Hinput|];
          [|cbn; rewrite length_map; symmetry; exact (Hcols Hne)].
        eexists. split; [reflexivity|]. split; [reflexivity|].
        intros _. cbn. apply length_projected_columns. exact Hinput.
      - eexists. split; [reflexivity|]. split; [reflexivity|exact Hcols]. }
    rewrite Hsink.
    destruct (IH {| hash_table := Build (hash_table sink)
                                    (Execute (build_executor lstate) input)
                                    (projected op input);
                    ht_scan_state := ht_scan_state sink |} lstate1 Hrest Hcols1)
      as (lstate' & Hrun & Hexec).
    cbn [hash_table ht_scan_state] in Hrun. rewrite Hexec1 in Hrun, Hexec.
    exists lstate'. split; assumption.
Qed.

End SinkMore.

(** X7 at work: two batches for the inner join that projects the second build
    column. *)
Lemma Sink_all_builds_witness :
  exists lstate',
    @Sink_all Example.types Example.Execute Example.Build Example.projecting
      (GetGlobalState Example.projecting) (GetLocalSinkState Example.projecting)
      [Example.two_build_rows; Example.chunk [[3]; [30]] 1]
    = Some (@Build_HashJoinGlobalState Example.types
              (fold_left
                 (fun ht input =>
                    Example.Build ht
                      (Example.Execute
                         (build_executor (GetLocalSinkState Example.projecting)) input)
                      (@projected Example.types Example.projecting input))
                 [Example.two_build_rows; Example.chunk [[3]; [30]] 1]
                 (hash_table (GetGlobalState Example.projecting)))
              (ht_scan_state (GetGlobalState Example.projecting)), lstate') /\
    build_executor lstate' = build_executor (GetLocalSinkState Example.projecting).
Proof.
  apply (@Sink_all_builds Example.types Example.Execute Example.Build Example.projecting
           [Example.two_build_rows; Example.chunk [[3]; [30]] 1]
           (GetGlobalState Example.projecting) (GetLocalSinkState Example.projecting)).
  - apply Forall_cons; split; [apply Forall_cons; split; [vm_compute; lia|constructor]|].
    apply Forall_cons; split; [apply Forall_cons; split; [vm_compute; lia|constructor]|].
    constructor.
  - intros _. reflexivity.
Defined.

End BuildSide.

(** * Probe side: [ProbeHashTable] and [GetChunkInternal] *)
Module ProbeSide.

(** The collaborators of the probe driver.  A [DataChunk] is seen through the
    sequence of its rows: the driver only asks a chunk for its [size], appends
    one chunk to another, references and resets it. *)
Class Collaborators : Type := {
  Row : Type;
  JoinHashTable : Type;
  ScanStructure : Type;
  JoinHTScanState : Type;
  (** the macro [STANDARD_VECTOR_SIZE], defined outside the sources at hand *)
  STANDARD_VECTOR_SIZE : nat;
  (** [JoinHashTable::size()], [join_type] and [has_null] *)
  ht_size : JoinHashTable -> nat;
  ht_join_type : JoinHashTable -> JoinType;
  ht_has_null : JoinHashTable -> bool;
  (** [JoinHashTable::Probe(keys)] *)
  Probe : JoinHashTable -> list Row -> ScanStructure;
  (** [ScanStructure::Next(keys, left, result)]: the next slice of matches
      and the advanced cursor *)
  Next : ScanStructure -> list Row -> list Row -> list Row * ScanStructure;
  (** [JoinHashTable::ScanFullOuter(result, scan_state)] *)
  ScanFullOuter : JoinHashTable -> JoinHTScanState -> list Row * JoinHTScanState;
  (** [probe_executor.Execute(child_chunk, join_keys)] *)
  Execute : list Row -> list Row;
  (** [ConstructEmptyJoinResult(join_type, has_null, input, result)] *)
  ConstructEmptyJoinResult : JoinType -> bool -> list Row -> list Row;
}.

Section Driver.
Context `{C : Collaborators}.

Definition DataChunk : Type := list Row.

(** Modelled from the spec: the container [DataChunk] is not part of the
    sources at hand.  The driver asks a batch for its number of rows, appends
    the rows of a slice to the cache batch, hands a batch over and empties it:
    [DataChunk::size], [Append], [Reference] and [Reset] on the sequence of
    rows. *)
Definition size (chunk : DataChunk) : nat := length chunk.
Definition Append (chunk other : DataChunk) : DataChunk := chunk ++ other.
Definition Reset : DataChunk := [].
Definition Reference (other : DataChunk) : DataChunk := other.
Arguments size : simpl never.

(** Modelled from the spec: the probe-side child operator [children[0]] is
    outside the sources at hand; it "must expose a pull interface:
    get_next_batch(state) -> batch, empty batch signaling end of stream, called
    repeatedly".  Its state is the batches it has still to deliver, and how
    often [GetChunk] was called on it; a child whose batches are used up
    answers with an empty chunk. *)
Record ChildState : Type := {
  pending : list DataChunk;
  fetched : nat;
}.

Definition child_GetChunk (cs : ChildState) : DataChunk * ChildState :=
  match pending cs with
  | [] => (Reset, {| pending := []; fetched := S (fetched cs) |})
  | c :: rest => (c, {| pending := rest; fetched := S (fetched cs) |})
  end.

(** [HashJoinGlobalState] *)
Record HashJoinGlobalState : Type := {
  hash_table : JoinHashTable;
  ht_scan_state : JoinHTScanState;
}.

(** [PhysicalHashJoinState], with the [child_chunk] and [child_state] it
    inherits from [PhysicalOperatorState]. *)
Record PhysicalHashJoinState : Type := {
  child_chunk : DataChunk;
  child_state : ChildState;
  cached_chunk : DataChunk;
  join_keys : DataChunk;
  scan_structure : option ScanStructure;
}.

Definition set_child (st : PhysicalHashJoinState) (c : DataChunk) (cs : ChildState) :=
  {| child_chunk := c; child_state := cs; cached_chunk := cached_chunk st;
     join_keys := join_keys st; scan_structure := scan_structure st |}.

Definition set_cached_chunk (st : PhysicalHashJoinState) (c : DataChunk) :=
  {| child_chunk := child_chunk st; child_state := child_state st; cached_chunk := c;
     join_keys := join_keys st; scan_structure := scan_structure st |}.

Definition set_join_keys (st : PhysicalHashJoinState) (k : DataChunk) :=
  {| child_chunk := child_chunk st; child_state := child_state st;
     cached_chunk := cached_chunk st; join_keys := k;
     scan_structure := scan_structure st |}.

Definition set_scan_structure (st : PhysicalHashJoinState) (s : option ScanStructure) :=
  {| child_chunk := child_chunk st; child_state := child_state st;
     cached_chunk := cached_chunk st; join_keys := join_keys st;
     scan_structure := s |}.

(** What one pass through the body of a [do ... while] loop does: it leaves
    the function with the output [chunk], or goes round again. *)
Inductive Pass (A : Type) : Type :=
| Return (chunk : DataChunk) (st : A)
| Again (st : A).
Arguments Return {A} chunk st.
Arguments Again {A} st.

(** *** [ProbeHashTable] *)

(** The body of the loop "probe the HT" (lines 226-242). *)
Definition ProbeHashTable_body (sink : HashJoinGlobalState)
    (state : PhysicalHashJoinState) : Pass PhysicalHashJoinState :=
  (* fetch the chunk from the left side *)
  let '(c, cs) := child_GetChunk (child_state state) in
  let state := set_child state c cs in
  if size (child_chunk state) =? 0 then Return Reset state
  else if ht_size (hash_table sink) =? 0 then
    Return (ConstructEmptyJoinResult (ht_join_type (hash_table sink))
              (ht_has_null (hash_table sink)) (child_chunk state)) state
  else
    (* resolve the join keys for the left chunk *)
    let state := set_join_keys state (Execute (child_chunk state)) in
    (* perform the actual probe *)
    let ss := Probe (hash_table sink) (join_keys state) in
    let '(chunk, ss) := Next ss (join_keys state) (child_chunk state) in
    let state := set_scan_structure state (Some ss) in
    if size chunk =? 0 then Again state else Return chunk state.

Lemma ProbeHashTable_body_Again sink state state' :
  ProbeHashTable_body sink state = Again state' ->
  length (pending (child_state state')) < length (pending (child_state state)).
Proof.
  unfold ProbeHashTable_body, child_GetChunk.
  destruct (pending (child_state state)) as [|c rest] eqn:E; cbn;
    repeat case_match; intros; simplify_eq/=; lia.
Qed.

Equations? ProbeHashTable_loop (sink : HashJoinGlobalState)
    (state : PhysicalHashJoinState) : DataChunk * PhysicalHashJoinState
    by wf (length (pending (child_state state))) lt :=
  ProbeHashTable_loop sink state with inspect (ProbeHashTable_body sink state) => {
    | exist _ (Return chunk state') _ := (chunk, state');
    | exist _ (Again state') Hpass := ProbeHashTable_loop sink state' }.
Proof. exact (ProbeHashTable_body_Again _ _ _ Hpass). Qed.

Definition ProbeHashTable (sink : HashJoinGlobalState)
    (state : PhysicalHashJoinState) : DataChunk * PhysicalHashJoinState :=
  match scan_structure state with
  | Some ss =>
      if 0 <? size (child_chunk state) then
        (* still have elements remaining from the previous probe *)
        let '(chunk, ss) := Next ss (join_keys state) (child_chunk state) in
        if 0 <? size chunk then (chunk, set_scan_structure state (Some ss))
        else ProbeHashTable_loop sink (set_scan_structure state None)
      else ProbeHashTable_loop sink state
  | None => ProbeHashTable_loop sink state
  end.

(** [GetOperatorState]: the chunks are initialized (empty) and there is no
    scan structure yet. *)
Definition GetOperatorState (left : ChildState) : PhysicalHashJoinState :=
  {| child_chunk := Reset; child_state := left; cached_chunk := Reset;
     join_keys := Reset; scan_structure := None |}.

(** *** [GetChunkInternal] *)

(** [#if STANDARD_VECTOR_SIZE >= 128]: the chunk cache is compiled in. *)
Definition caching_enabled : bool := 128 <=? STANDARD_VECTOR_SIZE.

(** The small-chunk threshold of the source. *)
Definition SMALL_CHUNK : nat := 64.

(** The body of the loop of [GetChunkInternal] (lines 172-208).  [join_type]
    is the member of the operator; [threshold] stands for the literal 64 of
    the source, so that the behaviour can be compared between thresholds.  The
    sink state leaves the pass with the output, since [ScanFullOuter] advances
    its scan cursor. *)
Definition GetChunkInternal_body (threshold : nat) (join_type : JoinType)
    (sink : HashJoinGlobalState) (state : PhysicalHashJoinState)
    : Pass (HashJoinGlobalState * PhysicalHashJoinState) :=
  let '(chunk, state) := ProbeHashTable sink state in
  if size chunk =? 0 then
    if caching_enabled && (0 <? size (cached_chunk state)) then
      (* finished probing but cached data remains, return cached chunk *)
      Return (Reference (cached_chunk state)) (sink, set_cached_chunk state Reset)
    else if bool_decide (join_type = OUTER) then
      (* check if we need to scan any unmatched tuples from the RHS *)
      let '(chunk, scan) := ScanFullOuter (hash_table sink) (ht_scan_state sink) in
      Return chunk ({| hash_table := hash_table sink; ht_scan_state := scan |}, state)
    else Return chunk (sink, state)
  else if caching_enabled then
    if size chunk <? threshold then
      (* small chunk: add it to chunk cache and continue *)
      let state := set_cached_chunk state (Append (cached_chunk state) chunk) in
      if STANDARD_VECTOR_SIZE - threshold <=? size (cached_chunk state) then
        (* chunk cache full: return it *)
        Return (Reference (cached_chunk state)) (sink, set_cached_chunk state Reset)
      else
        (* chunk cache not full: probe again *)
        Again (sink, state)
    else Return chunk (sink, state)
  else Return chunk (sink, state).

(** The loop terminates: a pass that goes round again has put at least one row
    into a cache that is not yet full, and the child never gets batches back. *)
Definition GetChunkInternal_measure (threshold : nat) (state : PhysicalHashJoinState) : nat :=
  length (pending (child_state state))
  + (STANDARD_VECTOR_SIZE - threshold - size (cached_chunk state)).

Lemma ProbeHashTable_loop_eq sink state :
  ProbeHashTable_loop sink state =
  match ProbeHashTable_body sink state with
  | Return chunk state' => (chunk, state')
  | Again state' => ProbeHashTable_loop sink state'
  end.
Proof.
  funelim (ProbeHashTable_loop sink state);
    match goal with H : ProbeHashTable_body _ _ = _ |- _ => rewrite H end;
    reflexivity.
Qed.

Lemma ProbeHashTable_loop_frame sink state chunk state' :
  ProbeHashTable_loop sink state = (chunk, state') ->
  cached_chunk state' = cached_chunk state /\
  length (pending (child_state state')) <= length (pending (child_state state)).
Proof.
  funelim (ProbeHashTable_loop sink state).
  - intros [= <- <-]. clear H. revert e.
    unfold ProbeHashTable_body, child_GetChunk.
    destruct (pending (child_state state)); cbn;
      repeat case_match; intros; simplify_eq/=; split; (reflexivity || lia).
  - intros Hrec. destruct (H _ _ Hrec) as [Hc Hp]. clear H H0.
    pose proof (ProbeHashTable_body_Again _ _ _ Hpass) as Hlt.
    split; [|lia]. rewrite Hc. revert Hpass.
    unfold ProbeHashTable_body, child_GetChunk.
    destruct (pending (child_state state)); cbn;
      repeat case_match; intros; simplify_eq/=; reflexivity.
Qed.

Lemma ProbeHashTable_frame sink state chunk state' :
  ProbeHashTable sink state = (chunk, state') ->
  cached_chunk state' = cached_chunk state /\
  length (pending (child_state state')) <= length (pending (child_state state)).
Proof.
  unfold ProbeHashTable. repeat case_match; intros; simplify_eq/=;
    try (split; [reflexivity|lia]);
    match goal with H : ProbeHashTable_loop _ _ = _ |- _ =>
      apply ProbeHashTable_loop_frame in H; cbn in H; exact H end.
Qed.

Lemma GetChunkInternal_body_Again threshold join_type sink state sink' state' :
  GetChunkInternal_body threshold join_type sink state = Again (sink', state') ->
  sink' = sink /\
  GetChunkInternal_measure threshold state' < GetChunkInternal_measure threshold state.
Proof.
  unfold GetChunkInternal_body, GetChunkInternal_measure.
  destruct (ProbeHashTable sink state) as [chunk st] eqn:E.
  apply ProbeHashTable_frame in E as [Hc Hp].
  repeat case_match; intros; simplify_eq/=. split; [reflexivity|].
  repeat match goal with
         | H : (_ =? _) = _ |- _ => apply Nat.eqb_neq in H
         | H : (_ <=? _) = _ |- _ => apply Nat.leb_gt in H
         end.
  unfold size, Append in *. rewrite length_app in *. rewrite Hc in *. lia.
Qed.

Equations? GetChunkInternal_loop (threshold : nat) (join_type : JoinType)
    (sink : HashJoinGlobalState) (state : PhysicalHashJoinState)
    : DataChunk * (HashJoinGlobalState * PhysicalHashJoinState)
    by wf (GetChunkInternal_measure threshold state) lt :=
  GetChunkInternal_loop threshold join_type sink state
    with inspect (GetChunkInternal_body threshold join_type sink state) => {
    | exist _ (Return chunk st) _ := (chunk, st);
    | exist _ (Again (sink', state')) Hpass :=
        GetChunkInternal_loop threshold join_type sink' state' }.
Proof. exact (proj2 (GetChunkInternal_body_Again _ _ _ _ _ _ Hpass)). Qed.

(** The test of lines 167-168. *)
Definition empty_result_shortcut (sink : HashJoinGlobalState) : bool :=
  (ht_size (hash_table sink) =? 0)
  && (bool_decide (ht_join_type (hash_table sink) = INNER)
      || bool_decide (ht_join_type (hash_table sink) = SEMI)).

(** [GetChunkInternal] with the threshold left open.  The output parameter
    [chunk] is the result; it is empty when the function is entered. *)
Definition GetChunkInternal_with (threshold : nat) (join_type : JoinType)
    (sink : HashJoinGlobalState) (state : PhysicalHashJoinState)
    : DataChunk * (HashJoinGlobalState * PhysicalHashJoinState) :=
  if empty_result_shortcut sink then
    (* empty hash table with INNER or SEMI join means empty result set *)
    (Reset, (sink, state))
  else GetChunkInternal_loop threshold join_type sink state.

(** [PhysicalHashJoin::GetChunkInternal] as the source has it. *)
Definition GetChunkInternal := GetChunkInternal_with SMALL_CHUNK.

(** The caller's protocol: [GetChunkInternal] is called until it returns an
    empty chunk.  [drain n] makes at most [n] calls and collects the rows of
    the chunks returned before the empty one; it is [None] when the stream has
    not ended after [n] calls. *)
Fixpoint drain (threshold : nat) (join_type : JoinType) (n : nat)
    (sink : HashJoinGlobalState) (state : PhysicalHashJoinState)
    : option (list Row) :=
  match n with
  | 0 => None
  | S n =>
      let '(chunk, (sink, state)) := GetChunkInternal_with threshold join_type sink state in
      if size chunk =? 0 then Some []
      else option_map (app chunk) (drain threshold join_type n sink state)
  end.

(** [calls n]: the chunks returned by [n] successive calls, and the state
    they leave. *)
Fixpoint calls (threshold : nat) (join_type : JoinType) (n : nat)
    (sink : HashJoinGlobalState) (state : PhysicalHashJoinState)
    : list DataChunk * (HashJoinGlobalState * PhysicalHashJoinState) :=
  match n with
  | 0 => ([], (sink, state))
  | S n =>
      let '(chunk, (sink, state)) := GetChunkInternal_with threshold join_type sink state in
      let '(chunks, final) := calls threshold join_type n sink state in
      (chunk :: chunks, final)
  end.

(** [n] successive calls of [ScanFullOuter] on the shared scan cursor. *)
Fixpoint ScanFullOuter_n (n : nat) (ht : JoinHashTable) (scan : JoinHTScanState)
    : list DataChunk * JoinHTScanState :=
  match n with
  | 0 => ([], scan)
  | S n =>
      let '(chunk, scan) := ScanFullOuter ht scan in
      let '(chunks, final) := ScanFullOuter_n n ht scan in
      (chunk :: chunks, final)
  end.

(** The probe side has nothing more to give: the child has delivered all its
    batches and no scan structure is waiting with a non-empty slice. *)
Definition probe_exhausted (state : PhysicalHashJoinState) : Prop :=
  pending (child_state state) = [] /\
  match scan_structure state with
  | Some ss =>
      size (child_chunk state) = 0 \/
      size (fst (Next ss (join_keys state) (child_chunk state))) = 0
  | None => True
  end.

(** The reading of the specification by which a resumed slice goes straight to
    the caller: whenever a live scan structure is resumed and yields a
    non-empty slice, [GetChunkInternal] returns that very slice and leaves the
    cache alone. *)
Definition resumed_slice_bypasses_cache : Prop :=
  forall join_type sink state ss chunk ss',
    empty_result_shortcut sink = false ->
    scan_structure state = Some ss -> 0 < size (child_chunk state) ->
    Next ss (join_keys state) (child_chunk state) = (chunk, ss') ->
    0 < size chunk ->
    fst (GetChunkInternal join_type sink state) = chunk /\
    cached_chunk (snd (snd (GetChunkInternal join_type sink state)))
    = cached_chunk state.

(** [scan_of ht keys left ss]: [ss] is the scan structure that [Probe] created
    for the keys of the batch [left], after one or more calls of [Next]. *)
Inductive scan_of (ht : JoinHashTable) (keys left : DataChunk) : ScanStructure -> Prop :=
| scan_first : scan_of ht keys left (snd (Next (Probe ht keys) keys left))
| scan_next ss : scan_of ht keys left ss -> scan_of ht keys left (snd (Next ss keys left)).

(** What holds of the scan structure between calls: it is never set over an
    empty table, and whenever it can be resumed it belongs to the batch in
    [child_chunk], the most recently fetched one, whose keys are in
    [join_keys]. *)
Definition scan_structure_valid (ht : JoinHashTable) (state : PhysicalHashJoinState) : Prop :=
  (ht_size ht = 0 -> scan_structure state = None) /\
  (forall ss, scan_structure state = Some ss -> 0 < size (child_chunk state) ->
     join_keys state = Execute (child_chunk state) /\
     scan_of ht (join_keys state) (child_chunk state) ss).

(** The reading of the specification's invariant: between calls, a scan
    structure is kept only while it still has a slice of matches to give. *)
Definition live_scan_has_matches : Prop :=
  forall join_type sink left n ss,
    let state := snd (snd (calls SMALL_CHUNK join_type n sink (GetOperatorState left))) in
    scan_structure state = Some ss ->
    0 < size (fst (Next ss (join_keys state) (child_chunk state))).

(** The contracts of two collaborators that the comparison between thresholds
    relies on.  The child delivers non-empty batches until it is exhausted ... *)
Definition delivers_rows (state : PhysicalHashJoinState) : Prop :=
  Forall (fun batch => 0 < size batch) (pending (child_state state)).

(** ... and, for the joins that have a result over an empty build side, the
    result for a non-empty batch is not empty. *)
Definition empty_build_keeps_rows (sink : HashJoinGlobalState) : Prop :=
  empty_result_shortcut sink = false -> ht_size (hash_table sink) = 0 ->
  forall batch, 0 < size batch ->
    0 < size (ConstructEmptyJoinResult (ht_join_type (hash_table sink))
                (ht_has_null (hash_table sink)) batch).

(** The reading of the specification by which the cache leaves the order of
    the rows within the result of one probe-side batch alone: whatever the
    threshold, the rows returned for a child that delivers a single batch come
    in the same order. *)
Definition coalescing_keeps_order : Prop :=
  forall threshold1 threshold2 join_type n1 n2 sink batch rows1 rows2,
    drain threshold1 join_type n1 sink
      (GetOperatorState {| pending := [batch]; fetched := 0 |}) = Some rows1 ->
    drain threshold2 join_type n2 sink
      (GetOperatorState {| pending := [batch]; fetched := 0 |}) = Some rows2 ->
    rows1 = rows2.

(** The contracts under which the stream ends: a scan structure gives only
    finitely many non-empty slices, and so does the scan of the unmatched
    build rows. *)
Definition cursor_finite : Prop :=
  exists rank : ScanStructure -> nat,
    forall ss keys left,
      0 < size (fst (Next ss keys left)) -> rank (snd (Next ss keys left)) < rank ss.

Definition outer_scan_finite (ht : JoinHashTable) : Prop :=
  exists rank : JoinHTScanState -> nat,
    forall scan,
      0 < size (fst (ScanFullOuter ht scan)) ->
      rank (snd (ScanFullOuter ht scan)) < rank scan.

End Driver.

Arguments Return {C A} chunk st.
Arguments Again {C A} st.
Arguments size : simpl never.

(** ** A small executable hash join

    Rows are tuples of numbers whose first component is the join key.  The
    hash table keeps its build rows in one collision chain; a scan structure
    is the part of the chain that was not visited yet, and [Next] follows the
    chain to the next build row that matches some probe row.  The rows of the
    full outer scan are handed out slice by slice. *)
Module Toy.

Record Table : Type := {
  chain : list (list nat);
  table_join_type : JoinType;
  table_has_null : bool;
}.

Definition same_key (b p : list nat) : bool :=
  bool_decide (hd 0 p = hd 0 b).

Fixpoint follow (rest : list (list nat)) (left : list (list nat))
    : list (list nat) * list (list nat) :=
  match rest with
  | [] => ([], [])
  | b :: rest =>
      match filter (fun p => same_key b p = true) left with
      | [] => follow rest left
      | found => (map (fun p => p ++ tl b) found, rest)
      end
  end.

Definition pop (slices : list (list (list nat))) :=
  match slices with
  | [] => ([], [])
  | s :: rest => (s, rest)
  end.

Definition empty_result (jt : JoinType) (has_null : bool) (left : list (list nat))
    : list (list nat) :=
  match jt with
  | INNER | SEMI => []
  | _ => left
  end.

Definition engine (vector_size : nat) : Collaborators := {|
  Row := list nat;
  JoinHashTable := Table;
  ScanStructure := list (list nat);
  JoinHTScanState := list (list (list nat));
  STANDARD_VECTOR_SIZE := vector_size;
  ht_size := fun ht => length (chain ht);
  ht_join_type := table_join_type;
  ht_has_null := table_has_null;
  Probe := fun ht _ => chain ht;
  Next := fun ss _ left => follow ss left;
  ScanFullOuter := fun _ => pop;
  Execute := map (take 1);
  ConstructEmptyJoinResult := empty_result;
|}.

(** The sink state around a table, and the operator state before the first
    call, over the batches the child is going to deliver. *)
Definition sink_of (vector_size : nat) (ht : Table) (unmatched : list (list (list nat)))
    : @HashJoinGlobalState (engine vector_size) :=
  @Build_HashJoinGlobalState (engine vector_size) ht unmatched.

Definition state_of (vector_size : nat) (batches : list (list (list nat)))
    : @PhysicalHashJoinState (engine vector_size) :=
  @GetOperatorState (engine vector_size)
    (@Build_ChildState (engine vector_size) batches 0).

Definition table (rows : list (list nat)) (jt : JoinType) : Table :=
  {| chain := rows; table_join_type := jt; table_has_null := false |}.

(** A scenario with a scan structure that outlives a call: the first batch
    has 64 rows that match the first build row and one row that matches the
    second; a second batch has a single matching row. *)
Definition two_rows : Table := table [[2; 200]; [1; 100]] INNER.

Definition first_batch : list (list nat) := repeat [2] 64 ++ [[1]].

Definition after_first_call : @PhysicalHashJoinState (engine 128) :=
  @Build_PhysicalHashJoinState (engine 128)
    first_batch (@Build_ChildState (engine 128) [[[1]]] 1) []
    (map (take 1) first_batch) (Some [[1; 100]]).

(** A batch whose slices grow: one row matches the first build row of the
    chain, two rows match the second, 64 rows match the third. *)
Definition growing_slices : list (list nat) := [[1]; [2]; [2]] ++ repeat [3] 64.

Definition collide : Table := table [[1; 100]; [2; 200]; [3; 300]] INNER.

(** A batch of 64 rows that all match the only build row. *)
Definition one_row : Table := table [[1; 100]] INNER.

Definition after_full_slice : @PhysicalHashJoinState (engine 128) :=
  @Build_PhysicalHashJoinState (engine 128)
    (repeat [1] 64) (@Build_ChildState (engine 128) [] 1) []
    (repeat [1] 64) (Some []).

(** After the probe of a one-row batch, as [ProbeHashTable] leaves it. *)
Definition after_small_probe : @PhysicalHashJoinState (engine 128) :=
  @Build_PhysicalHashJoinState (engine 128)
    [[1]] (@Build_ChildState (engine 128) [] 1) [] [[1]] (Some []).

(** A full outer join at the end of the probe side, with two cached rows and
    one slice of unmatched build rows to come. *)
Definition outer_table : Table := table [[1; 100]; [3; 300]] OUTER.

Definition at_end_of_probe : @PhysicalHashJoinState (engine 128) :=
  @Build_PhysicalHashJoinState (engine 128)
    [] (@Build_ChildState (engine 128) [] 2) [[1; 100]; [1; 100]] [[1]] None.

End Toy.

(** ** Facts about the probe driver *)
Section DriverFacts.
Context `{C : Collaborators}.

Lemma GetChunkInternal_loop_eq threshold join_type sink state :
  GetChunkInternal_loop threshold join_type sink state =
  match GetChunkInternal_body threshold join_type sink state with
  | Return chunk st => (chunk, st)
  | Again (sink', state') => GetChunkInternal_loop threshold join_type sink' state'
  end.
Proof.
  funelim (GetChunkInternal_loop threshold join_type sink state);
    match goal with H : GetChunkInternal_body _ _ _ _ = _ |- _ => rewrite H end;
    reflexivity.
Qed.

Lemma size_0 (chunk : DataChunk) : size chunk = 0 <-> chunk = [].
Proof. unfold size. destruct chunk; cbn; split; intros; (done || lia). Qed.

(** The shortcut is taken exactly when the table is empty and the join is
    INNER or SEMI. *)
Lemma empty_result_shortcut_true sink :
  empty_result_shortcut sink = true <->
  ht_size (hash_table sink) = 0 /\
  (ht_join_type (hash_table sink) = INNER \/ ht_join_type (hash_table sink) = SEMI).
Proof.
  unfold empty_result_shortcut.
  rewrite andb_true_iff, orb_true_iff, Nat.eqb_eq, !bool_decide_eq_true.
  reflexivity.
Qed.

(** *** C1: the empty-build shortcut *)

Lemma GetChunkInternal_shortcut threshold join_type sink state :
  empty_result_shortcut sink = true ->
  GetChunkInternal_with threshold join_type sink state = (Reset, (sink, state)).
Proof. unfold GetChunkInternal_with. intros ->. reflexivity. Qed.

(** C1.  An operator whose join type is INNER or SEMI and whose hash table
    (created with the operator's join type) holds no row: the first call and
    every later call of [GetChunkInternal] return an empty chunk and leave the
    state as it is; in particular the probe-side child is never asked for a
    batch (its call counter and its pending batches are untouched). *)
Theorem GetChunkInternal_empty_build join_type sink state n :
  ht_join_type (hash_table sink) = join_type ->
  join_type = INNER \/ join_type = SEMI ->
  ht_size (hash_table sink) = 0 ->
  GetChunkInternal join_type sink state = (Reset, (sink, state)) /\
  calls SMALL_CHUNK join_type n sink state = (repeat Reset n, (sink, state)) /\
  fetched (child_state (snd (snd (calls SMALL_CHUNK join_type n sink state))))
    = fetched (child_state state).
Proof.
  intros Hjt Hkind Hsize.
  assert (Hs : empty_result_shortcut sink = true).
  { apply empty_result_shortcut_true. rewrite Hjt. done. }
  assert (Hcalls : calls SMALL_CHUNK join_type n sink state
                   = (repeat Reset n, (sink, state))).
  { induction n as [|n IH]; [reflexivity|].
    cbn [calls]. rewrite (GetChunkInternal_shortcut _ _ _ _ Hs), IH. reflexivity. }
  split; [exact (GetChunkInternal_shortcut _ _ _ _ Hs)|].
  split; [exact Hcalls|]. rewrite Hcalls. reflexivity.
Qed.

(** *** One pass of the loop, seen from [GetChunkInternal] *)

Lemma GetChunkInternal_with_eq threshold join_type sink state :
  empty_result_shortcut sink = false ->
  GetChunkInternal_with threshold join_type sink state =
  match GetChunkInternal_body threshold join_type sink state with
  | Return chunk st => (chunk, st)
  | Again (sink', state') => GetChunkInternal_with threshold join_type sink' state'
  end.
Proof.
  intros Hs. unfold GetChunkInternal_with. rewrite Hs, GetChunkInternal_loop_eq.
  destruct (GetChunkInternal_body threshold join_type sink state)
    as [chunk st|[sink' state']] eqn:E; [reflexivity|].
  apply GetChunkInternal_body_Again in E as [-> _]. rewrite Hs. reflexivity.
Qed.

(** Induction along the passes of the loop. *)
Lemma GetChunkInternal_with_ind threshold join_type sink
    (P : PhysicalHashJoinState ->
         DataChunk * (HashJoinGlobalState * PhysicalHashJoinState) -> Prop) :
  empty_result_shortcut sink = false ->
  (forall state chunk st,
      GetChunkInternal_body threshold join_type sink state = Return chunk st ->
      P state (chunk, st)) ->
  (forall state state',
      GetChunkInternal_body threshold join_type sink state = Again (sink, state') ->
      P state' (GetChunkInternal_with threshold join_type sink state') ->
      P state (GetChunkInternal_with threshold join_type sink state')) ->
  forall state, P state (GetChunkInternal_with threshold join_type sink state).
Proof.
  intros Hs Hret Hagain state.
  remember (GetChunkInternal_measure threshold state) as m eqn:Hm.
  revert state Hm. induction m as [m IH] using lt_wf_ind. intros state ->.
  rewrite (GetChunkInternal_with_eq _ _ _ _ Hs).
  destruct (GetChunkInternal_body threshold join_type sink state)
    as [chunk st|[sink' state']] eqn:E.
  - apply Hret. exact E.
  - destruct (GetChunkInternal_body_Again _ _ _ _ _ _ E) as [-> Hlt].
    apply Hagain; [exact E|]. apply (IH _ Hlt). reflexivity.
Qed.

(** Decide the tests of a pass from the arithmetic facts at hand. *)
Ltac settle_tests :=
  repeat match goal with
    | |- context [?a =? ?b] =>
        first [ rewrite (proj2 (Nat.eqb_eq a b)) by lia
              | rewrite (proj2 (Nat.eqb_neq a b)) by lia ]
    | |- context [?a <? ?b] =>
        first [ rewrite (proj2 (Nat.ltb_lt a b)) by lia
              | rewrite (proj2 (Nat.ltb_ge a b)) by lia ]
    | |- context [?a <=? ?b] =>
        first [ rewrite (proj2 (Nat.leb_le a b)) by lia
              | rewrite (proj2 (Nat.leb_gt a b)) by lia ]
    end.

Lemma caching_enabled_true : 128 <= STANDARD_VECTOR_SIZE -> caching_enabled = true.
Proof. unfold caching_enabled. intros. settle_tests. reflexivity. Qed.

Lemma size_Append (a b : DataChunk) : size (Append a b) = size a + size b.
Proof. unfold size, Append. apply length_app. Qed.

(** The four ways in which a pass treats the slice that [ProbeHashTable]
    produced, when the cache is compiled in. *)
Lemma pass_small_again threshold join_type sink state chunk state1 :
  caching_enabled = true ->
  ProbeHashTable sink state = (chunk, state1) ->
  0 < size chunk < threshold ->
  size (Append (cached_chunk state) chunk) < STANDARD_VECTOR_SIZE - threshold ->
  GetChunkInternal_body threshold join_type sink state
  = Again (sink, set_cached_chunk state1 (Append (cached_chunk state) chunk)).
Proof.
  intros Hc Hp Hsz Hroom. unfold GetChunkInternal_body. rewrite Hp, Hc.
  destruct (ProbeHashTable_frame _ _ _ _ Hp) as [-> _]. cbn [set_cached_chunk cached_chunk].
  settle_tests. reflexivity.
Qed.

Lemma pass_small_flush threshold join_type sink state chunk state1 :
  caching_enabled = true ->
  ProbeHashTable sink state = (chunk, state1) ->
  0 < size chunk < threshold ->
  STANDARD_VECTOR_SIZE - threshold <= size (Append (cached_chunk state) chunk) ->
  GetChunkInternal_body threshold join_type sink state
  = Return (Append (cached_chunk state) chunk) (sink, set_cached_chunk state1 Reset).
Proof.
  intros Hc Hp Hsz Hfull. unfold GetChunkInternal_body. rewrite Hp, Hc.
  destruct (ProbeHashTable_frame _ _ _ _ Hp) as [-> _]. cbn [set_cached_chunk cached_chunk].
  settle_tests. reflexivity.
Qed.

Lemma pass_large threshold join_type sink state chunk state1 :
  ProbeHashTable sink state = (chunk, state1) ->
  0 < size chunk -> caching_enabled = false \/ threshold <= size chunk ->
  GetChunkInternal_body threshold join_type sink state = Return chunk (sink, state1).
Proof.
  intros Hp Hpos Hlarge. unfold GetChunkInternal_body. rewrite Hp.
  settle_tests. destruct Hlarge as [-> | Hlarge]; [reflexivity|].
  settle_tests. destruct caching_enabled; reflexivity.
Qed.

Lemma pass_exhausted_flush threshold join_type sink state chunk state1 :
  caching_enabled = true ->
  ProbeHashTable sink state = (chunk, state1) ->
  size chunk = 0 -> 0 < size (cached_chunk state) ->
  GetChunkInternal_body threshold join_type sink state
  = Return (cached_chunk state) (sink, set_cached_chunk state1 Reset).
Proof.
  intros Hc Hp Hsz Hcache. unfold GetChunkInternal_body. rewrite Hp, Hc.
  destruct (ProbeHashTable_frame _ _ _ _ Hp) as [-> _].
  settle_tests. reflexivity.
Qed.

Lemma pass_exhausted_empty_cache threshold join_type sink state chunk state1 :
  ProbeHashTable sink state = (chunk, state1) ->
  size chunk = 0 -> size (cached_chunk state) = 0 ->
  GetChunkInternal_body threshold join_type sink state
  = if bool_decide (join_type = OUTER) then
      Return (fst (ScanFullOuter (hash_table sink) (ht_scan_state sink)))
        ({| hash_table := hash_table sink;
            ht_scan_state := snd (ScanFullOuter (hash_table sink) (ht_scan_state sink)) |},
         state1)
    else Return Reset (sink, state1).
Proof.
  intros Hp Hsz Hcache. unfold GetChunkInternal_body. rewrite Hp.
  destruct (ProbeHashTable_frame _ _ _ _ Hp) as [-> _].
  settle_tests. rewrite andb_false_r.
  destruct (ScanFullOuter _ _). apply size_0 in Hsz as ->. reflexivity.
Qed.

(** The cache stays below its flush capacity from one call to the next. *)
Lemma GetChunkInternal_cache_bound threshold join_type sink state :
  size (cached_chunk state) < STANDARD_VECTOR_SIZE - threshold ->
  size (cached_chunk (snd (snd (GetChunkInternal_with threshold join_type sink state))))
  < STANDARD_VECTOR_SIZE - threshold.
Proof.
  destruct (empty_result_shortcut sink) eqn:Hs.
  { rewrite GetChunkInternal_shortcut by done. done. }
  revert state. apply (GetChunkInternal_with_ind threshold join_type sink
    (fun state r => size (cached_chunk state) < STANDARD_VECTOR_SIZE - threshold ->
                    size (cached_chunk (snd (snd r))) < STANDARD_VECTOR_SIZE - threshold) Hs).
  - intros state chunk st. unfold GetChunkInternal_body.
    destruct (ProbeHashTable sink state) as [c st1] eqn:Hp.
    destruct (ProbeHashTable_frame _ _ _ _ Hp) as [Hc _].
    repeat case_match; intros; simplify_eq/=; rewrite ?Hc; unfold size, Reset in *;
      cbn; lia.
  - intros state state' Hpass IH Hb. apply IH. revert Hpass.
    unfold GetChunkInternal_body.
    destruct (ProbeHashTable sink state) as [c st1] eqn:Hp.
    repeat case_match; intros; simplify_eq/=.
    match goal with H : (_ <=? _) = false |- _ => apply Nat.leb_gt in H; exact H end.
Qed.

(** *** C3: the chunk cache *)

(** C3.  With the cache compiled in ([STANDARD_VECTOR_SIZE >= 128]) and
    outside the empty-build shortcut, let [chunk] be the slice the probe
    produces in a pass.  A non-empty slice of fewer than 64 rows is appended to
    the cache, and the loop probes again unless the cache has reached
    [STANDARD_VECTOR_SIZE - 64] rows, in which case the cache is returned and
    cleared; a slice of at least 64 rows is returned as it is and the cache is
    not touched; when the probe side is exhausted (empty slice) a non-empty
    cache is returned and cleared.  A cache that holds fewer than
    [STANDARD_VECTOR_SIZE - 64] rows when the call starts does so again when
    the call ends, and in between it never holds more than
    [STANDARD_VECTOR_SIZE] rows. *)
Theorem GetChunkInternal_chunk_cache join_type sink state chunk state1 :
  128 <= STANDARD_VECTOR_SIZE ->
  empty_result_shortcut sink = false ->
  ProbeHashTable sink state = (chunk, state1) ->
  (0 < size chunk < SMALL_CHUNK ->
   size (Append (cached_chunk state) chunk) < STANDARD_VECTOR_SIZE - SMALL_CHUNK ->
   GetChunkInternal join_type sink state
   = GetChunkInternal join_type sink
       (set_cached_chunk state1 (Append (cached_chunk state) chunk))) /\
  (0 < size chunk < SMALL_CHUNK ->
   STANDARD_VECTOR_SIZE - SMALL_CHUNK <= size (Append (cached_chunk state) chunk) ->
   GetChunkInternal join_type sink state
   = (Append (cached_chunk state) chunk, (sink, set_cached_chunk state1 Reset))) /\
  (SMALL_CHUNK <= size chunk ->
   GetChunkInternal join_type sink state = (chunk, (sink, state1)) /\
   cached_chunk state1 = cached_chunk state) /\
  (size chunk = 0 -> 0 < size (cached_chunk state) ->
   GetChunkInternal join_type sink state
   = (cached_chunk state, (sink, set_cached_chunk state1 Reset))) /\
  (size (cached_chunk state) < STANDARD_VECTOR_SIZE - SMALL_CHUNK ->
   (size chunk < SMALL_CHUNK ->
    size (Append (cached_chunk state) chunk) <= STANDARD_VECTOR_SIZE) /\
   size (cached_chunk (snd (snd (GetChunkInternal join_type sink state))))
   < STANDARD_VECTOR_SIZE - SMALL_CHUNK).
Proof.
  intros HS Hs Hp. pose proof (caching_enabled_true HS) as Hc.
  unfold GetChunkInternal.
  rewrite (GetChunkInternal_with_eq _ join_type _ state Hs).
  split; [|split; [|split; [|split]]].
  - intros Hsz Hroom.
    rewrite (pass_small_again _ _ _ _ _ _ Hc Hp Hsz Hroom). reflexivity.
  - intros Hsz Hfull.
    rewrite (pass_small_flush _ _ _ _ _ _ Hc Hp Hsz Hfull). reflexivity.
  - intros Hsz. split; [|apply (ProbeHashTable_frame _ _ _ _ Hp)].
    rewrite (pass_large _ _ _ _ _ _ Hp); [reflexivity| |right; exact Hsz].
    unfold SMALL_CHUNK in Hsz. lia.
  - intros Hsz Hcache.
    rewrite (pass_exhausted_flush _ _ _ _ _ _ Hc Hp Hsz Hcache). reflexivity.
  - intros Hb. split.
    + intros Hsz. rewrite size_Append. unfold SMALL_CHUNK in *. lia.
    + rewrite <- (GetChunkInternal_with_eq _ join_type _ state Hs).
      apply GetChunkInternal_cache_bound. assumption.
Qed.

(** *** C5: the end of the probe side *)

Lemma ProbeHashTable_loop_exhausted sink state :
  pending (child_state state) = [] ->
  ProbeHashTable_loop sink state
  = (Reset, set_child state Reset
              {| pending := []; fetched := S (fetched (child_state state)) |}).
Proof.
  intros Hp. rewrite ProbeHashTable_loop_eq.
  unfold ProbeHashTable_body, child_GetChunk. rewrite Hp. reflexivity.
Qed.

Lemma ProbeHashTable_exhausted sink state :
  probe_exhausted state ->
  exists state1,
    ProbeHashTable sink state = (Reset, state1) /\
    cached_chunk state1 = cached_chunk state /\
    child_chunk state1 = Reset /\ pending (child_state state1) = [].
Proof.
  intros [Hp Hss]. unfold ProbeHashTable.
  destruct (scan_structure state) as [ss|] eqn:E.
  - destruct (0 <? size (child_chunk state)) eqn:Hcc.
    + apply Nat.ltb_lt in Hcc. destruct Hss as [Hss|Hss]; [lia|].
      destruct (Next ss _ _) as [chunk ss']. cbn [fst] in Hss. rewrite Hss. cbn.
      rewrite ProbeHashTable_loop_exhausted by exact Hp. eexists; repeat split.
    + rewrite ProbeHashTable_loop_exhausted by exact Hp. eexists; repeat split.
  - rewrite ProbeHashTable_loop_exhausted by exact Hp. eexists; repeat split.
Qed.

Lemma probe_exhausted_intro state :
  pending (child_state state) = [] -> child_chunk state = Reset ->
  probe_exhausted state.
Proof.
  intros Hp Hc. split; [exact Hp|]. destruct (scan_structure state); [|done].
  left. rewrite Hc. reflexivity.
Qed.

Lemma calls_exhausted_outer threshold sink state n :
  ht_join_type (hash_table sink) = OUTER ->
  probe_exhausted state -> size (cached_chunk state) = 0 ->
  exists state',
    calls threshold OUTER n sink state
    = (fst (ScanFullOuter_n n (hash_table sink) (ht_scan_state sink)),
       ({| hash_table := hash_table sink;
           ht_scan_state := snd (ScanFullOuter_n n (hash_table sink) (ht_scan_state sink)) |},
        state')) /\
    probe_exhausted state' /\ size (cached_chunk state') = 0.
Proof.
  intros Hjt. revert sink state Hjt.
  induction n as [|n IH]; intros sink state Hjt Hex Hcache.
  - exists state. destruct sink. done.
  - assert (Hs : empty_result_shortcut sink = false).
    { unfold empty_result_shortcut. rewrite Hjt. cbn. apply andb_false_r. }
    destruct (ProbeHashTable_exhausted sink state Hex) as (state1 & Hp & Hc1 & Hcc & Hpend).
    cbn [calls ScanFullOuter_n]. rewrite (GetChunkInternal_with_eq _ _ _ _ Hs).
    rewrite (pass_exhausted_empty_cache _ _ _ _ _ _ Hp eq_refl Hcache).
    rewrite bool_decide_eq_true_2 by reflexivity.
    destruct (ScanFullOuter (hash_table sink) (ht_scan_state sink)) as [chunk scan] eqn:Esc.
    cbn [fst snd].
    destruct (IH {| hash_table := hash_table sink; ht_scan_state := scan |} state1)
      as (state' & Hcalls & Hex' & Hcache'); [exact Hjt| |congruence|].
    { apply probe_exhausted_intro; assumption. }
    cbn [hash_table ht_scan_state] in Hcalls. rewrite Hcalls.
    destruct (ScanFullOuter_n n (hash_table sink) scan) as [chunks final].
    exists state'. done.
Qed.

Lemma calls_exhausted_other threshold join_type sink state n :
  join_type <> OUTER ->
  probe_exhausted state -> size (cached_chunk state) = 0 ->
  exists state',
    calls threshold join_type n sink state = (repeat Reset n, (sink, state')) /\
    probe_exhausted state' /\ size (cached_chunk state') = 0.
Proof.
  intros Hjt. revert state.
  induction n as [|n IH]; intros state Hex Hcache.
  - exists state. done.
  - cbn [calls]. destruct (empty_result_shortcut sink) eqn:Hs.
    + rewrite (GetChunkInternal_shortcut _ _ _ _ Hs).
      destruct (IH state Hex Hcache) as (state' & -> & H'). exists state'. done.
    + destruct (ProbeHashTable_exhausted sink state Hex)
        as (state1 & Hp & Hc1 & Hcc & Hpend).
      rewrite (GetChunkInternal_with_eq _ _ _ _ Hs).
      rewrite (pass_exhausted_empty_cache _ _ _ _ _ _ Hp eq_refl Hcache).
      rewrite bool_decide_eq_false_2 by exact Hjt.
      destruct (IH state1) as (state' & -> & H');
        [apply probe_exhausted_intro; assumption|congruence|].
      exists state'. done.
Qed.

Lemma ScanFullOuter_n_exhausted ht scan n :
  ScanFullOuter ht scan = (Reset, scan) ->
  ScanFullOuter_n n ht scan = (repeat Reset n, scan).
Proof.
  intros Hdone. induction n as [|n IH]; [reflexivity|].
  cbn [ScanFullOuter_n]. rewrite Hdone, IH. reflexivity.
Qed.

(** C5.  The probe side is exhausted.  (a) If the cache holds rows, the call
    returns them and clears the cache, and the probe side stays exhausted.
    (b) With an empty cache a full OUTER join scans the unmatched build rows:
    the calls return, one after the other, what successive [ScanFullOuter]
    calls on the shared cursor return, and the cursor advances accordingly;
    (c) once [ScanFullOuter] has nothing more to give and leaves the cursor in
    place, every call returns an empty chunk.  (d) For any other join type
    every call with an empty cache returns an empty chunk. *)
Theorem GetChunkInternal_end_of_probe join_type sink state :
  ht_join_type (hash_table sink) = join_type ->
  probe_exhausted state ->
  (caching_enabled = true -> empty_result_shortcut sink = false ->
   0 < size (cached_chunk state) ->
   exists state',
     GetChunkInternal join_type sink state = (cached_chunk state, (sink, state')) /\
     cached_chunk state' = Reset /\ probe_exhausted state') /\
  (join_type = OUTER -> size (cached_chunk state) = 0 ->
   forall n, exists state',
     calls SMALL_CHUNK join_type n sink state
     = (fst (ScanFullOuter_n n (hash_table sink) (ht_scan_state sink)),
        ({| hash_table := hash_table sink;
            ht_scan_state := snd (ScanFullOuter_n n (hash_table sink) (ht_scan_state sink)) |},
         state')) /\
     probe_exhausted state' /\ size (cached_chunk state') = 0) /\
  (join_type = OUTER -> size (cached_chunk state) = 0 ->
   ScanFullOuter (hash_table sink) (ht_scan_state sink) = (Reset, ht_scan_state sink) ->
   forall n, fst (calls SMALL_CHUNK join_type n sink state) = repeat Reset n) /\
  (join_type <> OUTER -> size (cached_chunk state) = 0 ->
   forall n, fst (calls SMALL_CHUNK join_type n sink state) = repeat Reset n).
Proof.
  intros Hjt Hex. split; [|split; [|split]].
  - intros Hc Hs Hcache.
    destruct (ProbeHashTable_exhausted sink state Hex) as (state1 & Hp & Hc1 & Hcc & Hpend).
    exists (set_cached_chunk state1 Reset). unfold GetChunkInternal.
    rewrite (GetChunkInternal_with_eq _ _ _ _ Hs).
    rewrite (pass_exhausted_flush _ _ _ _ _ _ Hc Hp eq_refl Hcache).
    split; [reflexivity|]. split; [reflexivity|].
    apply probe_exhausted_intro; assumption.
  - intros -> Hcache n. apply calls_exhausted_outer; assumption.
  - intros -> Hcache Hdone n.
    destruct (calls_exhausted_outer SMALL_CHUNK sink state n Hjt Hex Hcache)
      as (state' & -> & _).
    cbn [fst]. rewrite (ScanFullOuter_n_exhausted _ _ _ Hdone). reflexivity.
  - intros Hne Hcache n.
    destruct (calls_exhausted_other SMALL_CHUNK join_type sink state n Hne Hex Hcache)
      as (state' & -> & _).
    reflexivity.
Qed.

(** *** C4: a resumed scan structure *)

Lemma ProbeHashTable_resume sink state ss chunk ss' :
  scan_structure state = Some ss -> 0 < size (child_chunk state) ->
  Next ss (join_keys state) (child_chunk state) = (chunk, ss') ->
  0 < size chunk ->
  ProbeHashTable sink state = (chunk, set_scan_structure state (Some ss')).
Proof.
  intros Hss Hcc Hnext Hsz. unfold ProbeHashTable. rewrite Hss, Hnext.
  settle_tests. reflexivity.
Qed.

(** C4, as the code has it.  A live scan structure that is resumed and yields
    a non-empty slice makes [ProbeHashTable] return that slice unchanged,
    without a fetch from the child.  [GetChunkInternal] then treats it like any
    other slice: it is returned unchanged when it has at least 64 rows (or when
    the cache is compiled out); a smaller slice is appended to the cache, which
    is returned when it has become full, the loop probing again otherwise. *)
Theorem GetChunkInternal_resumed_slice join_type sink state ss chunk ss' :
  scan_structure state = Some ss -> 0 < size (child_chunk state) ->
  Next ss (join_keys state) (child_chunk state) = (chunk, ss') ->
  0 < size chunk ->
  ProbeHashTable sink state = (chunk, set_scan_structure state (Some ss')) /\
  (empty_result_shortcut sink = false ->
   (caching_enabled = false \/ SMALL_CHUNK <= size chunk ->
    GetChunkInternal join_type sink state
    = (chunk, (sink, set_scan_structure state (Some ss')))) /\
   (caching_enabled = true -> size chunk < SMALL_CHUNK ->
    (size (Append (cached_chunk state) chunk) < STANDARD_VECTOR_SIZE - SMALL_CHUNK ->
     GetChunkInternal join_type sink state
     = GetChunkInternal join_type sink
         (set_cached_chunk (set_scan_structure state (Some ss'))
            (Append (cached_chunk state) chunk))) /\
    (STANDARD_VECTOR_SIZE - SMALL_CHUNK <= size (Append (cached_chunk state) chunk) ->
     GetChunkInternal join_type sink state
     = (Append (cached_chunk state) chunk,
        (sink, set_cached_chunk (set_scan_structure state (Some ss')) Reset))))).
Proof.
  intros Hss Hcc Hnext Hsz.
  pose proof (ProbeHashTable_resume sink _ _ _ _ Hss Hcc Hnext Hsz) as Hp.
  split; [exact Hp|]. intros Hs. unfold GetChunkInternal.
  rewrite (GetChunkInternal_with_eq _ join_type _ state Hs). split.
  - intros Hlarge. rewrite (pass_large _ _ _ _ _ _ Hp Hsz Hlarge). reflexivity.
  - intros Hc Hsmall. split.
    + intros Hroom.
      rewrite (pass_small_again _ _ _ _ _ _ Hc Hp (conj Hsz Hsmall) Hroom).
      reflexivity.
    + intros Hfull.
      rewrite (pass_small_flush _ _ _ _ _ _ Hc Hp (conj Hsz Hsmall) Hfull).
      reflexivity.
Qed.

(** *** C7: the scan structure between calls *)

Lemma ProbeHashTable_body_valid sink state :
  scan_structure_valid (hash_table sink) state ->
  match ProbeHashTable_body sink state with
  | Return _ state' | Again state' => scan_structure_valid (hash_table sink) state'
  end.
Proof.
  intros [Hnil Hval]. unfold ProbeHashTable_body.
  destruct (child_GetChunk (child_state state)) as [c cs] eqn:Ec. cbn.
  destruct (size c =? 0) eqn:Hc.
  { apply Nat.eqb_eq in Hc. split; cbn; [done|]. intros; lia. }
  destruct (ht_size (hash_table sink) =? 0) eqn:Hsz.
  { apply Nat.eqb_eq in Hsz. split; cbn; [done|].
    intros ss Hss. rewrite (Hnil Hsz) in Hss. done. }
  apply Nat.eqb_neq in Hsz.
  destruct (Next _ _ _) as [chunk ss'] eqn:En.
  assert (scan_structure_valid (hash_table sink)
            (set_scan_structure (set_join_keys (set_child state c cs) (Execute c))
               (Some ss'))) as Hnew.
  { split; cbn; [done|]. intros ss [= <-] _. split; [reflexivity|].
    replace ss' with (snd (Next (Probe (hash_table sink) (Execute c)) (Execute c) c))
      by (rewrite En; reflexivity).
    constructor. }
  destruct (size chunk =? 0); exact Hnew.
Qed.

Lemma ProbeHashTable_loop_valid sink state :
  scan_structure_valid (hash_table sink) state ->
  scan_structure_valid (hash_table sink) (snd (ProbeHashTable_loop sink state)).
Proof.
  remember (length (pending (child_state state))) as m eqn:Hm.
  revert state Hm. induction m as [m IH] using lt_wf_ind. intros state -> Hv.
  rewrite ProbeHashTable_loop_eq.
  pose proof (ProbeHashTable_body_valid sink state Hv) as Hb.
  destruct (ProbeHashTable_body sink state) as [chunk st|st] eqn:E; [exact Hb|].
  apply (IH _ (ProbeHashTable_body_Again _ _ _ E)); done.
Qed.

Lemma ProbeHashTable_valid sink state :
  scan_structure_valid (hash_table sink) state ->
  scan_structure_valid (hash_table sink) (snd (ProbeHashTable sink state)).
Proof.
  intros Hv. unfold ProbeHashTable.
  destruct (scan_structure state) as [ss|] eqn:Ess;
    [|apply ProbeHashTable_loop_valid; exact Hv].
  destruct (0 <? size (child_chunk state)) eqn:Hcc;
    [|apply ProbeHashTable_loop_valid; exact Hv].
  apply Nat.ltb_lt in Hcc.
  destruct (Next ss _ _) as [chunk ss'] eqn:En.
  destruct (0 <? size chunk).
  - cbn. destruct Hv as [Hnil Hval]. split; cbn.
    + intros Hz. rewrite (Hnil Hz) in Ess. done.
    + intros ? [= <-] _. destruct (Hval ss Ess Hcc) as [Hk Hof]. split; [exact Hk|].
      replace ss' with (snd (Next ss (join_keys state) (child_chunk state)))
        by (rewrite En; reflexivity).
      constructor. exact Hof.
  - apply ProbeHashTable_loop_valid. split; cbn; [done|]. intros; done.
Qed.

Lemma GetChunkInternal_body_valid threshold join_type sink state :
  scan_structure_valid (hash_table sink) state ->
  match GetChunkInternal_body threshold join_type sink state with
  | Return _ (sink', state') | Again (sink', state') =>
      hash_table sink' = hash_table sink /\
      scan_structure_valid (hash_table sink) state'
  end.
Proof.
  intros Hv. unfold GetChunkInternal_body.
  pose proof (ProbeHashTable_valid sink state Hv) as Hp.
  destruct (ProbeHashTable sink state) as [chunk st]. cbn [snd] in Hp.
  repeat case_match; simplify_eq/=; done.
Qed.

Lemma GetChunkInternal_valid threshold join_type sink state :
  scan_structure_valid (hash_table sink) state ->
  hash_table (fst (snd (GetChunkInternal_with threshold join_type sink state)))
  = hash_table sink /\
  scan_structure_valid (hash_table sink)
    (snd (snd (GetChunkInternal_with threshold join_type sink state))).
Proof.
  destruct (empty_result_shortcut sink) eqn:Hs.
  { rewrite GetChunkInternal_shortcut by done. done. }
  revert state. apply (GetChunkInternal_with_ind threshold join_type sink
    (fun state r => scan_structure_valid (hash_table sink) state ->
       hash_table (fst (snd r)) = hash_table sink /\
       scan_structure_valid (hash_table sink) (snd (snd r))) Hs).
  - intros state chunk [sink' state'] E Hv.
    pose proof (GetChunkInternal_body_valid threshold join_type sink state Hv) as Hb.
    rewrite E in Hb. exact Hb.
  - intros state state' E IH Hv. apply IH.
    pose proof (GetChunkInternal_body_valid threshold join_type sink state Hv) as Hb.
    rewrite E in Hb. apply Hb.
Qed.

Lemma calls_valid threshold join_type n sink state :
  scan_structure_valid (hash_table sink) state ->
  hash_table (fst (snd (calls threshold join_type n sink state))) = hash_table sink /\
  scan_structure_valid (hash_table sink)
    (snd (snd (calls threshold join_type n sink state))).
Proof.
  revert sink state. induction n as [|n IH]; intros sink state Hv; [done|].
  cbn [calls].
  destruct (GetChunkInternal_valid threshold join_type sink state Hv) as [Hht Hv1].
  destruct (GetChunkInternal_with threshold join_type sink state) as [chunk [sink1 state1]].
  cbn [fst snd] in Hht, Hv1. rewrite <- Hht in Hv1.
  destruct (IH sink1 state1 Hv1) as [Hht' Hv'].
  destruct (calls threshold join_type n sink1 state1) as [chunks [sink2 state2]].
  cbn [fst snd] in *. rewrite Hht in *. done.
Qed.

(** C7, as the code has it.  Between calls (after any number of calls, from
    the state [GetOperatorState] creates) the scan structure is null over an
    empty table, and a scan structure that can be resumed is the one [Probe]
    created for the keys of the most recently fetched probe-side batch,
    advanced by the slices taken from it; nothing says that it has matches
    left.  A resume that yields an empty slice resets the pointer before the
    next batch is fetched: the call goes on as if there had been no scan
    structure, and leaves the pointer null when the child is exhausted. *)
Theorem scan_structure_between_calls join_type sink left n state ss :
  (let between := snd (snd (calls SMALL_CHUNK join_type n sink (GetOperatorState left))) in
   scan_structure_valid (hash_table sink) between) /\
  (scan_structure state = Some ss -> 0 < size (child_chunk state) ->
   size (fst (Next ss (join_keys state) (child_chunk state))) = 0 ->
   ProbeHashTable sink state = ProbeHashTable_loop sink (set_scan_structure state None) /\
   (pending (child_state state) = [] ->
    scan_structure (snd (ProbeHashTable sink state)) = None)).
Proof.
  split.
  - apply calls_valid. split; cbn; [done|]. intros; done.
  - intros Hss Hcc Hnext.
    assert (ProbeHashTable sink state
            = ProbeHashTable_loop sink (set_scan_structure state None)) as Hp.
    { unfold ProbeHashTable. rewrite Hss.
      destruct (Next ss _ _) as [chunk ss']. cbn [fst] in Hnext. rewrite Hnext.
      settle_tests. reflexivity. }
    split; [exact Hp|]. intros Hpend. rewrite Hp.
    rewrite ProbeHashTable_loop_exhausted by exact Hpend. reflexivity.
Qed.

(** *** C2: the cache and the rows *)

(** [ProbeHashTable] neither reads nor writes the cache. *)
Lemma ProbeHashTable_body_cached sink state cache :
  ProbeHashTable_body sink (set_cached_chunk state cache)
  = match ProbeHashTable_body sink state with
    | Return chunk st => Return chunk (set_cached_chunk st cache)
    | Again st => Again (set_cached_chunk st cache)
    end.
Proof.
  unfold ProbeHashTable_body. cbn [set_cached_chunk child_state].
  destruct (child_GetChunk (child_state state)) as [c cs]. cbn.
  repeat case_match; simplify_eq/=; reflexivity.
Qed.

Lemma ProbeHashTable_loop_cached sink state cache :
  ProbeHashTable_loop sink (set_cached_chunk state cache)
  = (fst (ProbeHashTable_loop sink state),
     set_cached_chunk (snd (ProbeHashTable_loop sink state)) cache).
Proof.
  remember (length (pending (child_state state))) as m eqn:Hm.
  revert state Hm. induction m as [m IH] using lt_wf_ind. intros state ->.
  rewrite (ProbeHashTable_loop_eq sink state), (ProbeHashTable_loop_eq sink (set_cached_chunk _ _)).
  rewrite ProbeHashTable_body_cached.
  destruct (ProbeHashTable_body sink state) as [chunk st|st] eqn:E; [reflexivity|].
  apply (IH _ (ProbeHashTable_body_Again _ _ _ E)). reflexivity.
Qed.

Lemma ProbeHashTable_cached sink state cache chunk state1 :
  ProbeHashTable sink state = (chunk, state1) ->
  ProbeHashTable sink (set_cached_chunk state cache) = (chunk, set_cached_chunk state1 cache).
Proof.
  unfold ProbeHashTable. cbn [set_cached_chunk scan_structure child_chunk join_keys].
  destruct (scan_structure state) as [ss|].
  - destruct (0 <? size (child_chunk state)).
    + destruct (Next ss _ _) as [c ss']. destruct (0 <? size c).
      * intros [= <- <-]. reflexivity.
      * intros Hl. change (set_scan_structure (set_cached_chunk state cache) None)
          with (set_cached_chunk (set_scan_structure state None) cache).
        rewrite ProbeHashTable_loop_cached, Hl. reflexivity.
    + intros Hl. rewrite ProbeHashTable_loop_cached, Hl. reflexivity.
  - intros Hl. rewrite ProbeHashTable_loop_cached, Hl. reflexivity.
Qed.

(** An empty slice from [ProbeHashTable] means that the child is exhausted. *)
Lemma ProbeHashTable_loop_empty sink state chunk state1 :
  empty_result_shortcut sink = false -> empty_build_keeps_rows sink ->
  delivers_rows state ->
  ProbeHashTable_loop sink state = (chunk, state1) ->
  delivers_rows state1 /\
  (size chunk = 0 -> pending (child_state state1) = [] /\ child_chunk state1 = Reset).
Proof.
  intros Hs Hkeep.
  remember (length (pending (child_state state))) as m eqn:Hm.
  revert state Hm. induction m as [m IH] using lt_wf_ind. intros state -> Hd.
  rewrite ProbeHashTable_loop_eq.
  destruct (ProbeHashTable_body sink state) as [c st|st] eqn:E.
  - intros [= <- <-]. revert E. unfold ProbeHashTable_body, child_GetChunk.
    unfold delivers_rows in *.
    destruct (pending (child_state state)) as [|b rest] eqn:Ep; cbn.
    + change (size Reset) with 0. cbn. intros [= <- <-]. cbn. done.
    + apply Forall_cons in Hd as [Hb Hrest].
      rewrite (proj2 (Nat.eqb_neq (size b) 0)) by lia.
      destruct (ht_size (hash_table sink) =? 0) eqn:Hz.
      * apply Nat.eqb_eq in Hz. intros [= <- <-]. cbn. split; [exact Hrest|].
        pose proof (Hkeep Hs Hz b Hb). lia.
      * destruct (Next _ _ _) as [c' ss']. destruct (size c' =? 0) eqn:Hc'; [done|].
        apply Nat.eqb_neq in Hc'. intros [= <- <-]. cbn. split; [exact Hrest|lia].
  - intros Hl. apply (IH _ (ProbeHashTable_body_Again _ _ _ E) st eq_refl); [|exact Hl].
    revert E. unfold ProbeHashTable_body, child_GetChunk. unfold delivers_rows in *.
    destruct (pending (child_state state)) as [|b rest] eqn:Ep; cbn; [done|].
    apply Forall_cons in Hd as [Hb Hrest].
    repeat case_match; intros; simplify_eq/=; exact Hrest.
Qed.

Lemma ProbeHashTable_empty sink state chunk state1 :
  empty_result_shortcut sink = false -> empty_build_keeps_rows sink ->
  delivers_rows state ->
  ProbeHashTable sink state = (chunk, state1) ->
  delivers_rows state1 /\ (size chunk = 0 -> probe_exhausted state1).
Proof.
  intros Hs Hkeep Hd Hp.
  enough (delivers_rows state1 /\
          (size chunk = 0 -> pending (child_state state1) = [] /\ child_chunk state1 = Reset))
    as [H1 H2].
  { split; [exact H1|]. intros Hz. destruct (H2 Hz). by apply probe_exhausted_intro. }
  revert Hp. unfold ProbeHashTable.
  destruct (scan_structure state) as [ss|];
    [|apply ProbeHashTable_loop_empty; assumption].
  destruct (0 <? size (child_chunk state));
    [|apply ProbeHashTable_loop_empty; assumption].
  destruct (Next ss _ _) as [c ss']. destruct (0 <? size c) eqn:Hc.
  - apply Nat.ltb_lt in Hc. intros [= <- <-]. split; [exact Hd|lia].
  - apply ProbeHashTable_loop_empty; assumption.
Qed.

Lemma empty_result_shortcut_ht sink sink' :
  hash_table sink' = hash_table sink ->
  empty_result_shortcut sink' = empty_result_shortcut sink.
Proof. unfold empty_result_shortcut. intros ->. reflexivity. Qed.

Lemma empty_build_keeps_rows_ht sink sink' :
  hash_table sink' = hash_table sink ->
  empty_build_keeps_rows sink -> empty_build_keeps_rows sink'.
Proof.
  unfold empty_build_keeps_rows. intros Hht Hk.
  rewrite (empty_result_shortcut_ht _ _ Hht), Hht. exact Hk.
Qed.

(** With the threshold 0 nothing is ever cached: each call returns the slice
    of one [ProbeHashTable] call. *)
Lemma unbatched_slice join_type sink state chunk state1 :
  empty_result_shortcut sink = false ->
  ProbeHashTable sink state = (chunk, state1) -> 0 < size chunk ->
  GetChunkInternal_with 0 join_type sink (set_cached_chunk state Reset)
  = (chunk, (sink, set_cached_chunk state1 Reset)).
Proof.
  intros Hs Hp Hsz. rewrite (GetChunkInternal_with_eq _ _ _ _ Hs).
  rewrite (pass_large 0 join_type sink _ chunk (set_cached_chunk state1 Reset));
    [reflexivity|by apply ProbeHashTable_cached|exact Hsz|right; lia].
Qed.

Lemma unbatched_end join_type sink state chunk state1 :
  empty_result_shortcut sink = false ->
  ProbeHashTable sink state = (chunk, state1) -> size chunk = 0 ->
  GetChunkInternal_with 0 join_type sink (set_cached_chunk state Reset)
  = if bool_decide (join_type = OUTER) then
      (fst (ScanFullOuter (hash_table sink) (ht_scan_state sink)),
       ({| hash_table := hash_table sink;
           ht_scan_state := snd (ScanFullOuter (hash_table sink) (ht_scan_state sink)) |},
        set_cached_chunk state1 Reset))
    else (Reset, (sink, set_cached_chunk state1 Reset)).
Proof.
  intros Hs Hp Hsz. rewrite (GetChunkInternal_with_eq _ _ _ _ Hs).
  rewrite (pass_exhausted_empty_cache 0 join_type sink _ chunk (set_cached_chunk state1 Reset));
    [|by apply ProbeHashTable_cached|exact Hsz|reflexivity].
  destruct (bool_decide (join_type = OUTER)); reflexivity.
Qed.

Lemma drain_mono threshold join_type n m sink state rows :
  drain threshold join_type n sink state = Some rows -> n <= m ->
  drain threshold join_type m sink state = Some rows.
Proof.
  revert m sink state rows. induction n as [|n IH]; intros m sink state rows; [done|].
  destruct m as [|m]; [lia|]. cbn [drain].
  destruct (GetChunkInternal_with threshold join_type sink state) as [chunk [sink' state']].
  destruct (size chunk =? 0); [done|].
  destruct (drain threshold join_type n sink' state') as [rows'|] eqn:E; [|done].
  intros Heq Hle. rewrite (IH m _ _ _ E) by lia. exact Heq.
Qed.

Lemma drain_deterministic threshold join_type n m sink state rows rows' :
  drain threshold join_type n sink state = Some rows ->
  drain threshold join_type m sink state = Some rows' ->
  rows = rows'.
Proof.
  intros H1 H2.
  apply (drain_mono _ _ _ (Nat.max n m)) in H1; [|lia].
  apply (drain_mono _ _ _ (Nat.max n m)) in H2; [|lia].
  congruence.
Qed.

(** Once the probe side is exhausted and the cache is empty, what remains of
    the stream depends on the sink state alone. *)
Lemma unbatched_exhausted join_type m sink state1 state2 :
  probe_exhausted state1 -> probe_exhausted state2 ->
  size (cached_chunk state1) = 0 -> size (cached_chunk state2) = 0 ->
  drain 0 join_type m sink state1 = drain 0 join_type m sink state2.
Proof.
  revert sink state1 state2.
  induction m as [|m IH]; intros sink state1 state2 Hex1 Hex2 Hc1 Hc2; [reflexivity|].
  cbn [drain]. destruct (empty_result_shortcut sink) eqn:Hs.
  { rewrite !(GetChunkInternal_shortcut _ _ _ _ Hs). reflexivity. }
  destruct (ProbeHashTable_exhausted sink state1 Hex1) as (s1 & Hp1 & Hf1 & Hcc1 & Hpend1).
  destruct (ProbeHashTable_exhausted sink state2 Hex2) as (s2 & Hp2 & Hf2 & Hcc2 & Hpend2).
  rewrite !(GetChunkInternal_with_eq _ _ _ _ Hs).
  rewrite (pass_exhausted_empty_cache _ _ _ _ _ _ Hp1 eq_refl Hc1).
  rewrite (pass_exhausted_empty_cache _ _ _ _ _ _ Hp2 eq_refl Hc2).
  destruct (bool_decide (join_type = OUTER)).
  - destruct (size _ =? 0); [reflexivity|]. f_equal.
    apply IH; [by apply probe_exhausted_intro..|congruence|congruence].
  - reflexivity.
Qed.

Lemma probe_exhausted_cached state cache :
  probe_exhausted (set_cached_chunk state cache) <-> probe_exhausted state.
Proof. reflexivity. Qed.

Lemma unbatched_after_empty_probe join_type m sink state chunk state1 :
  ProbeHashTable sink state = (chunk, state1) -> size chunk = 0 ->
  probe_exhausted state1 ->
  drain 0 join_type m sink (set_cached_chunk state Reset)
  = drain 0 join_type m sink (set_cached_chunk state1 Reset).
Proof.
  intros Hp Hz Hex. destruct m as [|m]; [reflexivity|]. cbn [drain].
  destruct (empty_result_shortcut sink) eqn:Hs.
  { rewrite !(GetChunkInternal_shortcut _ _ _ _ Hs). reflexivity. }
  rewrite (unbatched_end _ _ _ _ _ Hs Hp Hz).
  destruct (ProbeHashTable_exhausted sink (set_cached_chunk state1 Reset))
    as (s2 & Hp2 & Hf2 & Hcc2 & Hpend2); [by apply probe_exhausted_cached|].
  rewrite (GetChunkInternal_with_eq _ _ _ (set_cached_chunk state1 Reset) Hs).
  rewrite (pass_exhausted_empty_cache _ _ _ _ _ _ Hp2 eq_refl eq_refl).
  destruct (bool_decide (join_type = OUTER)); [|reflexivity].
  destruct (size _ =? 0); [reflexivity|]. f_equal.
  apply unbatched_exhausted;
    [by apply probe_exhausted_cached|by apply probe_exhausted_intro|reflexivity|].
  rewrite Hf2. reflexivity.
Qed.

(** One call with the cache corresponds to one or more calls without it: the
    rows it returns and those it leaves in the cache are the rows that were in
    the cache and the slices of the unbatched calls. *)
Lemma call_regroups threshold join_type sink :
  empty_result_shortcut sink = false -> empty_build_keeps_rows sink ->
  forall state chunk sink' state',
    delivers_rows state ->
    caching_enabled = true \/ size (cached_chunk state) = 0 ->
    GetChunkInternal_with threshold join_type sink state = (chunk, (sink', state')) ->
    hash_table sink' = hash_table sink /\
    delivers_rows state' /\
    (caching_enabled = true \/ size (cached_chunk state') = 0) /\
    (size chunk = 0 ->
     size (cached_chunk state) = 0 /\
     drain 0 join_type 1 sink (set_cached_chunk state Reset) = Some []) /\
    (0 < size chunk ->
     forall m rest,
       drain 0 join_type m sink' (set_cached_chunk state' Reset) = Some rest ->
       exists m0 rows0,
         drain 0 join_type m0 sink (set_cached_chunk state Reset) = Some rows0 /\
         Permutation (chunk ++ cached_chunk state' ++ rest) (cached_chunk state ++ rows0)).
Proof.
  intros Hs Hkeep state.
  remember (GetChunkInternal_measure threshold state) as k eqn:Hk.
  revert state Hk. induction k as [k IH] using lt_wf_ind.
  intros state -> chunk sink' state' Hd Hcache.
  rewrite (GetChunkInternal_with_eq _ _ _ _ Hs).
  destruct (ProbeHashTable sink state) as [c st1] eqn:Hp.
  destruct (ProbeHashTable_frame _ _ _ _ Hp) as [Hf _].
  destruct (ProbeHashTable_empty _ _ _ _ Hs Hkeep Hd Hp) as [Hd1 Hex].
  destruct (Nat.eq_dec (size c) 0) as [Hz|Hnz].
  - (* the probe side is exhausted *)
    specialize (Hex Hz).
    destruct (Nat.eq_dec (size (cached_chunk state)) 0) as [Hc0|Hc0].
    + rewrite (pass_exhausted_empty_cache _ _ _ _ _ _ Hp Hz Hc0).
      destruct (bool_decide (join_type = OUTER)) eqn:Ho.
      * intros [= <- <- <-]. cbn [hash_table].
        split; [reflexivity|]. split; [exact Hd1|]. split; [right; congruence|].
        split.
        -- intros Hout. split; [exact Hc0|]. cbn [drain].
           rewrite (unbatched_end _ _ _ _ _ Hs Hp Hz), Ho.
           rewrite (proj2 (Nat.eqb_eq _ _) Hout). reflexivity.
        -- intros Hout m rest Hrest. exists (S m). eexists. split.
           ++ cbn [drain]. rewrite (unbatched_end _ _ _ _ _ Hs Hp Hz), Ho.
              rewrite (proj2 (Nat.eqb_neq _ _)) by lia. rewrite Hrest. reflexivity.
           ++ apply size_0 in Hc0. rewrite Hf, Hc0. reflexivity.
      * intros [= <- <- <-].
        split; [reflexivity|]. split; [exact Hd1|]. split; [right; congruence|].
        split.
        -- intros _. split; [exact Hc0|]. cbn [drain].
           rewrite (unbatched_end _ _ _ _ _ Hs Hp Hz), Ho. reflexivity.
        -- intros Hout. change (size Reset) with 0 in Hout. lia.
    + destruct Hcache as [Hon|Hoff]; [|lia].
      rewrite (pass_exhausted_flush _ _ _ _ _ _ Hon Hp Hz) by lia.
      intros [= <- <- <-].
      split; [reflexivity|]. split; [exact Hd1|]. split; [left; exact Hon|].
      split; [intros; lia|].
      intros _ m rest Hrest. exists m, rest. split.
      * rewrite (unbatched_after_empty_probe _ _ _ _ _ _ Hp Hz Hex). exact Hrest.
      * reflexivity.
  - (* the probe produced a slice *)
    clear Hex.
    destruct (decide (caching_enabled = true)) as [Hon|Hoff%not_true_is_false]; cycle 1.
    { rewrite (pass_large _ _ _ _ _ _ Hp) by (lia || (left; exact Hoff)).
      intros [= <- <- <-].
      split; [reflexivity|]. split; [exact Hd1|]. split; [right; destruct Hcache; congruence|].
      split; [intros; lia|].
      intros _ m rest Hrest. exists (S m). eexists. split.
      - cbn [drain]. rewrite (unbatched_slice _ _ _ _ _ Hs Hp) by lia.
        rewrite (proj2 (Nat.eqb_neq _ _)) by lia. rewrite Hrest. reflexivity.
      - rewrite Hf. apply Permutation_app_swap_app. }
    destruct (le_lt_dec threshold (size c)) as [Hlarge|Hsmall].
    { rewrite (pass_large _ _ _ _ _ _ Hp) by (lia || (right; exact Hlarge)).
      intros [= <- <- <-].
      split; [reflexivity|]. split; [exact Hd1|]. split; [left; exact Hon|].
      split; [intros; lia|].
      intros _ m rest Hrest. exists (S m). eexists. split.
      - cbn [drain]. rewrite (unbatched_slice _ _ _ _ _ Hs Hp) by lia.
        rewrite (proj2 (Nat.eqb_neq _ _)) by lia. rewrite Hrest. reflexivity.
      - rewrite Hf. apply Permutation_app_swap_app. }
    destruct (le_lt_dec (STANDARD_VECTOR_SIZE - threshold)
                (size (Append (cached_chunk state) c))) as [Hfull|Hroom].
    { rewrite (pass_small_flush _ _ _ _ _ _ Hon Hp) by lia.
      intros [= <- <- <-].
      split; [reflexivity|]. split; [exact Hd1|]. split; [left; exact Hon|].
      split; [rewrite size_Append; intros; lia|].
      intros _ m rest Hrest. exists (S m). eexists. split.
      - cbn [drain]. rewrite (unbatched_slice _ _ _ _ _ Hs Hp) by lia.
        rewrite (proj2 (Nat.eqb_neq _ _)) by lia.
        change (set_cached_chunk (set_cached_chunk st1 Reset) Reset)
          with (set_cached_chunk st1 Reset) in Hrest.
        rewrite Hrest. reflexivity.
      - unfold Append. cbn. rewrite <- app_assoc. reflexivity. }
    pose proof (pass_small_again threshold join_type _ _ _ _ Hon Hp
                  (conj (proj1 (Nat.neq_0_lt_0 _) Hnz) Hsmall) Hroom) as Hpass.
    rewrite Hpass. intros Hcall.
    destruct (GetChunkInternal_body_Again _ _ _ _ _ _ Hpass) as [_ Hlt].
    destruct (IH _ Hlt _ eq_refl chunk sink' state') as (Hht & Hd' & Hc' & Hend & Hmore);
      [exact Hd1|left; exact Hon|exact Hcall|].
    split; [exact Hht|]. split; [exact Hd'|]. split; [exact Hc'|]. split.
    + intros Hout. destruct (Hend Hout) as [Habs _]. cbn in Habs.
      rewrite size_Append in Habs. lia.
    + intros Hout m rest Hrest.
      destruct (Hmore Hout m rest Hrest) as (m1 & rows1 & Hdrain1 & Hperm1).
      exists (S m1). eexists. split.
      * cbn [drain]. rewrite (unbatched_slice _ _ _ _ _ Hs Hp) by lia.
        rewrite (proj2 (Nat.eqb_neq _ _)) by lia.
        change (set_cached_chunk (set_cached_chunk st1 _) Reset)
          with (set_cached_chunk st1 Reset) in Hdrain1.
        rewrite Hdrain1. reflexivity.
      * rewrite Hperm1. cbn. unfold Append. rewrite <- app_assoc. reflexivity.
Qed.

(** Draining with the cache returns, up to the order, the rows that were in
    the cache and the rows that draining without it returns. *)
Lemma drain_regroups threshold join_type n :
  forall sink state rows,
    empty_result_shortcut sink = false -> empty_build_keeps_rows sink ->
    delivers_rows state ->
    caching_enabled = true \/ size (cached_chunk state) = 0 ->
    drain threshold join_type n sink state = Some rows ->
    exists m rows0,
      drain 0 join_type m sink (set_cached_chunk state Reset) = Some rows0 /\
      Permutation rows (cached_chunk state ++ rows0).
Proof.
  induction n as [|n IH]; intros sink state rows Hs Hkeep Hd Hcache; [done|].
  cbn [drain].
  destruct (GetChunkInternal_with threshold join_type sink state)
    as [chunk [sink' state']] eqn:Hcall.
  destruct (call_regroups threshold join_type sink Hs Hkeep _ _ _ _ Hd Hcache Hcall)
    as (Hht & Hd' & Hc' & Hend & Hmore).
  destruct (size chunk =? 0) eqn:Hz.
  - apply Nat.eqb_eq in Hz. intros [= <-]. destruct (Hend Hz) as [Hc0 Hdrain].
    exists 1, []. split; [exact Hdrain|]. apply size_0 in Hc0. rewrite Hc0. reflexivity.
  - apply Nat.eqb_neq in Hz.
    destruct (drain threshold join_type n sink' state') as [rows'|] eqn:Hrest; [|done].
    intros [= <-].
    destruct (IH sink' state' rows') as (m' & rest & Hdrain' & Hperm'); try assumption.
    { rewrite (empty_result_shortcut_ht _ _ Hht). exact Hs. }
    { exact (empty_build_keeps_rows_ht _ _ Hht Hkeep). }
    destruct (Hmore (proj1 (Nat.neq_0_lt_0 _) Hz) m' rest Hdrain')
      as (m0 & rows0 & Hdrain0 & Hperm0).
    exists m0, rows0. split; [exact Hdrain0|].
    rewrite Hperm'. exact Hperm0.
Qed.

(** C2, as the code has it.  Let the child deliver non-empty batches until it
    is exhausted, let the result for a non-empty batch over an empty build side
    be non-empty, and let the cache be empty to begin with.  Then the rows
    returned until the first empty chunk are the same multiset for every two
    thresholds: the cache moves the boundaries between the chunks and may
    change the order in which the slices reach the caller, but it never loses
    or repeats a row. *)
Theorem drain_threshold_independent threshold1 threshold2 join_type n1 n2
    sink state rows1 rows2 :
  delivers_rows state -> empty_build_keeps_rows sink ->
  size (cached_chunk state) = 0 ->
  drain threshold1 join_type n1 sink state = Some rows1 ->
  drain threshold2 join_type n2 sink state = Some rows2 ->
  Permutation rows1 rows2.
Proof.
  intros Hd Hkeep Hc0 H1 H2.
  destruct (empty_result_shortcut sink) eqn:Hs.
  - destruct n1 as [|n1]; [done|]. destruct n2 as [|n2]; [done|].
    cbn [drain] in H1, H2.
    rewrite (GetChunkInternal_shortcut _ _ _ _ Hs) in H1.
    rewrite (GetChunkInternal_shortcut _ _ _ _ Hs) in H2.
    change (size Reset =? 0) with true in H1, H2. cbn in H1, H2.
    injection H1 as <-. injection H2 as <-. reflexivity.
  - destruct (drain_regroups _ _ _ _ _ _ Hs Hkeep Hd (or_intror Hc0) H1)
      as (m1 & r1 & Hr1 & Hp1).
    destruct (drain_regroups _ _ _ _ _ _ Hs Hkeep Hd (or_intror Hc0) H2)
      as (m2 & r2 & Hr2 & Hp2).
    rewrite (drain_deterministic _ _ _ _ _ _ _ _ Hr1 Hr2) in Hp1.
    rewrite Hp1, Hp2. reflexivity.
Qed.

(** *** The stream ends *)

Section Termination.
Variable cursor_rank : ScanStructure -> nat.
Variable scan_rank : JoinHTScanState -> nat.
Variable ht : JoinHashTable.
Hypothesis cursor_rank_decreases :
  forall ss keys left,
    0 < size (fst (Next ss keys left)) ->
    cursor_rank (snd (Next ss keys left)) < cursor_rank ss.
Hypothesis scan_rank_decreases :
  forall scan,
    0 < size (fst (ScanFullOuter ht scan)) ->
    scan_rank (snd (ScanFullOuter ht scan)) < scan_rank scan.

(** What is left to do: the batches of the child, the slices of the scan
    structure that can be resumed, the cache to flush, the unmatched rows. *)
Definition left_batches (state : PhysicalHashJoinState) : nat :=
  length (pending (child_state state)).

Definition left_slices (state : PhysicalHashJoinState) : nat :=
  match scan_structure state with
  | Some ss => if 0 <? size (child_chunk state) then cursor_rank ss else 0
  | None => 0
  end.

Definition left_cache (state : PhysicalHashJoinState) : nat :=
  if 0 <? size (cached_chunk state) then 1 else 0.

Lemma left_batches_cached state cache :
  left_batches (set_cached_chunk state cache) = left_batches state.
Proof. reflexivity. Qed.

Lemma left_slices_cached state cache :
  left_slices (set_cached_chunk state cache) = left_slices state.
Proof. reflexivity. Qed.

Lemma ProbeHashTable_loop_progress sink state chunk state1 :
  ProbeHashTable_loop sink state = (chunk, state1) ->
  left_batches state1 < left_batches state \/
  (left_batches state1 = left_batches state /\ size chunk = 0 /\ left_slices state1 = 0).
Proof.
  rewrite ProbeHashTable_loop_eq. unfold left_batches.
  destruct (ProbeHashTable_body sink state) as [c st|st] eqn:E.
  - intros [= <- <-]. revert E. unfold ProbeHashTable_body, child_GetChunk.
    destruct (pending (child_state state)) as [|b rest]; cbn.
    + change (size Reset) with 0. cbn. intros [= <- <-]. right.
      split; [reflexivity|]. split; [reflexivity|].
      unfold left_slices. cbn. destruct (scan_structure state); reflexivity.
    + repeat case_match; intros; simplify_eq/=; left; lia.
  - intros Hl. left. apply ProbeHashTable_loop_frame in Hl as [_ Hle].
    pose proof (ProbeHashTable_body_Again _ _ _ E). lia.
Qed.

Lemma ProbeHashTable_progress sink state chunk state1 :
  ProbeHashTable sink state = (chunk, state1) ->
  left_batches state1 < left_batches state \/
  (left_batches state1 = left_batches state /\
   ((0 < size chunk /\ left_slices state1 < left_slices state) \/
    (size chunk = 0 /\ left_slices state1 = 0))).
Proof.
  pose proof (ProbeHashTable_loop_progress sink state chunk state1) as Hplain.
  pose proof (ProbeHashTable_loop_progress sink (set_scan_structure state None)
                chunk state1) as Hreset.
  unfold ProbeHashTable, left_slices at 2.
  destruct (scan_structure state) as [ss|]; [|intros H; specialize (Hplain H); lia].
  destruct (0 <? size (child_chunk state)) eqn:Hcc;
    [|intros H; specialize (Hplain H); lia].
  pose proof (cursor_rank_decreases ss (join_keys state) (child_chunk state)) as Hdec.
  destruct (Next ss _ _) as [c ss']. cbn [fst snd] in Hdec.
  destruct (0 <? size c) eqn:Hc.
  - apply Nat.ltb_lt in Hc. intros [= <- <-]. right. split; [reflexivity|]. left.
    split; [exact Hc|]. unfold left_slices.
    cbn [set_scan_structure scan_structure child_chunk]. rewrite Hcc. exact (Hdec Hc).
  - intros H. specialize (Hreset H). unfold left_batches in *. cbn in Hreset. lia.
Qed.

(** A call that returns rows has made progress. *)
Lemma call_progress threshold join_type sink state :
  hash_table sink = ht ->
  let r := GetChunkInternal_with threshold join_type sink state in
  hash_table (fst (snd r)) = ht /\
  (0 < size (fst r) ->
   left_batches (snd (snd r)) < left_batches state \/
   (left_batches (snd (snd r)) = left_batches state /\
    (left_slices (snd (snd r)) < left_slices state \/
     (left_slices (snd (snd r)) <= left_slices state /\
      (left_cache (snd (snd r)) < left_cache state \/
       (left_cache (snd (snd r)) = left_cache state /\
        scan_rank (ht_scan_state (fst (snd r))) < scan_rank (ht_scan_state sink))))))).
Proof.
  intros Hht. cbv zeta. destruct (empty_result_shortcut sink) eqn:Hs.
  { rewrite GetChunkInternal_shortcut by done. cbn. split; [exact Hht|].
    change (size Reset) with 0. lia. }
  revert state. apply (GetChunkInternal_with_ind threshold join_type sink
    (fun state r =>
       hash_table (fst (snd r)) = ht /\
       (0 < size (fst r) ->
        left_batches (snd (snd r)) < left_batches state \/
        (left_batches (snd (snd r)) = left_batches state /\
         (left_slices (snd (snd r)) < left_slices state \/
          (left_slices (snd (snd r)) <= left_slices state /\
           (left_cache (snd (snd r)) < left_cache state \/
            (left_cache (snd (snd r)) = left_cache state /\
             scan_rank (ht_scan_state (fst (snd r)))
             < scan_rank (ht_scan_state sink)))))))) Hs).
  - intros state chunk [sink' state']. unfold GetChunkInternal_body.
    destruct (ProbeHashTable sink state) as [c st1] eqn:Hp.
    pose proof (ProbeHashTable_progress _ _ _ _ Hp) as Hprog.
    destruct (ProbeHashTable_frame _ _ _ _ Hp) as [Hf _].
    pose proof (scan_rank_decreases (ht_scan_state sink)) as Hscan.
    rewrite <- Hht in Hscan.
    assert (left_cache st1 = left_cache state) as Hcache
      by (unfold left_cache; rewrite Hf; reflexivity).
    destruct (ScanFullOuter (hash_table sink) (ht_scan_state sink)) as [o scan'].
    cbn [fst snd] in Hscan.
    assert (forall st, left_cache (set_cached_chunk st Reset) = 0) as Hflushed
      by reflexivity.
    repeat case_match; intros; simplify_eq/=; (split; [reflexivity|]);
      rewrite ?Hflushed, ?left_batches_cached, ?left_slices_cached;
      repeat match goal with
        | H : (_ =? _) = true |- _ => apply Nat.eqb_eq in H
        | H : (_ =? _) = false |- _ => apply Nat.eqb_neq in H
        | H : (_ <? _) = true |- _ => apply Nat.ltb_lt in H
        | H : (_ <? _) = false |- _ => apply Nat.ltb_ge in H
        | H : (_ && _) = true |- _ => apply andb_true_iff in H as [? ?]
        end;
      try (change (size Reset) with 0);
      try (assert (left_cache state = 1)
             by (unfold left_cache; rewrite <- Hf;
                 rewrite (proj2 (Nat.ltb_lt _ _)) by assumption; reflexivity));
      intros; try lia.
  - intros state state' Hpass [IHht IH]. split; [exact IHht|]. intros Hout.
    specialize (IH Hout). revert Hpass. unfold GetChunkInternal_body.
    destruct (ProbeHashTable sink state) as [c st1] eqn:Hp.
    pose proof (ProbeHashTable_progress _ _ _ _ Hp) as Hprog.
    repeat case_match; intros; simplify_eq/=.
    rewrite ?left_batches_cached, ?left_slices_cached in IH.
    repeat match goal with
      | H : (_ =? _) = false |- _ => apply Nat.eqb_neq in H
      end.
    lia.
Qed.

Lemma drain_ends_ranked threshold join_type sink state :
  hash_table sink = ht ->
  exists n rows, drain threshold join_type n sink state = Some rows.
Proof.
  remember (left_batches state) as b eqn:Hb.
  remember (left_slices state) as k eqn:Hk.
  remember (left_cache state) as c eqn:Hc.
  remember (scan_rank (ht_scan_state sink)) as v eqn:Hv.
  revert k c v sink state Hb Hk Hc Hv.
  induction b as [b IHb] using lt_wf_ind. intros k.
  induction k as [k IHk] using lt_wf_ind. intros c.
  induction c as [c IHc] using lt_wf_ind. intros v.
  induction v as [v IHv] using lt_wf_ind.
  intros sink state -> -> -> -> Hht.
  destruct (call_progress threshold join_type sink state Hht) as [Hht' Hprog].
  destruct (GetChunkInternal_with threshold join_type sink state)
    as [chunk [sink' state']] eqn:Hcall.
  cbn [fst snd] in Hht', Hprog.
  destruct (Nat.eq_dec (size chunk) 0) as [Hz|Hnz].
  { exists 1, []. cbn [drain]. rewrite Hcall, (proj2 (Nat.eqb_eq _ _) Hz). reflexivity. }
  assert (exists n rows, drain threshold join_type n sink' state' = Some rows)
    as (n & rows & Hdrain).
  { specialize (Hprog (proj1 (Nat.neq_0_lt_0 _) Hnz)).
    destruct Hprog as [H|[Hb [H|[Hk [H|[Hc H]]]]]].
    - exact (IHb _ H _ _ _ sink' state' eq_refl eq_refl eq_refl eq_refl Hht').
    - rewrite <- Hb in IHk.
      exact (IHk _ H _ _ sink' state' eq_refl eq_refl eq_refl eq_refl Hht').
    - destruct (Nat.eq_dec (left_slices state') (left_slices state)) as [He|Hne].
      + rewrite <- Hb, <- He in IHc.
        exact (IHc _ H _ sink' state' eq_refl eq_refl eq_refl eq_refl Hht').
      + rewrite <- Hb in IHk.
        refine (IHk _ _ _ _ sink' state' eq_refl eq_refl eq_refl eq_refl Hht'). lia.
    - destruct (Nat.eq_dec (left_slices state') (left_slices state)) as [He|Hne].
      + rewrite <- Hb, <- He, <- Hc in IHv.
        exact (IHv _ H sink' state' eq_refl eq_refl eq_refl eq_refl Hht').
      + rewrite <- Hb in IHk.
        refine (IHk _ _ _ _ sink' state' eq_refl eq_refl eq_refl eq_refl Hht'). lia. }
  exists (S n), (chunk ++ rows). cbn [drain].
  rewrite Hcall, (proj2 (Nat.eqb_neq _ _) Hnz), Hdrain. reflexivity.
Qed.

End Termination.

(** Under the two contracts the caller reaches the end of the stream, for
    every threshold: the hypotheses of the comparison between thresholds are
    met by every run. *)
Lemma drain_ends threshold join_type sink state :
  cursor_finite -> outer_scan_finite (hash_table sink) ->
  exists n rows, drain threshold join_type n sink state = Some rows.
Proof.
  intros [cursor_rank Hcursor] [scan_rank Hscan].
  exact (drain_ends_ranked cursor_rank scan_rank (hash_table sink) Hcursor Hscan
           threshold join_type sink state eq_refl).
Qed.

End DriverFacts.

(** C1 at work: a SEMI join over an empty table, the child holding one batch. *)
Lemma GetChunkInternal_empty_build_witness :
  @GetChunkInternal (Toy.engine 1024) SEMI
    (Toy.sink_of 1024 (Toy.table [] SEMI) []) (Toy.state_of 1024 [[[1; 7]]])
  = ([], (Toy.sink_of 1024 (Toy.table [] SEMI) [], Toy.state_of 1024 [[[1; 7]]])) /\
  @calls (Toy.engine 1024) SMALL_CHUNK SEMI 3
    (Toy.sink_of 1024 (Toy.table [] SEMI) []) (Toy.state_of 1024 [[[1; 7]]])
  = ([[]; []; []],
     (Toy.sink_of 1024 (Toy.table [] SEMI) [], Toy.state_of 1024 [[[1; 7]]])) /\
  fetched (child_state (snd (snd
    (@calls (Toy.engine 1024) SMALL_CHUNK SEMI 3
       (Toy.sink_of 1024 (Toy.table [] SEMI) []) (Toy.state_of 1024 [[[1; 7]]])))))
  = 0.
Proof.
  apply (@GetChunkInternal_empty_build (Toy.engine 1024) SEMI
           (Toy.sink_of 1024 (Toy.table [] SEMI) []) (Toy.state_of 1024 [[[1; 7]]]) 3);
    [reflexivity | right; reflexivity | reflexivity].
Defined.

(** The small hash join keeps the two contracts: a scan structure shrinks with
    every non-empty slice, and so does the list of unmatched slices. *)
Lemma toy_cursor_finite vector_size : @cursor_finite (Toy.engine vector_size).
Proof.
  exists (fun ss : list (list nat) => length ss). intros ss keys left. cbn.
  induction ss as [|b rest IH]; cbn; [unfold size; cbn; lia|].
  case_match; [intros Hpos; specialize (IH Hpos); lia|].
  cbn. lia.
Qed.

Lemma toy_outer_scan_finite vector_size ht :
  @outer_scan_finite (Toy.engine vector_size) ht.
Proof.
  exists (fun scan : list (list (list nat)) => length scan). intros scan. cbn.
  destruct scan as [|slice rest]; cbn; [unfold size; cbn; lia|lia].
Qed.

(** The scenario of the specification: the build side holds (1, a) and (2, b),
    the probe side (1, x) and (3, y), with 10, 20, 7 and 8 for a, b, x and y;
    the inner join returns (1, x, a) and then the end of the stream. *)
Example inner_join_scenario :
  fst (@calls (Toy.engine 1024) SMALL_CHUNK INNER 2
         (Toy.sink_of 1024 (Toy.table [[1; 10]; [2; 20]] INNER) [])
         (Toy.state_of 1024 [[[1; 7]; [3; 8]]]))
  = [[[1; 7; 10]]; []].
Proof. vm_compute. reflexivity. Qed.

(** The state [Toy.after_first_call] is the one the first call leaves. *)
Lemma after_first_call_reached :
  @GetChunkInternal (Toy.engine 128) INNER (Toy.sink_of 128 Toy.two_rows [])
    (Toy.state_of 128 [Toy.first_batch; [[1]]])
  = (repeat [2; 200] 64, (Toy.sink_of 128 Toy.two_rows [], Toy.after_first_call)).
Proof. vm_compute. reflexivity. Qed.

(** C4 fails as stated: resumed in [Toy.after_first_call], the scan structure
    yields the one-row slice [[1; 100]]; the call does not return that slice
    but a chunk of two rows, in which the cache has joined it with the result
    of the next probe-side batch. *)
Lemma resumed_slice_is_cached :
  scan_structure Toy.after_first_call = Some [[1; 100]] /\
  @Next (Toy.engine 128) [[1; 100]] (join_keys Toy.after_first_call)
    (child_chunk Toy.after_first_call) = ([[1; 100]], []) /\
  fst (@GetChunkInternal (Toy.engine 128) INNER (Toy.sink_of 128 Toy.two_rows [])
         Toy.after_first_call) = [[1; 100]; [1; 100]] /\
  ~ @resumed_slice_bypasses_cache (Toy.engine 128).
Proof.
  split; [reflexivity|]. split; [vm_compute; reflexivity|].
  split; [vm_compute; reflexivity|].
  intros Hclaim.
  destruct (Hclaim INNER (Toy.sink_of 128 Toy.two_rows []) Toy.after_first_call
              [[1; 100]] [[1; 100]] []) as [Hout _];
    try (vm_compute; reflexivity); try (vm_compute; lia).
  vm_compute in Hout. discriminate Hout.
Qed.

(** C4 as amended, at the same state. *)
Lemma GetChunkInternal_resumed_slice_witness :
  @ProbeHashTable (Toy.engine 128) (Toy.sink_of 128 Toy.two_rows []) Toy.after_first_call
  = ([[1; 100]], @set_scan_structure (Toy.engine 128) Toy.after_first_call (Some [])) /\
  (@empty_result_shortcut (Toy.engine 128) (Toy.sink_of 128 Toy.two_rows []) = false ->
   (@caching_enabled (Toy.engine 128) = false \/ SMALL_CHUNK <= 1 ->
    @GetChunkInternal (Toy.engine 128) INNER (Toy.sink_of 128 Toy.two_rows [])
      Toy.after_first_call
    = ([[1; 100]],
       (Toy.sink_of 128 Toy.two_rows [],
        @set_scan_structure (Toy.engine 128) Toy.after_first_call (Some [])))) /\
   (@caching_enabled (Toy.engine 128) = true -> 1 < SMALL_CHUNK ->
    (1 < 128 - SMALL_CHUNK ->
     @GetChunkInternal (Toy.engine 128) INNER (Toy.sink_of 128 Toy.two_rows [])
       Toy.after_first_call
     = @GetChunkInternal (Toy.engine 128) INNER (Toy.sink_of 128 Toy.two_rows [])
         (@set_cached_chunk (Toy.engine 128)
            (@set_scan_structure (Toy.engine 128) Toy.after_first_call (Some []))
            [[1; 100]])) /\
    (128 - SMALL_CHUNK <= 1 ->
     @GetChunkInternal (Toy.engine 128) INNER (Toy.sink_of 128 Toy.two_rows [])
       Toy.after_first_call
     = ([[1; 100]],
        (Toy.sink_of 128 Toy.two_rows [],
         @set_cached_chunk (Toy.engine 128)
           (@set_scan_structure (Toy.engine 128) Toy.after_first_call (Some []))
           []))))).
Proof.
  apply (@GetChunkInternal_resumed_slice (Toy.engine 128) INNER
           (Toy.sink_of 128 Toy.two_rows []) Toy.after_first_call
           [[1; 100]] [[1; 100]] []).
  - reflexivity.
  - vm_compute. lia.
  - reflexivity.
  - vm_compute. lia.
Defined.

(** C2 fails as stated: the batch [Toy.growing_slices] gives slices of one
    row, of two rows and of 64 rows.  With the threshold 64 the two small
    slices wait in the cache while the large one is returned; with the
    threshold 2 only the first slice waits, and the other two are returned as
    they come.  The same rows reach the caller in two different orders. *)
Lemma coalescing_changes_order :
  @drain (Toy.engine 128) 64 INNER 3 (Toy.sink_of 128 Toy.collide [])
    (Toy.state_of 128 [Toy.growing_slices])
  = Some (repeat [3; 300] 64 ++ [[1; 100]; [2; 200]; [2; 200]]) /\
  @drain (Toy.engine 128) 2 INNER 4 (Toy.sink_of 128 Toy.collide [])
    (Toy.state_of 128 [Toy.growing_slices])
  = Some ([[2; 200]; [2; 200]] ++ repeat [3; 300] 64 ++ [[1; 100]]) /\
  ~ @coalescing_keeps_order (Toy.engine 128).
Proof.
  split; [vm_compute; reflexivity|]. split; [vm_compute; reflexivity|].
  intros Hclaim.
  specialize (Hclaim 64 2 INNER 3 4 (Toy.sink_of 128 Toy.collide [])
                Toy.growing_slices
                (repeat [3; 300] 64 ++ [[1; 100]; [2; 200]; [2; 200]])
                ([[2; 200]; [2; 200]] ++ repeat [3; 300] 64 ++ [[1; 100]])).
  assert (repeat [3; 300] 64 ++ [[1; 100]; [2; 200]; [2; 200]]
          = [[2; 200]; [2; 200]] ++ repeat [3; 300] 64 ++ [[1; 100]]) as Habs
    by (apply Hclaim; vm_compute; reflexivity).
  vm_compute in Habs. discriminate Habs.
Qed.

(** C2 as amended, on the same two runs. *)
Lemma drain_threshold_independent_witness :
  Permutation (repeat [3; 300] 64 ++ [[1; 100]; [2; 200]; [2; 200]])
    ([[2; 200]; [2; 200]] ++ repeat [3; 300] 64 ++ [[1; 100]]).
Proof.
  apply (@drain_threshold_independent (Toy.engine 128) 64 2 INNER 3 4
           (Toy.sink_of 128 Toy.collide []) (Toy.state_of 128 [Toy.growing_slices])).
  - apply Forall_cons; split; [vm_compute; lia|apply Forall_nil; exact I].
  - intros _ Hsize. vm_compute in Hsize. discriminate Hsize.
  - reflexivity.
  - vm_compute. reflexivity.
  - vm_compute. reflexivity.
Defined.

(** C7 fails as stated: the only batch has 64 rows, which all match the only
    build row; the first call returns them in one slice and leaves a scan
    structure that has no slice left to give. *)
Lemma exhausted_scan_stays_live :
  snd (snd (@calls (Toy.engine 128) SMALL_CHUNK INNER 1 (Toy.sink_of 128 Toy.one_row [])
              (Toy.state_of 128 [repeat [1] 64])))
  = Toy.after_full_slice /\
  scan_structure Toy.after_full_slice = Some [] /\
  fst (@Next (Toy.engine 128) [] (join_keys Toy.after_full_slice)
         (child_chunk Toy.after_full_slice)) = [] /\
  ~ @live_scan_has_matches (Toy.engine 128).
Proof.
  split; [vm_compute; reflexivity|]. split; [reflexivity|]. split; [reflexivity|].
  intros Hclaim.
  specialize (Hclaim INNER (Toy.sink_of 128 Toy.one_row [])
                (@Build_ChildState (Toy.engine 128) [repeat [1] 64] 0) 1 []).
  cbv zeta in Hclaim.
  assert (0 < 0) as Habs; [|lia].
  refine (eq_ind _ (fun n => 0 < n) (Hclaim _) 0 _); vm_compute; reflexivity.
Qed.

(** C7 as amended, at the state of the counterexample. *)
Lemma scan_structure_between_calls_witness :
  @scan_structure_valid (Toy.engine 128) Toy.one_row
    (snd (snd (@calls (Toy.engine 128) SMALL_CHUNK INNER 1
                 (Toy.sink_of 128 Toy.one_row []) (Toy.state_of 128 [repeat [1] 64])))) /\
  @ProbeHashTable (Toy.engine 128) (Toy.sink_of 128 Toy.one_row []) Toy.after_full_slice
  = @ProbeHashTable_loop (Toy.engine 128) (Toy.sink_of 128 Toy.one_row [])
      (@set_scan_structure (Toy.engine 128) Toy.after_full_slice None) /\
  scan_structure (snd (@ProbeHashTable (Toy.engine 128)
                         (Toy.sink_of 128 Toy.one_row []) Toy.after_full_slice)) = None.
Proof.
  destruct (@scan_structure_between_calls (Toy.engine 128) INNER
              (Toy.sink_of 128 Toy.one_row [])
              (@Build_ChildState (Toy.engine 128) [repeat [1] 64] 0) 1
              Toy.after_full_slice []) as [Hvalid Hreset].
  split; [exact Hvalid|].
  destruct Hreset as [Hloop Hnull]; [reflexivity|vm_compute; lia|reflexivity|].
  split; [exact Hloop|]. apply Hnull. reflexivity.
Defined.

(** C3 at work: a one-row slice arrives at an empty cache. *)
Lemma GetChunkInternal_chunk_cache_witness :
  (0 < 1 < SMALL_CHUNK -> 1 < 128 - SMALL_CHUNK ->
   @GetChunkInternal (Toy.engine 128) INNER (Toy.sink_of 128 Toy.one_row [])
     (Toy.state_of 128 [[[1]]])
   = @GetChunkInternal (Toy.engine 128) INNER (Toy.sink_of 128 Toy.one_row [])
       (@set_cached_chunk (Toy.engine 128) Toy.after_small_probe [[1; 100]])) /\
  (0 < 1 < SMALL_CHUNK -> 128 - SMALL_CHUNK <= 1 ->
   @GetChunkInternal (Toy.engine 128) INNER (Toy.sink_of 128 Toy.one_row [])
     (Toy.state_of 128 [[[1]]])
   = ([[1; 100]],
      (Toy.sink_of 128 Toy.one_row [],
       @set_cached_chunk (Toy.engine 128) Toy.after_small_probe []))) /\
  (SMALL_CHUNK <= 1 ->
   @GetChunkInternal (Toy.engine 128) INNER (Toy.sink_of 128 Toy.one_row [])
     (Toy.state_of 128 [[[1]]])
   = ([[1; 100]], (Toy.sink_of 128 Toy.one_row [], Toy.after_small_probe)) /\
   cached_chunk Toy.after_small_probe = []) /\
  (1 = 0 -> 0 < 0 ->
   @GetChunkInternal (Toy.engine 128) INNER (Toy.sink_of 128 Toy.one_row [])
     (Toy.state_of 128 [[[1]]])
   = ([], (Toy.sink_of 128 Toy.one_row [],
           @set_cached_chunk (Toy.engine 128) Toy.after_small_probe []))) /\
  (0 < 128 - SMALL_CHUNK ->
   (1 < SMALL_CHUNK -> 1 <= 128) /\
   length (cached_chunk (snd (snd
     (@GetChunkInternal (Toy.engine 128) INNER (Toy.sink_of 128 Toy.one_row [])
        (Toy.state_of 128 [[[1]]])))))
   < 128 - SMALL_CHUNK).
Proof.
  apply (@GetChunkInternal_chunk_cache (Toy.engine 128) INNER
           (Toy.sink_of 128 Toy.one_row []) (Toy.state_of 128 [[[1]]])
           [[1; 100]] Toy.after_small_probe).
  - vm_compute. lia.
  - reflexivity.
  - vm_compute. reflexivity.
Defined.

(** C5 at work: a full outer join whose probe side is exhausted, with two
    rows in the cache. *)
Lemma GetChunkInternal_end_of_probe_witness :
  (@caching_enabled (Toy.engine 128) = true ->
   @empty_result_shortcut (Toy.engine 128) (Toy.sink_of 128 Toy.outer_table [[[3; 300]]])
   = false ->
   0 < 2 ->
   exists state',
     @GetChunkInternal (Toy.engine 128) OUTER
       (Toy.sink_of 128 Toy.outer_table [[[3; 300]]]) Toy.at_end_of_probe
     = ([[1; 100]; [1; 100]], (Toy.sink_of 128 Toy.outer_table [[[3; 300]]], state')) /\
     cached_chunk state' = [] /\ probe_exhausted state') /\
  (OUTER = OUTER -> 2 = 0 ->
   forall n, exists state',
     @calls (Toy.engine 128) SMALL_CHUNK OUTER n
       (Toy.sink_of 128 Toy.outer_table [[[3; 300]]]) Toy.at_end_of_probe
     = (fst (@ScanFullOuter_n (Toy.engine 128) n Toy.outer_table [[[3; 300]]]),
        (@Build_HashJoinGlobalState (Toy.engine 128) Toy.outer_table
           (snd (@ScanFullOuter_n (Toy.engine 128) n Toy.outer_table [[[3; 300]]])),
         state')) /\
     probe_exhausted state' /\ length (cached_chunk state') = 0) /\
  (OUTER = OUTER -> 2 = 0 ->
   @ScanFullOuter (Toy.engine 128) Toy.outer_table [[[3; 300]]] = ([], [[[3; 300]]]) ->
   forall n,
     fst (@calls (Toy.engine 128) SMALL_CHUNK OUTER n
            (Toy.sink_of 128 Toy.outer_table [[[3; 300]]]) Toy.at_end_of_probe)
     = repeat [] n) /\
  (OUTER <> OUTER -> 2 = 0 ->
   forall n,
     fst (@calls (Toy.engine 128) SMALL_CHUNK OUTER n
            (Toy.sink_of 128 Toy.outer_table [[[3; 300]]]) Toy.at_end_of_probe)
     = repeat [] n).
Proof.
  apply (@GetChunkInternal_end_of_probe (Toy.engine 128) OUTER
           (Toy.sink_of 128 Toy.outer_table [[[3; 300]]]) Toy.at_end_of_probe).
  - reflexivity.
  - split; [reflexivity|exact I].
Defined.

(** ** More about the probe driver *)
Section DriverMore.
Context `{C : Collaborators}.

(** *** What a call does to the sink state *)

Lemma GetChunkInternal_body_sink threshold join_type sink state :
  match GetChunkInternal_body threshold join_type sink state with
  | Return chunk (sink', _) =>
      sink' = sink \/
      (join_type = OUTER /\
       ScanFullOuter (hash_table sink) (ht_scan_state sink) = (chunk, ht_scan_state sink') /\
       hash_table sink' = hash_table sink)
  | Again (sink', _) => sink' = sink
  end.
Proof.
  unfold GetChunkInternal_body.
  destruct (ProbeHashTable sink state) as [c st1].
  destruct (ScanFullOuter (hash_table sink) (ht_scan_state sink)) as [o scan] eqn:Eo.
  destruct (size c =? 0).
  - destruct (caching_enabled && (0 <? size (cached_chunk st1))); [left; reflexivity|].
    destruct (bool_decide (join_type = OUTER)) eqn:Ho; [|left; reflexivity].
    apply bool_decide_eq_true in Ho. right. done.
  - destruct caching_enabled; [|left; reflexivity].
    destruct (size c <? threshold); [|left; reflexivity].
    destruct (STANDARD_VECTOR_SIZE - threshold <=? _); [left|]; reflexivity.
Qed.

Lemma GetChunkInternal_sink threshold join_type sink state :
  let r := GetChunkInternal_with threshold join_type sink state in
  fst (snd r) = sink \/
  (join_type = OUTER /\
   ScanFullOuter (hash_table sink) (ht_scan_state sink)
   = (fst r, ht_scan_state (fst (snd r))) /\
   hash_table (fst (snd r)) = hash_table sink).
Proof.
  cbv zeta. destruct (empty_result_shortcut sink) eqn:Hs.
  { rewrite GetChunkInternal_shortcut by done. left. reflexivity. }
  revert state. apply (GetChunkInternal_with_ind threshold join_type sink
    (fun state r =>
       fst (snd r) = sink \/
       (join_type = OUTER /\
        ScanFullOuter (hash_table sink) (ht_scan_state sink)
        = (fst r, ht_scan_state (fst (snd r))) /\
        hash_table (fst (snd r)) = hash_table sink)) Hs).
  - intros state chunk [sink' state'] E.
    pose proof (GetChunkInternal_body_sink threshold join_type sink state) as Hb.
    rewrite E in Hb. exact Hb.
  - intros state state' _ IH. exact IH.
Qed.

(** X1.  A call of [GetChunkInternal] never changes the hash table.  It leaves
    the whole sink state alone unless the join is a full OUTER join, and when
    it does advance the shared scan cursor, it does so by one [ScanFullOuter]
    call whose rows are the output of the call: they are neither cached nor
    dropped. *)
Theorem GetChunkInternal_scan_cursor join_type sink state :
  hash_table (fst (snd (GetChunkInternal join_type sink state))) = hash_table sink /\
  (join_type <> OUTER -> fst (snd (GetChunkInternal join_type sink state)) = sink) /\
  (ht_scan_state (fst (snd (GetChunkInternal join_type sink state)))
   <> ht_scan_state sink ->
   join_type = OUTER /\
   ScanFullOuter (hash_table sink) (ht_scan_state sink)
   = (fst (GetChunkInternal join_type sink state),
      ht_scan_state (fst (snd (GetChunkInternal join_type sink state))))).
Proof.
  unfold GetChunkInternal.
  destruct (GetChunkInternal_sink SMALL_CHUNK join_type sink state)
    as [Hsame|(Houter & Hscan & Hht)].
  - rewrite Hsame. split; [reflexivity|]. split; [reflexivity|]. intros Hne. done.
  - split; [exact Hht|]. split; [intros Hne; done|]. intros _. done.
Qed.

(** *** The end of the stream and the cache *)

(** Rows are buffered only where the cache is compiled in and the shortcut
    is not taken. *)
Definition cache_in_use (sink : HashJoinGlobalState) (state : PhysicalHashJoinState) : Prop :=
  (caching_enabled = true /\ empty_result_shortcut sink = false) \/
  size (cached_chunk state) = 0.

Lemma GetChunkInternal_end_flushed threshold join_type sink state :
  cache_in_use sink state ->
  let r := GetChunkInternal_with threshold join_type sink state in
  cache_in_use (fst (snd r)) (snd (snd r)) /\
  (size (fst r) = 0 ->
   size (cached_chunk state) = 0 /\ size (cached_chunk (snd (snd r))) = 0).
Proof.
  cbv zeta. destruct (empty_result_shortcut sink) eqn:Hs.
  { rewrite GetChunkInternal_shortcut by done. cbn. intros [[_ Hno]|Hz]; [congruence|].
    split; [right; exact Hz|]. done. }
  assert (forall sink' state', hash_table sink' = hash_table sink ->
            cache_in_use sink state' -> cache_in_use sink' state') as Hmove.
  { intros sink' state' Hht. unfold cache_in_use.
    rewrite (empty_result_shortcut_ht _ _ Hht). done. }
  revert state. apply (GetChunkInternal_with_ind threshold join_type sink
    (fun state r =>
       cache_in_use sink state ->
       cache_in_use (fst (snd r)) (snd (snd r)) /\
       (size (fst r) = 0 ->
        size (cached_chunk state) = 0 /\ size (cached_chunk (snd (snd r))) = 0)) Hs).
  - intros state chunk [sink' state'] E Huse.
    pose proof (GetChunkInternal_body_sink threshold join_type sink state) as Hsink.
    rewrite E in Hsink.
    assert (hash_table sink' = hash_table sink) as Hht
      by (destruct Hsink as [->|(_ & _ & H)]; done).
    clear Hsink. cbn [fst snd]. revert E. unfold GetChunkInternal_body.
    destruct (ProbeHashTable sink state) as [c st1] eqn:Hp.
    destruct (ProbeHashTable_frame _ _ _ _ Hp) as [Hf _].
    assert (caching_enabled = true -> forall cache,
              cache_in_use sink' (set_cached_chunk st1 cache)) as Hon.
    { intros Hc cache. apply Hmove; [exact Hht|]. left. done. }
    assert (caching_enabled = false -> size (cached_chunk state) = 0) as Hoff.
    { intros Hc. destruct Huse as [[Hc' _]|Hz]; [congruence|exact Hz]. }
    assert (cache_in_use sink' st1) as Hst1.
    { apply Hmove; [exact Hht|]. destruct Huse as [Hl|Hz]; [left; exact Hl|].
      right. congruence. }
    destruct (ScanFullOuter (hash_table sink) (ht_scan_state sink)) as [o scan].
    destruct (size c =? 0) eqn:Hc0.
    + destruct (caching_enabled && (0 <? size (cached_chunk st1))) eqn:Hflush.
      * apply andb_true_iff in Hflush as [Hc Hpos%Nat.ltb_lt]. intros [= <- <- <-].
        split; [apply Hon; exact Hc|]. unfold Reference. intros; lia.
      * assert (size (cached_chunk state) = 0) as Hz.
        { apply andb_false_iff in Hflush as [Hc|Hpos%Nat.ltb_ge]; [apply Hoff; exact Hc|].
          rewrite <- Hf. lia. }
        destruct (bool_decide (join_type = OUTER)); intros [= <- <- <-];
          (split; [exact Hst1|intros _; split; [exact Hz|rewrite Hf; exact Hz]]).
    + apply Nat.eqb_neq in Hc0.
      destruct (decide (caching_enabled = true)) as [Hc|Hc%not_true_is_false]; rewrite Hc.
      * destruct (size c <? threshold).
        -- cbn [cached_chunk set_cached_chunk].
           destruct (STANDARD_VECTOR_SIZE - threshold <=? _);
             [|intros E; discriminate E].
           intros [= <- <- <-]. split; [apply Hon; exact Hc|].
           unfold Reference. rewrite size_Append. intros; lia.
        -- intros [= <- <- <-]. split; [exact Hst1|intros; lia].
      * intros [= <- <- <-]. split; [exact Hst1|intros; lia].
  - intros state state' Hpass IH _.
    assert (cache_in_use sink state' /\ 0 < size (cached_chunk state')) as [Huse' Hpos].
    { revert Hpass. unfold GetChunkInternal_body.
      destruct (ProbeHashTable sink state) as [c st1] eqn:Hp.
      repeat case_match; intros; simplify_eq/=.
      split; [left; done|]. rewrite size_Append.
      match goal with H : (_ =? 0) = false |- _ => apply Nat.eqb_neq in H end. lia. }
    destruct (IH Huse') as [Hafter Hend]. split; [exact Hafter|].
    intros Hout. destruct (Hend Hout) as [Habs _]. lia.
Qed.

Lemma calls_cache_in_use threshold join_type n sink state :
  cache_in_use sink state ->
  cache_in_use (fst (snd (calls threshold join_type n sink state)))
    (snd (snd (calls threshold join_type n sink state))).
Proof.
  revert sink state. induction n as [|n IH]; intros sink state Huse; [exact Huse|].
  cbn [calls].
  destruct (GetChunkInternal_end_flushed threshold join_type sink state Huse) as [Hnext _].
  destruct (GetChunkInternal_with threshold join_type sink state) as [chunk [sink1 state1]].
  cbn [fst snd] in Hnext. specialize (IH sink1 state1 Hnext).
  destruct (calls threshold join_type n sink1 state1) as [chunks [sink2 state2]].
  exact IH.
Qed.

(** X2.  The end of the stream is never signalled over buffered rows: after
    any number of calls from the state that [GetOperatorState] creates, a call
    that returns an empty chunk starts and ends with an empty cache. *)
Theorem GetChunkInternal_empty_means_flushed join_type sink left n :
  size (fst (GetChunkInternal join_type
               (fst (snd (calls SMALL_CHUNK join_type n sink (GetOperatorState left))))
               (snd (snd (calls SMALL_CHUNK join_type n sink (GetOperatorState left))))))
  = 0 ->
  size (cached_chunk
          (snd (snd (calls SMALL_CHUNK join_type n sink (GetOperatorState left))))) = 0 /\
  size (cached_chunk (snd (snd (GetChunkInternal join_type
          (fst (snd (calls SMALL_CHUNK join_type n sink (GetOperatorState left))))
          (snd (snd (calls SMALL_CHUNK join_type n sink (GetOperatorState left)))))))) = 0.
Proof.
  assert (cache_in_use sink (GetOperatorState left)) as Hinit by (right; reflexivity).
  pose proof (calls_cache_in_use SMALL_CHUNK join_type n sink _ Hinit) as Huse.
  destruct (GetChunkInternal_end_flushed SMALL_CHUNK join_type _ _ Huse) as [_ Hend].
  exact Hend.
Qed.

(** *** The end of the stream and the probe side *)

(** The end of a run of the caller's protocol, in terms of the single calls:
    the first empty chunk comes after the chunks that were collected. *)
Lemma drain_calls threshold join_type n : forall sink state rows,
  drain threshold join_type n sink state = Some rows ->
  exists k, k < n /\
    rows = concat (fst (calls threshold join_type k sink state)) /\
    size (fst (GetChunkInternal_with threshold join_type
                 (fst (snd (calls threshold join_type k sink state)))
                 (snd (snd (calls threshold join_type k sink state))))) = 0.
Proof.
  induction n as [|n IH]; intros sink state rows; [done|]. cbn [drain].
  destruct (GetChunkInternal_with threshold join_type sink state)
    as [chunk [sink1 state1]] eqn:Hcall.
  destruct (size chunk =? 0) eqn:Hz.
  - apply Nat.eqb_eq in Hz. intros [= <-]. exists 0. split; [lia|].
    cbn [calls fst snd concat]. rewrite Hcall. done.
  - destruct (drain threshold join_type n sink1 state1) as [rest|] eqn:Hrest; [|done].
    cbn [option_map]. intros [= <-].
    destruct (IH sink1 state1 rest Hrest) as (k & Hk & Hrows & Hend).
    exists (S k). split; [lia|]. cbn [calls]. rewrite Hcall.
    destruct (calls threshold join_type k sink1 state1) as [chunks final].
    cbn [fst snd concat] in *. rewrite Hrows. done.
Qed.

Lemma GetChunkInternal_end_exhausted threshold join_type sink state :
  empty_result_shortcut sink = false -> empty_build_keeps_rows sink ->
  delivers_rows state ->
  let r := GetChunkInternal_with threshold join_type sink state in
  delivers_rows (snd (snd r)) /\
  (size (fst r) = 0 -> probe_exhausted (snd (snd r))).
Proof.
  intros Hs Hkeep. cbv zeta. revert state.
  apply (GetChunkInternal_with_ind threshold join_type sink
    (fun state r =>
       delivers_rows state ->
       delivers_rows (snd (snd r)) /\
       (size (fst r) = 0 -> probe_exhausted (snd (snd r)))) Hs).
  - intros state chunk [sink' state'] E Hd. cbn [fst snd]. revert E.
    unfold GetChunkInternal_body.
    destruct (ProbeHashTable sink state) as [c st1] eqn:Hp.
    destruct (ProbeHashTable_empty _ _ _ _ Hs Hkeep Hd Hp) as [Hd1 Hend].
    destruct (ScanFullOuter (hash_table sink) (ht_scan_state sink)) as [o scan].
    destruct (size c =? 0) eqn:Hc0.
    + apply Nat.eqb_eq in Hc0. specialize (Hend Hc0).
      destruct (caching_enabled && (0 <? size (cached_chunk st1))) eqn:Hflush.
      * intros [= <- <- <-]. split; [exact Hd1|]. intros _. exact Hend.
      * destruct (bool_decide (join_type = OUTER)); intros [= <- <- <-];
          (split; [exact Hd1|intros _; exact Hend]).
    + apply Nat.eqb_neq in Hc0.
      destruct caching_enabled.
      * destruct (size c <? threshold).
        -- cbn [cached_chunk set_cached_chunk].
           destruct (STANDARD_VECTOR_SIZE - threshold <=? _);
             [|intros E; discriminate E].
           intros [= <- <- <-]. split; [exact Hd1|].
           unfold Reference. rewrite size_Append. intros; lia.
        -- intros [= <- <- <-]. split; [exact Hd1|intros; lia].
      * intros [= <- <- <-]. split; [exact Hd1|intros; lia].
  - intros state state' Hpass IH Hd. apply IH. revert Hpass.
    unfold GetChunkInternal_body.
    destruct (ProbeHashTable sink state) as [c st1] eqn:Hp.
    destruct (ProbeHashTable_empty _ _ _ _ Hs Hkeep Hd Hp) as [Hd1 _].
    repeat case_match; intros; simplify_eq/=. exact Hd1.
Qed.

(** X3.  Let the child deliver non-empty batches until it is exhausted, and
    let the result over an empty build side be non-empty for a non-empty
    batch.  Then [GetChunkInternal] returns an empty chunk only when the probe
    side has nothing more to give: the child has delivered all its batches,
    and no scan structure is waiting with a non-empty slice. *)
Theorem GetChunkInternal_empty_means_exhausted join_type sink state :
  empty_result_shortcut sink = false -> empty_build_keeps_rows sink ->
  delivers_rows state ->
  size (fst (GetChunkInternal join_type sink state)) = 0 ->
  probe_exhausted (snd (snd (GetChunkInternal join_type sink state))).
Proof.
  intros Hs Hkeep Hd.
  exact (proj2 (GetChunkInternal_end_exhausted SMALL_CHUNK join_type sink state Hs Hkeep Hd)).
Qed.

(** X4.  The stream ends.  When a scan structure gives only finitely many
    non-empty slices, and so does the scan of the unmatched build rows, then
    after some number of calls [GetChunkInternal] returns an empty chunk. *)
Theorem GetChunkInternal_stream_ends join_type sink state :
  cursor_finite -> outer_scan_finite (hash_table sink) ->
  exists k,
    size (fst (GetChunkInternal join_type
                 (fst (snd (calls SMALL_CHUNK join_type k sink state)))
                 (snd (snd (calls SMALL_CHUNK join_type k sink state))))) = 0.
Proof.
  intros [cursor_rank Hcursor] [scan_rank Hscan].
  destruct (drain_ends_ranked cursor_rank scan_rank (hash_table sink) Hcursor Hscan
              SMALL_CHUNK join_type sink state eq_refl) as (n & rows & Hdrain).
  destruct (drain_calls _ _ _ _ _ _ Hdrain) as (k & _ & _ & Hend).
  exists k. exact Hend.
Qed.

(** *** The capacity of a chunk *)

(** A chunk fits when it has at most [STANDARD_VECTOR_SIZE] rows. *)
Definition fits (chunk : DataChunk) : Prop := size chunk <= STANDARD_VECTOR_SIZE.

(** The collaborators fill a chunk within its capacity: a slice of matches
    and the result over an empty build side, for a batch that fits ... *)
Definition collaborators_fit : Prop :=
  (forall ss keys left, fits left -> fits (fst (Next ss keys left))) /\
  (forall jt has_null batch,
     fits batch -> fits (ConstructEmptyJoinResult jt has_null batch)).

(** ... and the slices of unmatched build rows, from the scan cursor on. *)
Definition outer_scan_fits (sink : HashJoinGlobalState) : Prop :=
  forall n, Forall fits (fst (ScanFullOuter_n n (hash_table sink) (ht_scan_state sink))).

Definition batches_fit (state : PhysicalHashJoinState) : Prop :=
  fits (child_chunk state) /\ Forall fits (pending (child_state state)).

Lemma fits_Reset : fits Reset.
Proof. unfold fits. change (size Reset) with 0. lia. Qed.

Lemma outer_scan_fits_step sink :
  outer_scan_fits sink ->
  fits (fst (ScanFullOuter (hash_table sink) (ht_scan_state sink))) /\
  outer_scan_fits
    {| hash_table := hash_table sink;
       ht_scan_state := snd (ScanFullOuter (hash_table sink) (ht_scan_state sink)) |}.
Proof.
  intros Hscan. split.
  - specialize (Hscan 1). cbn [ScanFullOuter_n] in Hscan.
    destruct (ScanFullOuter (hash_table sink) (ht_scan_state sink)) as [o scan].
    cbn in Hscan. apply Forall_cons in Hscan as [Ho _]. exact Ho.
  - intros n. specialize (Hscan (S n)). cbn [ScanFullOuter_n] in Hscan.
    destruct (ScanFullOuter (hash_table sink) (ht_scan_state sink)) as [o scan].
    cbn [hash_table ht_scan_state snd].
    destruct (ScanFullOuter_n n (hash_table sink) scan) as [chunks final].
    cbn in Hscan. apply Forall_cons in Hscan as [_ Hrest]. exact Hrest.
Qed.

Lemma ProbeHashTable_loop_fits sink state chunk state1 :
  collaborators_fit -> batches_fit state ->
  ProbeHashTable_loop sink state = (chunk, state1) ->
  fits chunk /\ batches_fit state1.
Proof.
  intros (HNext & HEmpty).
  remember (length (pending (child_state state))) as m eqn:Hm.
  revert state Hm. induction m as [m IH] using lt_wf_ind. intros state -> [_ Hb].
  rewrite ProbeHashTable_loop_eq.
  destruct (ProbeHashTable_body sink state) as [c st|st] eqn:E.
  - intros [= <- <-]. revert E. unfold ProbeHashTable_body, child_GetChunk.
    unfold batches_fit.
    destruct (pending (child_state state)) as [|b rest] eqn:Ep; cbn.
    + change (size Reset) with 0. cbn. intros [= <- <-]. cbn.
      split; [apply fits_Reset|]. split; [apply fits_Reset|constructor].
    + apply Forall_cons in Hb as [Hb Hrest].
      destruct (size b =? 0).
      { intros [= <- <-]. cbn. split; [apply fits_Reset|]. split; assumption. }
      destruct (ht_size (hash_table sink) =? 0).
      * intros [= <- <-]. cbn. split; [apply HEmpty; exact Hb|]. split; assumption.
      * pose proof (HNext (Probe (hash_table sink) (Execute b)) (Execute b) b Hb)
          as Hslice.
        destruct (Next _ _ _) as [c' ss']. destruct (size c' =? 0); [done|].
        intros [= <- <-]. cbn. split; [exact Hslice|]. split; assumption.
  - intros Hl. apply (IH _ (ProbeHashTable_body_Again _ _ _ E) st eq_refl); [|exact Hl].
    revert E. unfold ProbeHashTable_body, child_GetChunk. unfold batches_fit.
    destruct (pending (child_state state)) as [|b rest] eqn:Ep; cbn; [done|].
    apply Forall_cons in Hb as [Hb Hrest].
    repeat case_match; intros; simplify_eq/=; split; assumption.
Qed.

Lemma ProbeHashTable_fits sink state chunk state1 :
  collaborators_fit -> batches_fit state ->
  ProbeHashTable sink state = (chunk, state1) ->
  fits chunk /\ batches_fit state1.
Proof.
  intros Hfit Hb. pose proof Hfit as (HNext & _). unfold ProbeHashTable.
  destruct (scan_structure state) as [ss|];
    [|apply ProbeHashTable_loop_fits; assumption].
  destruct (0 <? size (child_chunk state));
    [|apply ProbeHashTable_loop_fits; assumption].
  pose proof (HNext ss (join_keys state) (child_chunk state) (proj1 Hb)) as Hslice.
  destruct (Next ss _ _) as [c ss']. destruct (0 <? size c).
  - intros [= <- <-]. split; [exact Hslice|exact Hb].
  - apply ProbeHashTable_loop_fits; assumption.
Qed.

(** Between calls the cache stays below the mark at which it is flushed. *)
Definition cache_below_mark (state : PhysicalHashJoinState) : Prop :=
  caching_enabled = true ->
  size (cached_chunk state) < STANDARD_VECTOR_SIZE - SMALL_CHUNK.

Lemma GetChunkInternal_fits join_type sink state :
  collaborators_fit -> outer_scan_fits sink ->
  batches_fit state -> cache_below_mark state ->
  let r := GetChunkInternal join_type sink state in
  fits (fst r) /\ outer_scan_fits (fst (snd r)) /\
  batches_fit (snd (snd r)) /\ cache_below_mark (snd (snd r)).
Proof.
  intros Hfit Hscan. cbv zeta. unfold GetChunkInternal.
  pose proof fits_Reset as Hempty.
  destruct (empty_result_shortcut sink) eqn:Hs.
  { rewrite GetChunkInternal_shortcut by done. cbn. done. }
  assert (caching_enabled = true -> 0 < STANDARD_VECTOR_SIZE - SMALL_CHUNK)
    as Hroom.
  { unfold caching_enabled, SMALL_CHUNK. intros H%Nat.leb_le. lia. }
  revert state. apply (GetChunkInternal_with_ind SMALL_CHUNK join_type sink
    (fun state r =>
       batches_fit state -> cache_below_mark state ->
       fits (fst r) /\ outer_scan_fits (fst (snd r)) /\
       batches_fit (snd (snd r)) /\ cache_below_mark (snd (snd r))) Hs).
  - intros state chunk [sink' state'] E Hb Hcache. cbn [fst snd]. revert E.
    unfold GetChunkInternal_body.
    destruct (ProbeHashTable sink state) as [c st1] eqn:Hp.
    destruct (ProbeHashTable_frame _ _ _ _ Hp) as [Hf _].
    destruct (ProbeHashTable_fits _ _ _ _ Hfit Hb Hp) as [Hc Hb1].
    destruct (outer_scan_fits_step sink Hscan) as [Ho Hscan'].
    destruct (ScanFullOuter (hash_table sink) (ht_scan_state sink)) as [o scan].
    cbn [fst snd] in Ho, Hscan'.
    assert (cache_below_mark st1) as Hcache1
      by (unfold cache_below_mark; rewrite Hf; exact Hcache).
    assert (caching_enabled = true -> cache_below_mark (set_cached_chunk st1 Reset))
      as Hreset.
    { intros Hon _. cbn. change (size Reset) with 0. exact (Hroom Hon). }
    destruct (size c =? 0) eqn:Hc0.
    + destruct (caching_enabled && (0 <? size (cached_chunk st1))) eqn:Hflush.
      * apply andb_true_iff in Hflush as [Hon _]. intros [= <- <- <-].
        split; [|split; [exact Hscan|split; [exact Hb1|exact (Hreset Hon)]]].
        unfold fits, Reference. specialize (Hcache1 Hon). lia.
      * destruct (bool_decide (join_type = OUTER)); intros [= <- <- <-]; done.
    + destruct (decide (caching_enabled = true)) as [Hon|Hoff%not_true_is_false].
      * rewrite Hon. destruct (size c <? SMALL_CHUNK) eqn:Hsmall.
        -- apply Nat.ltb_lt in Hsmall. cbn [cached_chunk set_cached_chunk].
           destruct (STANDARD_VECTOR_SIZE - SMALL_CHUNK <=? _);
             [|intros E; discriminate E].
           intros [= <- <- <-].
           split; [|split; [exact Hscan|split; [exact Hb1|exact (Hreset Hon)]]].
           unfold fits, Reference. rewrite size_Append. specialize (Hcache1 Hon).
           unfold SMALL_CHUNK in *. lia.
        -- intros [= <- <- <-]. done.
      * rewrite Hoff. intros [= <- <- <-]. done.
  - intros state state' Hpass IH Hb Hcache. revert Hpass.
    unfold GetChunkInternal_body.
    destruct (ProbeHashTable sink state) as [c st1] eqn:Hp.
    destruct (ProbeHashTable_fits _ _ _ _ Hfit Hb Hp) as [_ Hb1].
    repeat case_match; intros; simplify_eq/=. apply IH; [exact Hb1|].
    intros _. cbn.
    match goal with H : (_ <=? _) = false |- _ => apply Nat.leb_gt in H; exact H end.
Qed.

Lemma calls_fit join_type n : forall sink state,
  collaborators_fit -> outer_scan_fits sink ->
  batches_fit state -> cache_below_mark state ->
  Forall fits (fst (calls SMALL_CHUNK join_type n sink state)).
Proof.
  induction n as [|n IH]; intros sink state Hfit Hscan Hb Hcache; [constructor|].
  cbn [calls].
  destruct (GetChunkInternal_fits join_type sink state Hfit Hscan Hb Hcache)
    as (Hchunk & Hscan1 & Hb1 & Hcache1). unfold GetChunkInternal in *.
  destruct (GetChunkInternal_with SMALL_CHUNK join_type sink state)
    as [chunk [sink1 state1]].
  cbn [fst snd] in *. specialize (IH sink1 state1 Hfit Hscan1 Hb1 Hcache1).
  destruct (calls SMALL_CHUNK join_type n sink1 state1) as [chunks final].
  cbn [fst] in *. constructor; assumption.
Qed.

(** X5.  No output chunk exceeds the capacity.  Let the collaborators fill a
    chunk with at most [STANDARD_VECTOR_SIZE] rows for a batch that fits, let
    the slices of unmatched build rows fit, and the batches of the child as
    well.  Then every chunk that [GetChunkInternal] returns, call after call
    from the state that [GetOperatorState] creates, has at most
    [STANDARD_VECTOR_SIZE] rows, also when it is the cache with a small slice
    appended. *)
Theorem GetChunkInternal_within_capacity join_type sink left n :
  collaborators_fit -> outer_scan_fits sink -> Forall fits (pending left) ->
  Forall fits (fst (calls SMALL_CHUNK join_type n sink (GetOperatorState left))).
Proof.
  intros Hfit Hscan Hb. apply calls_fit; [exact Hfit|exact Hscan| |].
  - split; [apply fits_Reset|exact Hb].
  - intros Hon. cbn. change (size Reset) with 0.
    unfold caching_enabled, SMALL_CHUNK in *. apply Nat.leb_le in Hon. lia.
Qed.

(** *** A join over an empty build side *)

(** The rows that an empty build side gives for the batches of the child. *)
Definition empty_join_result (sink : HashJoinGlobalState) (batches : list DataChunk)
    : list Row :=
  concat (map (ConstructEmptyJoinResult (ht_join_type (hash_table sink))
                 (ht_has_null (hash_table sink))) batches).

Lemma ProbeHashTable_empty_table sink state :
  ht_size (hash_table sink) = 0 -> scan_structure state = None ->
  delivers_rows state ->
  ProbeHashTable sink state =
  match pending (child_state state) with
  | [] => (Reset, set_child state Reset
                    {| pending := []; fetched := S (fetched (child_state state)) |})
  | batch :: rest =>
      (ConstructEmptyJoinResult (ht_join_type (hash_table sink))
         (ht_has_null (hash_table sink)) batch,
       set_child state batch
         {| pending := rest; fetched := S (fetched (child_state state)) |})
  end.
Proof.
  intros Hz Hnone Hd. unfold ProbeHashTable. rewrite Hnone, ProbeHashTable_loop_eq.
  unfold ProbeHashTable_body, child_GetChunk. unfold delivers_rows in Hd.
  destruct (pending (child_state state)) as [|b rest]; cbn.
  - change (size Reset) with 0. reflexivity.
  - apply Forall_cons in Hd as [Hb _].
    rewrite (proj2 (Nat.eqb_neq (size b) 0)) by lia.
    rewrite (proj2 (Nat.eqb_eq _ _) Hz). reflexivity.
Qed.

Lemma unbatched_empty_table join_type sink m : forall state rows,
  empty_result_shortcut sink = false -> empty_build_keeps_rows sink ->
  ht_size (hash_table sink) = 0 -> join_type <> OUTER ->
  scan_structure state = None -> delivers_rows state ->
  drain 0 join_type m sink (set_cached_chunk state Reset) = Some rows ->
  rows = empty_join_result sink (pending (child_state state)).
Proof.
  induction m as [|m IH]; intros state rows Hs Hkeep Hz Hjt Hnone Hd; [done|].
  cbn [drain]. pose proof (ProbeHashTable_empty_table sink state Hz Hnone Hd) as Hp.
  unfold empty_join_result. pose proof Hd as Hd'. unfold delivers_rows in Hd'.
  destruct (pending (child_state state)) as [|b rest] eqn:Ep.
  - rewrite (unbatched_end join_type sink state _ _ Hs Hp) by reflexivity.
    rewrite bool_decide_eq_false_2 by exact Hjt.
    change (size Reset) with 0. cbn. intros [= <-]. reflexivity.
  - apply Forall_cons in Hd' as [Hb Hrest].
    pose proof (Hkeep Hs Hz b Hb) as Hc.
    rewrite (unbatched_slice join_type sink state _ _ Hs Hp Hc).
    rewrite (proj2 (Nat.eqb_neq _ 0)) by lia.
    destruct (drain 0 join_type m sink _) as [rows'|] eqn:Hrest'; [|done].
    cbn [option_map]. intros [= <-]. cbn [map concat]. f_equal.
    apply (IH _ _ Hs Hkeep Hz Hjt) in Hrest'; [|exact Hnone|exact Hrest].
    exact Hrest'.
Qed.

(** X6.  Over an empty build side, for a join that does not take the shortcut
    and is not a full OUTER join, the rows returned up to the end of the
    stream are the rows of [ConstructEmptyJoinResult] for the batches of the
    child: every batch is answered once, none is lost in the cache.  The
    chunks may come in another order than the batches, since a large chunk
    overtakes the rows that wait in the cache. *)
Theorem GetChunkInternal_empty_table join_type n sink left rows :
  empty_result_shortcut sink = false -> empty_build_keeps_rows sink ->
  ht_size (hash_table sink) = 0 -> join_type <> OUTER ->
  Forall (fun batch => 0 < size batch) (pending left) ->
  drain SMALL_CHUNK join_type n sink (GetOperatorState left) = Some rows ->
  Permutation rows (empty_join_result sink (pending left)).
Proof.
  intros Hs Hkeep Hz Hjt Hd Hdrain.
  destruct (drain_regroups SMALL_CHUNK join_type n sink (GetOperatorState left) rows
              Hs Hkeep Hd (or_intror eq_refl) Hdrain) as (m & rows0 & Hplain & Hperm).
  apply (unbatched_empty_table join_type sink m (GetOperatorState left) rows0
           Hs Hkeep Hz Hjt eq_refl Hd) in Hplain.
  rewrite Hperm, Hplain. reflexivity.
Qed.

End DriverMore.

(** The toy engine meets the contracts on the capacity: a slice of matches has
    at most as many rows as the batch, and so has the result over an empty
    build side. *)
Lemma toy_follow_length rest : forall left,
  length (fst (Toy.follow rest left)) <= length left.
Proof.
  induction rest as [|b rest IH]; intros left; cbn [Toy.follow]; [cbn; lia|].
  pose proof (length_filter (fun p => Toy.same_key b p = true) left) as Hlen.
  destruct (filter (fun p => Toy.same_key b p = true) left) as [|p found] eqn:E.
  - apply IH.
  - cbn [fst]. rewrite length_map. exact Hlen.
Qed.

Lemma toy_collaborators_fit vector_size : @collaborators_fit (Toy.engine vector_size).
Proof.
  split.
  - intros ss keys left Hleft. unfold fits, size in *. cbn in *.
    pose proof (toy_follow_length ss left). lia.
  - intros jt has_null batch Hbatch. unfold fits, size in *. cbn in *.
    destruct jt; cbn; lia.
Qed.

Lemma toy_outer_scan_fits vector_size ht slices :
  Forall (fun slice => length slice <= vector_size) slices ->
  @outer_scan_fits (Toy.engine vector_size) (Toy.sink_of vector_size ht slices).
Proof.
  intros Hslices n. cbn [hash_table ht_scan_state Toy.sink_of].
  revert slices Hslices. induction n as [|n IH]; intros slices Hslices; [constructor|].
  cbn [ScanFullOuter_n]. cbn [ScanFullOuter Toy.engine].
  destruct slices as [|slice rest]; cbn [Toy.pop].
  - specialize (IH [] Hslices).
    destruct (@ScanFullOuter_n (Toy.engine vector_size) n ht []) as [chunks final].
    cbn [fst] in *. constructor; [|exact IH]. unfold fits, size. cbn. lia.
  - apply Forall_cons in Hslices as [Hslice Hrest]. specialize (IH rest Hrest).
    destruct (@ScanFullOuter_n (Toy.engine vector_size) n ht rest) as [chunks final].
    cbn [fst] in *. constructor; [|exact IH]. exact Hslice.
Qed.

(** X1 at work: a full outer join whose probe side is exhausted; the call
    hands out the next slice of unmatched build rows and moves the cursor. *)
Lemma GetChunkInternal_scan_cursor_witness :
  OUTER = OUTER /\
  @ScanFullOuter (Toy.engine 128) Toy.outer_table [[[3; 300]]]
  = (fst (@GetChunkInternal (Toy.engine 128) OUTER
            (Toy.sink_of 128 Toy.outer_table [[[3; 300]]]) (Toy.state_of 128 [])),
     ht_scan_state
       (fst (snd (@GetChunkInternal (Toy.engine 128) OUTER
                    (Toy.sink_of 128 Toy.outer_table [[[3; 300]]])
                    (Toy.state_of 128 []))))).
Proof.
  refine (proj2 (proj2 (@GetChunkInternal_scan_cursor (Toy.engine 128) OUTER
            (Toy.sink_of 128 Toy.outer_table [[[3; 300]]]) (Toy.state_of 128 []))) _).
  vm_compute. discriminate.
Defined.

(** X2 at work: the third call of the run with growing slices is the one that
    returns the empty chunk. *)
Lemma GetChunkInternal_empty_means_flushed_witness :
  size (cached_chunk
          (snd (snd (@calls (Toy.engine 128) SMALL_CHUNK INNER 2
                       (Toy.sink_of 128 Toy.collide [])
                       (GetOperatorState
                          (@Build_ChildState (Toy.engine 128) [Toy.growing_slices] 0))))))
  = 0 /\
  size (cached_chunk (snd (snd (@GetChunkInternal (Toy.engine 128) INNER
          (fst (snd (@calls (Toy.engine 128) SMALL_CHUNK INNER 2
                       (Toy.sink_of 128 Toy.collide [])
                       (GetOperatorState
                          (@Build_ChildState (Toy.engine 128) [Toy.growing_slices] 0)))))
          (snd (snd (@calls (Toy.engine 128) SMALL_CHUNK INNER 2
                       (Toy.sink_of 128 Toy.collide [])
                       (GetOperatorState
                          (@Build_ChildState (Toy.engine 128) [Toy.growing_slices] 0))))))))) = 0.
Proof.
  apply (@GetChunkInternal_empty_means_flushed (Toy.engine 128) INNER
           (Toy.sink_of 128 Toy.collide [])
           (@Build_ChildState (Toy.engine 128) [Toy.growing_slices] 0) 2).
  vm_compute. reflexivity.
Defined.

(** X3 at work: the scan structure of the last batch has no slice left and the
    child is exhausted. *)
Lemma GetChunkInternal_empty_means_exhausted_witness :
  probe_exhausted
    (snd (snd (@GetChunkInternal (Toy.engine 128) INNER
                 (Toy.sink_of 128 Toy.one_row []) Toy.after_small_probe))).
Proof.
  apply (@GetChunkInternal_empty_means_exhausted (Toy.engine 128) INNER
           (Toy.sink_of 128 Toy.one_row []) Toy.after_small_probe).
  - vm_compute. reflexivity.
  - intros _ Hsize. vm_compute in Hsize. discriminate Hsize.
  - apply Forall_nil. exact I.
  - vm_compute. reflexivity.
Defined.

(** X4 at work, for the run with growing slices. *)
Lemma GetChunkInternal_stream_ends_witness :
  exists k,
    size (fst (@GetChunkInternal (Toy.engine 128) INNER
                 (fst (snd (@calls (Toy.engine 128) SMALL_CHUNK INNER k
                              (Toy.sink_of 128 Toy.collide [])
                              (Toy.state_of 128 [Toy.growing_slices]))))
                 (snd (snd (@calls (Toy.engine 128) SMALL_CHUNK INNER k
                              (Toy.sink_of 128 Toy.collide [])
                              (Toy.state_of 128 [Toy.growing_slices])))))) = 0.
Proof.
  apply (@GetChunkInternal_stream_ends (Toy.engine 128) INNER
           (Toy.sink_of 128 Toy.collide []) (Toy.state_of 128 [Toy.growing_slices])).
  - apply toy_cursor_finite.
  - apply toy_outer_scan_finite.
Defined.

(** X5 at work: three calls of the run with growing slices. *)
Lemma GetChunkInternal_within_capacity_witness :
  Forall (@fits (Toy.engine 128))
    (fst (@calls (Toy.engine 128) SMALL_CHUNK INNER 3 (Toy.sink_of 128 Toy.collide [])
            (GetOperatorState
               (@Build_ChildState (Toy.engine 128) [Toy.growing_slices] 0)))).
Proof.
  apply (@GetChunkInternal_within_capacity (Toy.engine 128) INNER
           (Toy.sink_of 128 Toy.collide [])
           (@Build_ChildState (Toy.engine 128) [Toy.growing_slices] 0) 3).
  - apply toy_collaborators_fit.
  - apply toy_outer_scan_fits. apply Forall_nil. exact I.
  - apply Forall_cons; split; [vm_compute; lia|apply Forall_nil; exact I].
Defined.

(** X6 at work: a LEFT join over an empty build side; the batch of 64 rows
    overtakes the row of the first batch, which waits in the cache. *)
Lemma GetChunkInternal_empty_table_witness :
  Permutation (repeat [2] 64 ++ [[1]])
    (@empty_join_result (Toy.engine 128) (Toy.sink_of 128 (Toy.table [] LEFT) [])
       [[[1]]; repeat [2] 64]).
Proof.
  apply (@GetChunkInternal_empty_table (Toy.engine 128) LEFT 3
           (Toy.sink_of 128 (Toy.table [] LEFT) [])
           (@Build_ChildState (Toy.engine 128) [[[1]]; repeat [2] 64] 0)).
  - vm_compute. reflexivity.
  - intros _ _ batch Hbatch. exact Hbatch.
  - reflexivity.
  - discriminate.
  - apply Forall_cons; split; [vm_compute; lia|].
    apply Forall_cons; split; [vm_compute; lia|apply Forall_nil; exact I].
  - vm_compute. reflexivity.
Defined.


End ProbeSide.

(** * [PhysicalIndexScan]: the scan of an index, chunk by chunk *)
Module IndexScan.

(** The index and the client context, whose declarations are outside the
    sources at hand.  [InitializeScan] returns an owning pointer, which may be
    null; [Scan] gets the chunk to fill and the scan state to advance. *)
Class Collaborators : Type := {
  Row : Type;
  column_t : Type;
  Expression : Type;
  Transaction : Type;
  Index : Type;
  IndexScanState : Type;
  InitializeScan : Index -> Transaction -> list column_t -> Expression
                   -> option IndexScanState;
  Scan : Index -> Transaction -> IndexScanState -> list Row
         -> list Row * IndexScanState;
}.

Section Operator.
Context `{C : Collaborators}.

(** A chunk is the sequence of its rows; [Reset] empties it. *)
Definition DataChunk : Type := list Row.
Definition Reset : DataChunk := [].

Record ClientContext : Type := {
  ActiveTransaction : Transaction;
}.

(** The members of [PhysicalIndexScan] that [_GetChunk] reads. *)
Record PhysicalIndexScan : Type := {
  index : Index;
  column_ids : list column_t;
  expression : Expression;
}.

Record PhysicalIndexScanOperatorState : Type := {
  scan_state : option IndexScanState;
}.

(** [GetOperatorState] (lines 30-33): the scan state starts as a null
    pointer. *)
Definition GetOperatorState : PhysicalIndexScanOperatorState :=
  {| scan_state := None |}.

(** [_GetChunk] (lines 8-24).  The result is [None] when [Scan] would be
    called with a null scan state, which is outside of what this file
    defines. *)
Definition _GetChunk (op : PhysicalIndexScan) (context : ClientContext)
    (chunk : DataChunk) (state : PhysicalIndexScanOperatorState)
    : option (DataChunk * PhysicalIndexScanOperatorState) :=
  let chunk := Reset in
  if length (column_ids op) =? 0 then Some (chunk, state)
  else
    let state :=
      match scan_state state with
      | None =>
          (* initialize the scan state of the index *)
          {| scan_state := InitializeScan (index op) (ActiveTransaction context)
                             (column_ids op) (expression op) |}
      | Some _ => state
      end in
    (* continue the scan of the index *)
    match scan_state state with
    | Some scan =>
        let '(chunk, scan) := Scan (index op) (ActiveTransaction context) scan chunk in
        Some (chunk, {| scan_state := Some scan |})
    | None => None
    end.

(** Successive calls, each with its client context and with the chunk that the
    caller passes in. *)
Fixpoint GetChunks (op : PhysicalIndexScan) (calls : list (ClientContext * DataChunk))
    (state : PhysicalIndexScanOperatorState)
    : option (list DataChunk * PhysicalIndexScanOperatorState) :=
  match calls with
  | [] => Some ([], state)
  | (context, chunk) :: rest =>
      match _GetChunk op context chunk state with
      | Some (chunk, state) =>
          match GetChunks op rest state with
          | Some (chunks, state) => Some (chunk :: chunks, state)
          | None => None
          end
      | None => None
      end
  end.

(** The scan of the index on its own: [Scan] into an empty chunk, once for
    each transaction, from a scan state on. *)
Fixpoint Scans (op : PhysicalIndexScan) (transactions : list Transaction)
    (scan : IndexScanState) : list DataChunk * IndexScanState :=
  match transactions with
  | [] => ([], scan)
  | transaction :: rest =>
      let '(chunk, scan) := Scan (index op) transaction scan Reset in
      let '(chunks, scan) := Scans op rest scan in
      (chunk :: chunks, scan)
  end.

End Operator.

(** ** An index over numbers

    The index is the sorted list of its keys; a scan state is what is left to
    scan; a chunk takes two rows; the expression is a lower bound. *)
Module Toy.

Definition engine : Collaborators := {|
  Row := nat;
  column_t := nat;
  Expression := nat;
  Transaction := nat;
  Index := list nat;
  IndexScanState := list nat;
  InitializeScan := fun keys _ _ bound => Some (filter (fun key => bound <= key) keys);
  Scan := fun _ _ scan chunk => (chunk ++ take 2 scan, drop 2 scan);
|}.

Definition scan_from (bound : nat) (columns : list nat) : @PhysicalIndexScan engine :=
  @Build_PhysicalIndexScan engine [1; 3; 5; 7; 9] columns bound.

Definition call (transaction : nat) (chunk : list nat)
    : @ClientContext engine * @DataChunk engine :=
  (@Build_ClientContext engine transaction, chunk).

End Toy.

Section OperatorFacts.
Context `{C : Collaborators}.

(** X8.  An index scan without columns gives nothing and does nothing: every
    call returns an empty chunk, whatever the chunk held before, and the state
    stays as it was; the scan state is not initialized and the index is not
    scanned. *)
Theorem GetChunks_no_columns op calls state :
  column_ids op = [] ->
  GetChunks op calls state = Some (map (fun _ => Reset) calls, state).
Proof.
  intros Hnone. induction calls as [|[context chunk] rest IH]; [reflexivity|].
  cbn [GetChunks map]. unfold _GetChunk at 1. rewrite Hnone. cbn [length Nat.eqb].
  rewrite IH. reflexivity.
Qed.

Lemma GetChunks_initialized op calls : forall scan,
  column_ids op <> [] ->
  GetChunks op calls {| scan_state := Some scan |}
  = Some (fst (Scans op (map (fun call => ActiveTransaction (fst call)) calls) scan),
          {| scan_state :=
               Some (snd (Scans op (map (fun call => ActiveTransaction (fst call)) calls)
                            scan)) |}).
Proof.
  intros scan Hcols. revert scan.
  induction calls as [|[context chunk] rest IH]; intros scan; [reflexivity|].
  cbn [GetChunks map fst]. unfold _GetChunk at 1.
  destruct (column_ids op) as [|column columns] eqn:Ecols; [done|].
  cbn [length Nat.eqb scan_state]. cbn [Scans].
  destruct (Scan (index op) (ActiveTransaction context) scan Reset) as [chunk1 scan1].
  rewrite IH.
  destruct (Scans op (map (fun call => ActiveTransaction (fst call)) rest) scan1)
    as [chunks scan2].
  reflexivity.
Qed.

(** X9.  The scan state is initialized once, by the first call and with the
    transaction, the columns and the expression of that call; from then on
    the calls continue the one scan.  Let there be columns, and let
    [InitializeScan] return a scan state for the transaction of the first
    call.  Then the chunks of the calls from the state that [GetOperatorState]
    creates are those of [Scan] from that scan state on, whatever the chunks
    held before. *)
Theorem GetChunks_one_scan op context chunk calls scan :
  column_ids op <> [] ->
  InitializeScan (index op) (ActiveTransaction context) (column_ids op) (expression op)
  = Some scan ->
  GetChunks op ((context, chunk) :: calls) GetOperatorState
  = Some (fst (Scans op (ActiveTransaction context
                         :: map (fun call => ActiveTransaction (fst call)) calls) scan),
          {| scan_state :=
               Some (snd (Scans op (ActiveTransaction context
                                    :: map (fun call => ActiveTransaction (fst call)) calls)
                            scan)) |}).
Proof.
  intros Hcols Hinit.
  pose proof (GetChunks_initialized op ((context, chunk) :: calls) scan Hcols) as Hrun.
  cbn [map fst] in Hrun. rewrite <- Hrun. cbn [GetChunks]. unfold _GetChunk.
  destruct (column_ids op) as [|column columns] eqn:Ecols; [done|].
  cbn [length Nat.eqb scan_state GetOperatorState]. rewrite Hinit. reflexivity.
Qed.

End OperatorFacts.

(** X8 at work: two calls of a scan without columns. *)
Lemma GetChunks_no_columns_witness :
  @GetChunks Toy.engine (Toy.scan_from 3 []) [Toy.call 1 [4; 4]; Toy.call 2 []]
    GetOperatorState
  = Some ([[]; []], GetOperatorState).
Proof.
  apply (@GetChunks_no_columns Toy.engine (Toy.scan_from 3 [])
           [Toy.call 1 [4; 4]; Toy.call 2 []] GetOperatorState).
  reflexivity.
Defined.

(** X9 at work: three calls of the scan of the keys from 3 on. *)
Lemma GetChunks_one_scan_witness :
  @GetChunks Toy.engine (Toy.scan_from 3 [0]) [Toy.call 1 [4; 4]; Toy.call 2 []; Toy.call 2 [8]]
    GetOperatorState
  = Some ([[3; 5]; [7; 9]; []], @Build_PhysicalIndexScanOperatorState Toy.engine (Some [])).
Proof.
  apply (@GetChunks_one_scan Toy.engine (Toy.scan_from 3 [0])
           (@Build_ClientContext Toy.engine 1) [4; 4] [Toy.call 2 []; Toy.call 2 [8]]
           [3; 5; 7; 9]).
  - discriminate.
  - reflexivity.
Defined.

End IndexScan.

(** * [Binder::Bind(InsertStatement)]: the binding of an INSERT statement *)
Module BindInsert.

(** The conversions between the integer types of the source: [int] and
    [uint32_t] have 32 bits, [size_t] has 64. *)
Definition to_int (z : Z) : Z := ((z + 2 ^ 31) mod 2 ^ 32 - 2 ^ 31)%Z.
Definition to_uint32 (n : N) : N := (n mod 2 ^ 32)%N.
Definition to_size_t (z : Z) : Z := (z mod 2 ^ 64)%Z.

(** The types of the parser, of the planner and of the catalog, whose
    declarations are outside the sources at hand. *)
Class Collaborators : Type := {
  SQLType : Type;
  (** an expression as the parser leaves it, and a bound expression *)
  ParsedExpression : Type;
  Expression : Type;
  (** [type == ExpressionType::VALUE_PARAMETER] *)
  is_value_parameter : Expression -> bool;
  AddCastToType : Expression -> SQLType -> Expression;
  SelectStatement : Type;
  BoundSelectStatement : Type;
  (** what the binder and its client context hold while a statement is bound *)
  Binder : Type;
  (** the exceptions of the catalog and of the binders of expressions *)
  OtherException : Type;
}.

(** A message that is formatted from a format string and its arguments:
    a string for [%s], an [int] or a [size_t] for [%d]. *)
Inductive FormatArg : Type :=
| ArgString (s : string)
| ArgInt (d : Z)
| ArgSize (n : nat).

Record Message : Type := Format {
  format : string;
  args : list FormatArg;
}.

Module ColumnDefinition.
Section Fields.
Context `{C : Collaborators}.
Record t : Type := { name : string; type : SQLType }.
End Fields.
End ColumnDefinition.

Module TableCatalogEntry.
Section Fields.
Context `{C : Collaborators}.
Record t : Type := {
  name : string;
  columns : list ColumnDefinition.t;
  (** the index of a column, by its name *)
  name_map : gmap string N;
}.
End Fields.
End TableCatalogEntry.

Module InsertStatement.
Section Fields.
Context `{C : Collaborators}.
Record t : Type := {
  schema : string;
  table : string;
  columns : list string;
  values : list (list ParsedExpression);
  select_statement : option SelectStatement;
}.
End Fields.
End InsertStatement.

(** The elements of [column_index_map] are taken to be of the type [int], as
    the values that are put into it (lines 51 and 54). *)
Module BoundInsertStatement.
Section Fields.
Context `{C : Collaborators}.
Record t : Type := {
  table : TableCatalogEntry.t;
  column_index_map : list Z;
  values : list (list Expression);
  select_statement : option BoundSelectStatement;
}.
End Fields.
End BoundInsertStatement.

Section Binding.
Context `{C : Collaborators}.

(** The exceptions: [BinderException] with its message, and those of the
    catalog and of the binders of expressions. *)
Inductive Exception : Type :=
| BinderException (msg : Message)
| Other (e : OtherException).

(** How a call ends when it does not return: with an exception, with a failed
    assertion, or with an index outside a vector. *)
Inductive Failure : Type :=
| Thrown (e : Exception)
| AssertionFailed
| IndexOutOfRange.

(** A computation of the binder: it fails, or gives a result and leaves the
    binder in a new state. *)
Definition M (A : Type) : Type := Binder -> Failure + A * Binder.

Definition ret {A : Type} (a : A) : M A := fun binder => inr (a, binder).

Definition raise {A : Type} (failure : Failure) : M A := fun _ => inl failure.

Definition bind {A B : Type} (m : M A) (k : A -> M B) : M B :=
  fun binder =>
    match m binder with
    | inl failure => inl failure
    | inr (a, binder) => k a binder
    end.

(** A call of a collaborator, which returns or throws. *)
Definition call {A : Type} (f : Binder -> Exception + A * Binder) : M A :=
  fun binder =>
    match f binder with
    | inl e => inl (Thrown e)
    | inr result => inr result
    end.

End Binding.

Notation "x <- m ;; k" := (bind m (fun x => k))
  (at level 100, m at next level, right associativity).

(** The catalog and the binders that [Bind] calls. *)
Class Environment `{C : Collaborators} : Type := {
  (** [context.db.catalog.GetTable(transaction, schema, table)] *)
  GetTable : string -> string -> Binder -> Exception + TableCatalogEntry.t * Binder;
  (** [Bind(SelectStatement &)] *)
  Bind_select : SelectStatement -> Binder -> Exception + BoundSelectStatement * Binder;
  (** [WhereBinder::Bind(expression)], for a [WhereBinder] made from this
      binder and its context *)
  WhereBinder_Bind : ParsedExpression -> Binder -> Exception + Expression * Binder;
}.

Section Bind.
Context `{E : Environment}.

(** The loop of lines 38-45 over [stmt.columns], from the index [i] on. *)
Fixpoint bind_columns (table : TableCatalogEntry.t) (columns : list string) (i : nat)
    (column_name_map : gmap string Z) (named_column_map : list N)
    : M (gmap string Z * list N) :=
  match columns with
  | [] => ret (column_name_map, named_column_map)
  | column :: rest =>
      let column_name_map := <[column := to_int (Z.of_nat i)]> column_name_map in
      match TableCatalogEntry.name_map table !! column with
      | None =>
          raise (Thrown (BinderException
                   (Format "Column %s not found in table %s"
                      [ArgString column; ArgString (TableCatalogEntry.name table)])))
      | Some entry =>
          bind_columns table rest (S i) column_name_map
            (named_column_map ++ [to_uint32 entry])
      end
  end.

(** The loop of lines 46-56 over the columns of the table. *)
Definition index_columns (table : TableCatalogEntry.t)
    (column_name_map : gmap string Z) : list Z :=
  map (fun col =>
         match column_name_map !! ColumnDefinition.name col with
         | None => (-1)%Z
         | Some entry => entry
         end)
    (TableCatalogEntry.columns table).

(** [expected_columns] (line 62), an [int]. *)
Definition expected_columns (stmt : InsertStatement.t) (table : TableCatalogEntry.t) : Z :=
  to_int (Z.of_nat (if length (InsertStatement.columns stmt) =? 0
                    then length (TableCatalogEntry.columns table)
                    else length (InsertStatement.columns stmt))).

(** The message of lines 66-71. *)
Definition count_mismatch (stmt : InsertStatement.t) (table : TableCatalogEntry.t)
    (supplied : nat) : Message :=
  Format (if length (InsertStatement.columns stmt) =? 0
          then "table %s has %d columns but %d values were supplied"
          else "Column name/value mismatch for insert on %s: expected %d columns but %d values were supplied")
    [ArgString (TableCatalogEntry.name table); ArgInt (expected_columns stmt table);
     ArgSize supplied].

(** The loop of lines 75-85 over one list of expressions, from the index
    [col_idx] on. *)
Fixpoint bind_expressions (stmt : InsertStatement.t) (table : TableCatalogEntry.t)
    (named_column_map : list N) (expression_list : list ParsedExpression)
    (col_idx : nat) : M (list Expression) :=
  match expression_list with
  | [] => ret []
  | expression :: rest =>
      bound_expr <- call (WhereBinder_Bind expression) ;;
      bound_expr <-
        (if is_value_parameter bound_expr then
           table_col_idx <-
             (if length (InsertStatement.columns stmt) =? 0 then ret (N.of_nat col_idx)
              else match named_column_map !! col_idx with
                   | Some entry => ret entry
                   | None => raise IndexOutOfRange
                   end) ;;
           (* assert(table_col_idx < table->columns.size()) *)
           if negb (N.to_nat table_col_idx <? length (TableCatalogEntry.columns table))
           then raise AssertionFailed
           else
             match TableCatalogEntry.columns table !! N.to_nat table_col_idx with
             | Some col => ret (AddCastToType bound_expr (ColumnDefinition.type col))
             | None => raise IndexOutOfRange
             end
         else ret bound_expr) ;;
      list <- bind_expressions stmt table named_column_map rest (S col_idx) ;;
      ret (bound_expr :: list)
  end.

(** The loop of lines 63-87 over [stmt.values]. *)
Fixpoint bind_values (stmt : InsertStatement.t) (table : TableCatalogEntry.t)
    (named_column_map : list N) (values : list (list ParsedExpression))
    : M (list (list Expression)) :=
  match values with
  | [] => ret []
  | expression_list :: rest =>
      if negb (Z.of_nat (length expression_list)
               =? to_size_t (expected_columns stmt table))%Z
      then raise (Thrown (BinderException
                          (count_mismatch stmt table (length expression_list))))
      else
        list <- bind_expressions stmt table named_column_map expression_list 0 ;;
        lists <- bind_values stmt table named_column_map rest ;;
        ret (list :: lists)
  end.

(** [Binder::Bind(InsertStatement &)] (lines 27-90). *)
Definition Bind (stmt : InsertStatement.t) : M BoundInsertStatement.t :=
  table <- call (GetTable (InsertStatement.schema stmt) (InsertStatement.table stmt)) ;;
  maps <-
    (if 0 <? length (InsertStatement.columns stmt) then
       (* insertion statement specifies column list *)
       maps <- bind_columns table (InsertStatement.columns stmt) 0 ∅ [] ;;
       ret (snd maps, index_columns table (fst maps))
     else ret ([], [])) ;;
  match InsertStatement.select_statement stmt with
  | Some select_statement =>
      bound <- call (Bind_select select_statement) ;;
      ret {| BoundInsertStatement.table := table;
             BoundInsertStatement.column_index_map := snd maps;
             BoundInsertStatement.values := [];
             BoundInsertStatement.select_statement := Some bound |}
  | None =>
      lists <- bind_values stmt table (fst maps) (InsertStatement.values stmt) ;;
      ret {| BoundInsertStatement.table := table;
             BoundInsertStatement.column_index_map := snd maps;
             BoundInsertStatement.values := lists;
             BoundInsertStatement.select_statement := None |}
  end.

End Bind.

(** ** A small catalog

    One table, [people], with an integer column [id] and a string column
    [name]; an expression is a constant or a parameter; the binder counts the
    expressions it has bound. *)
Module Toy.

Inductive SqlType : Set := INTEGER | VARCHAR.

Inductive Parsed : Set :=
| Constant (n : nat)
| Placeholder.

Inductive Bound : Set :=
| BoundConstant (n : nat)
| BoundPlaceholder
| Cast (e : Bound) (ty : SqlType).

Definition types : Collaborators := {|
  SQLType := SqlType;
  ParsedExpression := Parsed;
  Expression := Bound;
  is_value_parameter := fun e => match e with BoundPlaceholder => true | _ => false end;
  AddCastToType := Cast;
  SelectStatement := unit;
  BoundSelectStatement := unit;
  Binder := nat;
  OtherException := string;
|}.

Definition column (name : string) (ty : SqlType) : @ColumnDefinition.t types :=
  @ColumnDefinition.Build_t types name ty.

Definition people : @TableCatalogEntry.t types :=
  @TableCatalogEntry.Build_t types "people"
    [column "id" INTEGER; column "name" VARCHAR]
    (<["id"%string := 0%N]> (<["name"%string := 1%N]> ∅)).

Definition catalog : @Environment types := {|
  GetTable := fun _ table binder =>
    if decide (table = "people"%string) then inr (people, binder)
    else inl (@Other types "Table not found"%string);
  Bind_select := fun _ binder => inr (tt, binder);
  WhereBinder_Bind := fun expression binder =>
    inr (match expression with
         | Constant n => BoundConstant n
         | Placeholder => BoundPlaceholder
         end, S binder);
|}.

Definition insert (columns : list string) (values : list (list Parsed))
    (select_statement : option unit) : @InsertStatement.t types :=
  @InsertStatement.Build_t types "main" "people" columns values select_statement.

Definition bound (column_index_map : list Z) (values : list (list Bound))
    (select_statement : option unit) : @BoundInsertStatement.t types :=
  @BoundInsertStatement.Build_t types people column_index_map values select_statement.

(** INSERT INTO people (name, id) VALUES (7, ?) *)
Definition swapped : @InsertStatement.t types :=
  insert ["name"; "id"]%string [[Constant 7; Placeholder]] None.

Definition swapped_bound : @BoundInsertStatement.t types :=
  bound [1; 0]%Z [[BoundConstant 7; Cast BoundPlaceholder INTEGER]] None.

(** INSERT INTO people (id, name, id) VALUES (1, 2, 3) *)
Definition twice : @InsertStatement.t types :=
  insert ["id"; "name"; "id"]%string [[Constant 1; Constant 2; Constant 3]] None.

Definition twice_bound : @BoundInsertStatement.t types :=
  bound [2; 1]%Z [[BoundConstant 1; BoundConstant 2; BoundConstant 3]] None.

End Toy.

(** ** Facts about [Bind] *)
Section BindFacts.
Context `{E : Environment}.

Lemma bind_inr {A B : Type} (m : M A) (k : A -> M B) binder b binder' :
  bind m k binder = inr (b, binder') ->
  exists a binder1, m binder = inr (a, binder1) /\ k a binder1 = inr (b, binder').
Proof. unfold bind. destruct (m binder) as [f|[a binder1]]; [done|]. eauto. Qed.

Lemma bind_inl {A B : Type} (m : M A) (k : A -> M B) binder failure :
  bind m k binder = inl failure ->
  m binder = inl failure \/
  exists a binder1, m binder = inr (a, binder1) /\ k a binder1 = inl failure.
Proof.
  unfold bind. destruct (m binder) as [f|[a binder1]]; [intros [= <-]; left; reflexivity|].
  intros H. right. eauto.
Qed.

Lemma call_inl {A : Type} (f : Binder -> Exception + A * Binder) binder failure :
  call f binder = inl failure -> exists e, failure = Thrown e.
Proof. unfold call. destruct (f binder); [|done]. intros [= <-]. eauto. Qed.

Lemma call_inr {A : Type} (f : Binder -> Exception + A * Binder) binder a binder' :
  call f binder = inr (a, binder') -> f binder = inr (a, binder').
Proof. unfold call. destruct (f binder); [done|]. intros [= ->]. reflexivity. Qed.

(** *** The column list *)

(** A column of the statement that the table knows by its name. *)
Definition known (table : TableCatalogEntry.t) (column : string) : Prop :=
  is_Some (TableCatalogEntry.name_map table !! column).

Definition unknown_column (table : TableCatalogEntry.t) (column : string) : Failure :=
  Thrown (BinderException
            (Format "Column %s not found in table %s"
               [ArgString column; ArgString (TableCatalogEntry.name table)])).

Lemma bind_columns_unknown table pre column post : forall i cnm ncm binder,
  Forall (known table) pre -> TableCatalogEntry.name_map table !! column = None ->
  bind_columns table (pre ++ column :: post) i cnm ncm binder
  = inl (unknown_column table column).
Proof.
  induction pre as [|c pre IH]; intros i cnm ncm binder Hpre Hcol; cbn.
  - rewrite Hcol. reflexivity.
  - apply Forall_cons in Hpre as [[entry Hc] Hpre]. rewrite Hc. apply IH; assumption.
Qed.

Lemma bind_columns_inr table columns : forall i cnm ncm binder maps binder',
  bind_columns table columns i cnm ncm binder = inr (maps, binder') ->
  binder' = binder /\ Forall (known table) columns /\
  length (snd maps) = length ncm + length columns /\
  (forall k column, columns !! k = Some column ->
     exists entry, TableCatalogEntry.name_map table !! column = Some entry /\
                   snd maps !! (length ncm + k) = Some (to_uint32 entry)) /\
  (forall k, k < length ncm -> snd maps !! k = ncm !! k) /\
  (forall column, column ∉ columns -> fst maps !! column = cnm !! column) /\
  (forall k column, columns !! k = Some column ->
     (forall k', k < k' -> columns !! k' <> Some column) ->
     fst maps !! column = Some (to_int (Z.of_nat (i + k)))).
Proof.
  induction columns as [|c rest IH]; intros i cnm ncm binder maps binder'.
  - cbn. intros [= <- <-]. cbn. split; [done|]. split; [constructor|].
    split; [lia|]. split; [done|]. split; [done|]. split; done.
  - cbn [bind_columns].
    destruct (TableCatalogEntry.name_map table !! c) as [entry|] eqn:Hc; [|done].
    intros Hrun. apply IH in Hrun as (Hb & Hknown & Hlen & Hncm & Hold & Hother & Hlast).
    rewrite length_app in Hlen, Hncm, Hold. cbn [length] in *.
    split; [exact Hb|]. split; [constructor; [by exists entry|exact Hknown]|].
    split; [lia|]. split; [|split; [|split]].
    + intros [|k] column Hk.
      * cbn in Hk. injection Hk as <-. exists entry. split; [exact Hc|].
        rewrite Hold by lia. rewrite Nat.add_0_r. apply list_lookup_middle. reflexivity.
      * cbn in Hk. destruct (Hncm k column Hk) as (entry' & He & Hk').
        exists entry'. split; [exact He|]. rewrite <- Hk'. f_equal. lia.
    + intros k Hk. rewrite Hold by lia. apply lookup_app_l. exact Hk.
    + intros column Hnot. apply not_elem_of_cons in Hnot as [Hne Hnot].
      rewrite (Hother column Hnot). apply lookup_insert_ne. congruence.
    + intros [|k] column Hk Hlater.
      * cbn in Hk. injection Hk as <-. rewrite Hother.
        -- rewrite Nat.add_0_r. apply lookup_insert_eq.
        -- intros Hin. apply list_elem_of_lookup in Hin as [k' Hk'].
           apply (Hlater (S k')); [lia|exact Hk'].
      * cbn in Hk. rewrite (Hlast k column Hk).
        -- do 3 f_equal. lia.
        -- intros k' Hlt. apply (Hlater (S k')). lia.
Qed.

Lemma bind_columns_known table columns : forall i cnm ncm binder,
  Forall (known table) columns ->
  exists maps, bind_columns table columns i cnm ncm binder = inr (maps, binder).
Proof.
  induction columns as [|c rest IH]; intros i cnm ncm binder Hknown.
  - eexists. reflexivity.
  - apply Forall_cons in Hknown as [[entry Hc] Hknown]. cbn [bind_columns].
    rewrite Hc. apply IH. exact Hknown.
Qed.

Lemma bind_columns_inl table columns : forall i cnm ncm binder failure,
  bind_columns table columns i cnm ncm binder = inl failure ->
  exists e, failure = Thrown e.
Proof.
  induction columns as [|c rest IH]; intros i cnm ncm binder failure; [done|].
  cbn [bind_columns].
  destruct (TableCatalogEntry.name_map table !! c) as [entry|]; [apply IH|].
  intros [= <-]. eauto.
Qed.

Lemma to_int_small (n : nat) :
  (Z.of_nat n < 2 ^ 31)%Z -> to_int (Z.of_nat n) = Z.of_nat n.
Proof.
  intros Hn. unfold to_int. rewrite Z.mod_small by lia. lia.
Qed.

Lemma last_occurrence (columns : list string) (column : string) :
  column ∈ columns ->
  exists k, columns !! k = Some column /\
            forall k', k < k' -> columns !! k' <> Some column.
Proof.
  induction columns as [|c rest IH]; [intros Hin; by apply elem_of_nil in Hin|].
  intros Hin. destruct (decide (column ∈ rest)) as [Hrest|Hrest].
  - destruct (IH Hrest) as (k & Hk & Hlast). exists (S k). split; [exact Hk|].
    intros [|k'] Hlt; [lia|]. cbn. apply Hlast. lia.
  - apply elem_of_cons in Hin as [->|Hin]; [|done]. exists 0. split; [reflexivity|].
    intros [|k'] Hlt; [lia|]. cbn. intros Hk'. apply Hrest.
    exact (list_elem_of_lookup_2 _ _ _ Hk').
Qed.

(** What a call that returns has done. *)
Lemma Bind_inr stmt binder result binder' :
  Bind stmt binder = inr (result, binder') ->
  exists binder1 cnm ncm,
    GetTable (InsertStatement.schema stmt) (InsertStatement.table stmt) binder
    = inr (BoundInsertStatement.table result, binder1) /\
    ((InsertStatement.columns stmt = [] /\ ncm = [] /\
      BoundInsertStatement.column_index_map result = []) \/
     (InsertStatement.columns stmt <> [] /\
      bind_columns (BoundInsertStatement.table result) (InsertStatement.columns stmt)
        0 ∅ [] binder1 = inr ((cnm, ncm), binder1) /\
      BoundInsertStatement.column_index_map result
      = index_columns (BoundInsertStatement.table result) cnm)) /\
    match InsertStatement.select_statement stmt with
    | Some select_statement =>
        exists bound,
          Bind_select select_statement binder1 = inr (bound, binder') /\
          BoundInsertStatement.values result = [] /\
          BoundInsertStatement.select_statement result = Some bound
    | None =>
        bind_values stmt (BoundInsertStatement.table result) ncm
          (InsertStatement.values stmt) binder1
        = inr (BoundInsertStatement.values result, binder') /\
        BoundInsertStatement.select_statement result = None
    end.
Proof.
  unfold Bind. intros Hrun.
  apply bind_inr in Hrun as (table & binder1 & Htable%call_inr & Hrun).
  apply bind_inr in Hrun as ([ncm cim] & binder2 & Hmaps & Hrun).
  assert (binder2 = binder1 /\
          exists cnm,
            (InsertStatement.columns stmt = [] /\ ncm = [] /\ cim = []) \/
            (InsertStatement.columns stmt <> [] /\
             bind_columns table (InsertStatement.columns stmt) 0 ∅ [] binder1
             = inr ((cnm, ncm), binder1) /\
             cim = index_columns table cnm)) as [-> [cnm Hcols]].
  { destruct (InsertStatement.columns stmt) as [|c rest] eqn:Ecols.
    - cbn in Hmaps. injection Hmaps as <- <- <-. split; [reflexivity|].
      exists ∅. left. done.
    - cbn [length Nat.ltb Nat.leb] in Hmaps.
      apply bind_inr in Hmaps as ([cnm ncm'] & binder3 & Hloop & Hret).
      injection Hret as <- <- <-.
      pose proof (bind_columns_inr _ _ _ _ _ _ _ _ Hloop) as [-> _].
      split; [reflexivity|]. exists cnm. right. done. }
  exists binder1, cnm, ncm. cbn [fst snd] in Hrun.
  destruct (InsertStatement.select_statement stmt) as [select_statement|].
  - apply bind_inr in Hrun as (bound & binder3 & Hsel%call_inr & Hret).
    injection Hret as <- <-. cbn. split; [exact Htable|]. split; [exact Hcols|].
    exists bound. done.
  - apply bind_inr in Hrun as (lists & binder3 & Hvalues & Hret).
    injection Hret as <- <-. cbn. done.
Qed.

(** X10.  A column of the statement's column list that the table does not
    know makes [Bind] throw the exception that names the first such column and
    the table, before a value or the SELECT statement is bound. *)
Theorem Bind_unknown_column stmt binder table binder1 pre column post :
  GetTable (InsertStatement.schema stmt) (InsertStatement.table stmt) binder
  = inr (table, binder1) ->
  InsertStatement.columns stmt = pre ++ column :: post ->
  Forall (known table) pre ->
  TableCatalogEntry.name_map table !! column = None ->
  Bind stmt binder
  = inl (Thrown (BinderException
                   (Format "Column %s not found in table %s"
                      [ArgString column; ArgString (TableCatalogEntry.name table)]))).
Proof.
  intros Htable Hcols Hpre Hcol. unfold Bind, bind at 1, call. rewrite Htable, Hcols.
  rewrite (proj2 (Nat.ltb_lt 0 _)) by (rewrite length_app; cbn; lia).
  unfold bind at 1. unfold bind at 1.
  rewrite (bind_columns_unknown table pre column post 0 ∅ [] binder1 Hpre Hcol).
  reflexivity.
Qed.

(** X11.  The column index map of a bound statement.  Without a column list
    it is empty.  With one it has an entry for each column of the table, in
    the order of the table: -1 for a column that the list does not name, and
    otherwise the position of the column's name in the list, the last one
    when the name occurs more than once. *)
Theorem Bind_column_index_map stmt binder result binder' :
  Bind stmt binder = inr (result, binder') ->
  (Z.of_nat (length (InsertStatement.columns stmt)) < 2 ^ 31)%Z ->
  (InsertStatement.columns stmt = [] ->
   BoundInsertStatement.column_index_map result = []) /\
  (InsertStatement.columns stmt <> [] ->
   length (BoundInsertStatement.column_index_map result)
   = length (TableCatalogEntry.columns (BoundInsertStatement.table result)) /\
   forall j col,
     TableCatalogEntry.columns (BoundInsertStatement.table result) !! j = Some col ->
     (ColumnDefinition.name col ∉ InsertStatement.columns stmt ->
      BoundInsertStatement.column_index_map result !! j = Some (-1)%Z) /\
     (forall i,
        InsertStatement.columns stmt !! i = Some (ColumnDefinition.name col) ->
        (forall i', i < i' ->
           InsertStatement.columns stmt !! i' <> Some (ColumnDefinition.name col)) ->
        BoundInsertStatement.column_index_map result !! j = Some (Z.of_nat i))).
Proof.
  intros Hrun Hsmall.
  destruct (Bind_inr _ _ _ _ Hrun) as (binder1 & cnm & ncm & _ & Hcols & _).
  destruct Hcols as [(Hnil & _ & Hcim)|(Hne & Hloop & Hcim)].
  - split; [intros _; exact Hcim|]. intros Hne. done.
  - split; [intros Hnil; done|]. intros _. rewrite Hcim. unfold index_columns.
    split; [apply length_map|]. intros j col Hj.
    rewrite list_lookup_fmap, Hj. cbn.
    destruct (bind_columns_inr _ _ _ _ _ _ _ _ Hloop)
      as (_ & _ & _ & _ & _ & Hother & Hlast). cbn [fst] in Hother, Hlast.
    split.
    + intros Hnot. rewrite (Hother _ Hnot), lookup_empty. reflexivity.
    + intros i Hi Hlater. rewrite (Hlast i _ Hi Hlater). cbn [Nat.add].
      rewrite to_int_small; [reflexivity|].
      apply lookup_lt_Some in Hi. lia.
Qed.

(** X12.  A name that occurs twice in the column list is accepted, and the
    earlier of two positions with the same name is the position of no column:
    the value at that position of a row is assigned to no column of the
    table. *)
Theorem Bind_duplicate_column stmt binder result binder' i i' column :
  Bind stmt binder = inr (result, binder') ->
  (Z.of_nat (length (InsertStatement.columns stmt)) < 2 ^ 31)%Z ->
  InsertStatement.columns stmt !! i = Some column ->
  InsertStatement.columns stmt !! i' = Some column ->
  i < i' ->
  Z.of_nat i ∉ BoundInsertStatement.column_index_map result.
Proof.
  intros Hrun Hsmall Hi Hi' Hlt Hin.
  destruct (Bind_inr _ _ _ _ Hrun) as (binder1 & cnm & ncm & _ & Hcols & _).
  destruct Hcols as [(Hnil & _ & Hcim)|(Hne & Hloop & Hcim)].
  { rewrite Hnil in Hi. done. }
  rewrite Hcim in Hin. unfold index_columns in Hin.
  apply list_elem_of_fmap in Hin as (col & Hval & _).
  destruct (bind_columns_inr _ _ _ _ _ _ _ _ Hloop)
    as (_ & _ & _ & _ & _ & Hother & Hlast). cbn [fst] in Hother, Hlast.
  destruct (decide (ColumnDefinition.name col ∈ InsertStatement.columns stmt))
    as [Hnamed|Hnot].
  - destruct (last_occurrence _ _ Hnamed) as (k & Hk & Hlater).
    rewrite (Hlast k _ Hk Hlater) in Hval. cbn [Nat.add] in Hval.
    rewrite to_int_small in Hval by (apply lookup_lt_Some in Hk; lia).
    apply Nat2Z.inj in Hval as ->.
    rewrite Hk in Hi. injection Hi as Hname.
    apply (Hlater i' Hlt). rewrite Hname. exact Hi'.
  - rewrite (Hother _ Hnot), lookup_empty in Hval. lia.
Qed.

(** *** The values *)

(** The number of values that a row must have. *)
Definition row_width (stmt : InsertStatement.t) (table : TableCatalogEntry.t) : nat :=
  if length (InsertStatement.columns stmt) =? 0
  then length (TableCatalogEntry.columns table)
  else length (InsertStatement.columns stmt).

Lemma expected_columns_small stmt table :
  (Z.of_nat (row_width stmt table) < 2 ^ 31)%Z ->
  to_size_t (expected_columns stmt table) = Z.of_nat (row_width stmt table).
Proof.
  intros Hsmall. unfold expected_columns. fold (row_width stmt table).
  rewrite to_int_small by exact Hsmall. unfold to_size_t.
  apply Z.mod_small. lia.
Qed.

(** The vector [named_column_map] as the loop over the column list leaves
    it: the index of each named column, by the name map of the table. *)
Definition named_columns (stmt : InsertStatement.t) (table : TableCatalogEntry.t)
    (ncm : list N) : Prop :=
  InsertStatement.columns stmt <> [] ->
  length ncm = length (InsertStatement.columns stmt) /\
  forall k column,
    InsertStatement.columns stmt !! k = Some column ->
    exists entry, TableCatalogEntry.name_map table !! column = Some entry /\
                  ncm !! k = Some (to_uint32 entry).

Lemma Bind_named_columns stmt table binder cnm ncm :
  (InsertStatement.columns stmt = [] /\ ncm = []) \/
  (InsertStatement.columns stmt <> [] /\
   bind_columns table (InsertStatement.columns stmt) 0 ∅ [] binder
   = inr ((cnm, ncm), binder)) ->
  named_columns stmt table ncm.
Proof.
  intros [[Hnil _]|[_ Hloop]] Hne; [done|].
  destruct (bind_columns_inr _ _ _ _ _ _ _ _ Hloop) as (_ & _ & Hlen & Hncm & _).
  cbn [snd length Nat.add] in Hlen, Hncm. split; [exact Hlen|exact Hncm].
Qed.

(** The column of the table that takes the value at the position [col_idx]
    of a row. *)
Definition target (stmt : InsertStatement.t) (table : TableCatalogEntry.t)
    (col_idx : nat) (col : ColumnDefinition.t) : Prop :=
  if length (InsertStatement.columns stmt) =? 0
  then TableCatalogEntry.columns table !! col_idx = Some col
  else exists column entry,
         InsertStatement.columns stmt !! col_idx = Some column /\
         TableCatalogEntry.name_map table !! column = Some entry /\
         TableCatalogEntry.columns table !! N.to_nat (to_uint32 entry) = Some col.

(** A value as it is bound: as the binder of expressions returns it, with a
    cast to the type of its column when it is a parameter. *)
Definition bound_as (stmt : InsertStatement.t) (table : TableCatalogEntry.t)
    (col_idx : nat) (expression : ParsedExpression) (e : Expression) : Prop :=
  exists binder0 bound_expr binder1,
    WhereBinder_Bind expression binder0 = inr (bound_expr, binder1) /\
    if is_value_parameter bound_expr
    then exists col, target stmt table col_idx col /\
                     e = AddCastToType bound_expr (ColumnDefinition.type col)
    else e = bound_expr.

Lemma bind_expressions_inr stmt table ncm expression_list :
  named_columns stmt table ncm ->
  forall col_idx binder list binder',
    bind_expressions stmt table ncm expression_list col_idx binder = inr (list, binder') ->
    length list = length expression_list /\
    forall k expression,
      expression_list !! k = Some expression ->
      exists e, list !! k = Some e /\ bound_as stmt table (col_idx + k) expression e.
Proof.
  intros Hnamed.
  induction expression_list as [|expression rest IH]; intros col_idx binder list binder'.
  - cbn. intros [= <- <-]. split; [reflexivity|]. intros k e Hk. done.
  - cbn [bind_expressions]. intros Hrun.
    apply bind_inr in Hrun as (bound_expr & binder1 & Hbound%call_inr & Hrun).
    apply bind_inr in Hrun as (e & binder2 & Hcast & Hrun).
    apply bind_inr in Hrun as (list' & binder3 & Hrest & Hret).
    injection Hret as <- <-. destruct (IH _ _ _ _ Hrest) as [Hlen Hlist].
    split; [cbn; rewrite Hlen; reflexivity|].
    intros [|k] expression' Hk.
    + cbn in Hk. injection Hk as <-. exists e. split; [reflexivity|].
      rewrite Nat.add_0_r. exists binder, bound_expr, binder1. split; [exact Hbound|].
      destruct (is_value_parameter bound_expr); [|by injection Hcast as <- _].
      apply bind_inr in Hcast as (table_col_idx & binder4 & Hidx & Hcast).
      destruct (negb (N.to_nat table_col_idx
                      <? length (TableCatalogEntry.columns table))); [done|].
      destruct (TableCatalogEntry.columns table !! N.to_nat table_col_idx)
        as [col|] eqn:Hcol; [|done].
      injection Hcast as <- _. exists col. split; [|reflexivity].
      unfold target.
      destruct (length (InsertStatement.columns stmt) =? 0) eqn:Hcols.
      * injection Hidx as <- _. rewrite Nat2N.id in Hcol. exact Hcol.
      * destruct (ncm !! col_idx) as [entry0|] eqn:Hentry; [|done].
        injection Hidx as <- _.
        assert (InsertStatement.columns stmt <> []) as Hne
          by (intros Hnil; rewrite Hnil in Hcols; done).
        destruct (Hnamed Hne) as [Hsame Hmap].
        destruct (lookup_lt_is_Some_2 (InsertStatement.columns stmt) col_idx)
          as [column Hcolumn].
        { rewrite <- Hsame. apply lookup_lt_Some in Hentry. exact Hentry. }
        destruct (Hmap _ _ Hcolumn) as (entry & Hname & Hentry').
        rewrite Hentry in Hentry'. injection Hentry' as ->.
        exists column, entry. done.
    + cbn in Hk. destruct (Hlist k expression' Hk) as (e' & He' & Has).
      exists e'. split; [exact He'|]. replace (col_idx + S k) with (S col_idx + k) by lia.
      exact Has.
Qed.

(** The index of a column in the name map of a table is an index into its
    columns. *)
Definition name_map_in_range (table : TableCatalogEntry.t) : Prop :=
  forall column entry,
    TableCatalogEntry.name_map table !! column = Some entry ->
    N.to_nat entry < length (TableCatalogEntry.columns table).

Lemma to_uint32_le (n : N) : N.to_nat (to_uint32 n) <= N.to_nat n.
Proof.
  unfold to_uint32. pose proof (N.Div0.mod_le n (2 ^ 32)). lia.
Qed.

Lemma bind_expressions_inl stmt table ncm expression_list :
  named_columns stmt table ncm -> name_map_in_range table ->
  forall col_idx binder failure,
    col_idx + length expression_list <= row_width stmt table ->
    bind_expressions stmt table ncm expression_list col_idx binder = inl failure ->
    exists e, failure = Thrown e.
Proof.
  intros Hnamed Hrange.
  induction expression_list as [|expression rest IH];
    intros col_idx binder failure Hwidth; [done|].
  cbn [bind_expressions length] in *. intros Hrun.
  apply bind_inl in Hrun as [Hrun|(bound_expr & binder1 & _ & Hrun)];
    [exact (call_inl _ _ _ Hrun)|].
  apply bind_inl in Hrun as [Hcast|(e & binder2 & _ & Hrun)].
  - exfalso. destruct (is_value_parameter bound_expr); [|done].
    assert (exists table_col_idx,
              N.to_nat table_col_idx < length (TableCatalogEntry.columns table) /\
              (if length (InsertStatement.columns stmt) =? 0
               then ret (N.of_nat col_idx)
               else match ncm !! col_idx with
                    | Some entry => ret entry
                    | None => raise IndexOutOfRange
                    end) binder1 = inr (table_col_idx, binder1))
      as (table_col_idx & Hlt & Hidx).
    { unfold row_width in Hwidth.
      destruct (length (InsertStatement.columns stmt) =? 0) eqn:Hcols.
      - exists (N.of_nat col_idx). rewrite Nat2N.id. split; [lia|reflexivity].
      - assert (InsertStatement.columns stmt <> []) as Hne
          by (intros Hnil; rewrite Hnil in Hcols; done).
        destruct (Hnamed Hne) as [Hsame Hmap].
        destruct (lookup_lt_is_Some_2 (InsertStatement.columns stmt) col_idx)
          as [column Hcolumn]; [lia|].
        destruct (Hmap _ _ Hcolumn) as (entry & Hname & Hentry).
        exists (to_uint32 entry). rewrite Hentry. split; [|reflexivity].
        pose proof (Hrange _ _ Hname). pose proof (to_uint32_le entry). lia. }
    unfold bind at 1 in Hcast. rewrite Hidx in Hcast.
    rewrite (proj2 (Nat.ltb_lt _ _) Hlt) in Hcast. cbn [negb] in Hcast.
    destruct (lookup_lt_is_Some_2 _ _ Hlt) as [col Hcol]. rewrite Hcol in Hcast. done.
  - apply bind_inl in Hrun as [Hrest|(list & binder3 & _ & Hret)]; [|done].
    apply (IH (S col_idx) binder2 failure); [lia|exact Hrest].
Qed.

Lemma bind_values_inr stmt table ncm values :
  named_columns stmt table ncm ->
  forall binder lists binder',
    bind_values stmt table ncm values binder = inr (lists, binder') ->
    Forall2 (fun row list =>
               Z.of_nat (length row) = to_size_t (expected_columns stmt table) /\
               length list = length row /\
               forall k expression,
                 row !! k = Some expression ->
                 exists e, list !! k = Some e /\ bound_as stmt table k expression e)
      values lists.
Proof.
  intros Hnamed. induction values as [|row rest IH]; intros binder lists binder'.
  - cbn. intros [= <- <-]. constructor.
  - cbn [bind_values].
    destruct (Z.of_nat (length row) =? to_size_t (expected_columns stmt table))%Z
      eqn:Hcount; [|done].
    apply Z.eqb_eq in Hcount. cbn [negb]. intros Hrun.
    apply bind_inr in Hrun as (list & binder1 & Hrow & Hrun).
    apply bind_inr in Hrun as (lists' & binder2 & Hrest & Hret).
    injection Hret as <- <-.
    destruct (bind_expressions_inr _ _ _ _ Hnamed _ _ _ _ Hrow) as [Hlen Hlist].
    constructor; [|exact (IH _ _ _ Hrest)]. split; [exact Hcount|].
    split; [exact Hlen|]. exact Hlist.
Qed.

Lemma bind_values_inl stmt table ncm values :
  named_columns stmt table ncm -> name_map_in_range table ->
  (Z.of_nat (row_width stmt table) < 2 ^ 31)%Z ->
  forall binder failure,
    bind_values stmt table ncm values binder = inl failure ->
    exists e, failure = Thrown e.
Proof.
  intros Hnamed Hrange Hsmall.
  induction values as [|row rest IH]; intros binder failure; [done|].
  cbn [bind_values].
  destruct (Z.of_nat (length row) =? to_size_t (expected_columns stmt table))%Z
    eqn:Hcount; [|intros [= <-]; eauto].
  apply Z.eqb_eq in Hcount. rewrite expected_columns_small in Hcount by exact Hsmall.
  apply Nat2Z.inj in Hcount. cbn [negb]. intros Hrun.
  apply bind_inl in Hrun as [Hrow|(list & binder1 & _ & Hrun)].
  - apply (bind_expressions_inl _ _ _ _ Hnamed Hrange 0 _ _) in Hrow; [exact Hrow|lia].
  - apply bind_inl in Hrun as [Hrest|(lists & binder2 & _ & Hret)]; [|done].
    exact (IH _ _ Hrest).
Qed.

(** X13.  A statement with VALUES that is bound has rows of one width: the
    number of columns of the table when there is no column list, the number
    of names in the list otherwise.  The rows are bound in their order, value
    by value. *)
Theorem Bind_row_width stmt binder result binder' :
  Bind stmt binder = inr (result, binder') ->
  InsertStatement.select_statement stmt = None ->
  (Z.of_nat (row_width stmt (BoundInsertStatement.table result)) < 2 ^ 31)%Z ->
  Forall2 (fun row list =>
             length row = row_width stmt (BoundInsertStatement.table result) /\
             length list = row_width stmt (BoundInsertStatement.table result))
    (InsertStatement.values stmt) (BoundInsertStatement.values result).
Proof.
  intros Hrun Hselect Hsmall.
  destruct (Bind_inr _ _ _ _ Hrun) as (binder1 & cnm & ncm & _ & Hcols & Hvalues).
  rewrite Hselect in Hvalues. destruct Hvalues as [Hvalues _].
  assert (named_columns stmt (BoundInsertStatement.table result) ncm) as Hnamed.
  { apply (Bind_named_columns _ _ binder1 cnm).
    destruct Hcols as [(H1 & H2 & _)|(H1 & H2 & _)]; [left|right]; split; assumption. }
  apply (bind_values_inr _ _ _ _ Hnamed) in Hvalues.
  eapply Forall2_impl; [exact Hvalues|]. cbn beta. intros row list (Hcount & Hlen & _).
  rewrite expected_columns_small in Hcount by exact Hsmall.
  apply Nat2Z.inj in Hcount. split; congruence.
Qed.

(** X14.  When the first row has another number of values than the table has
    columns, or than the column list has names, [Bind] throws the exception
    with the message for that case, before a value is bound. *)
Theorem Bind_count_mismatch stmt binder table binder1 row rest :
  GetTable (InsertStatement.schema stmt) (InsertStatement.table stmt) binder
  = inr (table, binder1) ->
  Forall (known table) (InsertStatement.columns stmt) ->
  InsertStatement.select_statement stmt = None ->
  InsertStatement.values stmt = row :: rest ->
  (Z.of_nat (row_width stmt table) < 2 ^ 31)%Z ->
  length row <> row_width stmt table ->
  Bind stmt binder
  = inl (Thrown (BinderException
                   (Format
                      (if length (InsertStatement.columns stmt) =? 0
                       then "table %s has %d columns but %d values were supplied"
                       else "Column name/value mismatch for insert on %s: expected %d columns but %d values were supplied")
                      [ArgString (TableCatalogEntry.name table);
                       ArgInt (Z.of_nat (row_width stmt table));
                       ArgSize (length row)]))).
Proof.
  intros Htable Hknown Hselect Hvalues Hsmall Hwidth.
  unfold Bind, bind at 1, call. rewrite Htable, Hselect, Hvalues.
  assert (forall maps : list N * list Z,
            bind (bind_values stmt table (fst maps) (row :: rest))
              (fun lists =>
                 ret {| BoundInsertStatement.table := table;
                        BoundInsertStatement.column_index_map := snd maps;
                        BoundInsertStatement.values := lists;
                        BoundInsertStatement.select_statement := None |}) binder1
            = inl (Thrown (BinderException (count_mismatch stmt table (length row)))))
    as Hthrow.
  { intros maps. unfold bind. cbn [bind_values].
    rewrite expected_columns_small by exact Hsmall.
    rewrite (proj2 (Z.eqb_neq _ _)) by lia. reflexivity. }
  assert (count_mismatch stmt table (length row)
          = Format
              (if length (InsertStatement.columns stmt) =? 0
               then "table %s has %d columns but %d values were supplied"
               else "Column name/value mismatch for insert on %s: expected %d columns but %d values were supplied")
              [ArgString (TableCatalogEntry.name table);
               ArgInt (Z.of_nat (row_width stmt table)); ArgSize (length row)]) as <-.
  { unfold count_mismatch, expected_columns. fold (row_width stmt table).
    rewrite to_int_small by exact Hsmall. reflexivity. }
  destruct (0 <? length (InsertStatement.columns stmt)).
  - destruct (bind_columns_known table (InsertStatement.columns stmt) 0 ∅ [] binder1 Hknown)
      as [maps Hloop].
    unfold bind at 1. unfold bind at 1. rewrite Hloop. cbn [ret]. apply Hthrow.
  - unfold bind at 1. cbn [ret]. apply Hthrow.
Qed.

(** X15.  With a SELECT statement the lists of VALUES are not looked at:
    whatever they are, the call ends in the same way, and the bound statement
    has no values. *)
Theorem Bind_select_ignores_values stmt values binder :
  InsertStatement.select_statement stmt <> None ->
  Bind stmt binder
  = Bind {| InsertStatement.schema := InsertStatement.schema stmt;
            InsertStatement.table := InsertStatement.table stmt;
            InsertStatement.columns := InsertStatement.columns stmt;
            InsertStatement.values := values;
            InsertStatement.select_statement := InsertStatement.select_statement stmt |}
      binder /\
  (forall result binder',
     Bind stmt binder = inr (result, binder') ->
     BoundInsertStatement.values result = [] /\
     BoundInsertStatement.select_statement result <> None).
Proof.
  intros Hselect. split.
  - unfold Bind. cbn [InsertStatement.schema InsertStatement.table InsertStatement.columns
                      InsertStatement.select_statement].
    destruct (InsertStatement.select_statement stmt); [reflexivity|done].
  - intros result binder' Hrun.
    destruct (Bind_inr _ _ _ _ Hrun) as (binder1 & cnm & ncm & _ & _ & Hvalues).
    destruct (InsertStatement.select_statement stmt); [|done].
    destruct Hvalues as (bound & _ & Hnone & Hsome). rewrite Hsome. done.
Qed.

(** X16.  The assertion of line 81 holds and no vector is indexed outside its
    bounds.  Let the name map of the table give indices into its columns.
    Then a call that does not return ends with an exception: it neither fails
    the assertion on the index of the column of a parameter, nor reads
    [named_column_map] or the columns of the table out of range. *)
Theorem Bind_indices_in_range stmt binder table binder1 failure :
  GetTable (InsertStatement.schema stmt) (InsertStatement.table stmt) binder
  = inr (table, binder1) ->
  name_map_in_range table ->
  (Z.of_nat (row_width stmt table) < 2 ^ 31)%Z ->
  Bind stmt binder = inl failure ->
  exists e, failure = Thrown e.
Proof.
  intros Htable Hrange Hsmall. unfold Bind. intros Hrun.
  apply bind_inl in Hrun as [Hrun|(table' & binder2 & Htable'%call_inr & Hrun)];
    [exact (call_inl _ _ _ Hrun)|].
  rewrite Htable in Htable'. injection Htable' as <- <-.
  apply bind_inl in Hrun as [Hmaps|([ncm cim] & binder2 & Hmaps & Hrun)].
  - destruct (0 <? length (InsertStatement.columns stmt)); [|done].
    apply bind_inl in Hmaps as [Hloop|(maps & binder2 & _ & Hret)]; [|done].
    exact (bind_columns_inl _ _ _ _ _ _ _ Hloop).
  - cbn [fst snd] in Hrun.
    destruct (InsertStatement.select_statement stmt) as [select_statement|].
    + apply bind_inl in Hrun as [Hsel|(bound & binder3 & _ & Hret)]; [|done].
      exact (call_inl _ _ _ Hsel).
    + apply bind_inl in Hrun as [Hvalues|(lists & binder3 & _ & Hret)]; [|done].
      apply (bind_values_inl stmt table ncm _) in Hvalues;
        [exact Hvalues| |exact Hrange|exact Hsmall].
      destruct (InsertStatement.columns stmt) as [|c cols] eqn:Ecols.
      * intros Hne. done.
      * cbn [length Nat.ltb Nat.leb] in Hmaps.
        apply bind_inr in Hmaps as ([cnm ncm'] & binder3 & Hloop & Hret).
        injection Hret as <- _ <-.
        pose proof (bind_columns_inr _ _ _ _ _ _ _ _ Hloop) as [-> _].
        apply (Bind_named_columns _ _ binder1 cnm). right. rewrite Ecols. done.
Qed.

(** X17.  Each value of a bound row is the expression that the binder of
    expressions returned for the value at the same position, and a parameter
    among them is cast to the type of its column: the column at the same
    position of the table when there is no column list, otherwise the column
    with the index that the name map gives for the name at that position of
    the list. *)
Theorem Bind_casts_parameters stmt binder result binder' :
  Bind stmt binder = inr (result, binder') ->
  InsertStatement.select_statement stmt = None ->
  Forall2 (fun row list =>
             forall col_idx expression,
               row !! col_idx = Some expression ->
               exists e, list !! col_idx = Some e /\
                         bound_as stmt (BoundInsertStatement.table result)
                           col_idx expression e)
    (InsertStatement.values stmt) (BoundInsertStatement.values result).
Proof.
  intros Hrun Hselect.
  destruct (Bind_inr _ _ _ _ Hrun) as (binder1 & cnm & ncm & _ & Hcols & Hvalues).
  rewrite Hselect in Hvalues. destruct Hvalues as [Hvalues _].
  assert (named_columns stmt (BoundInsertStatement.table result) ncm) as Hnamed.
  { apply (Bind_named_columns _ _ binder1 cnm).
    destruct Hcols as [(H1 & H2 & _)|(H1 & H2 & _)]; [left|right]; split; assumption. }
  apply (bind_values_inr _ _ _ _ Hnamed) in Hvalues.
  eapply Forall2_impl; [exact Hvalues|]. cbn beta. intros row list (_ & _ & Hlist).
  exact Hlist.
Qed.

End BindFacts.

Lemma toy_people_in_range : @name_map_in_range Toy.types Toy.people.
Proof.
  intros column entry Hc. unfold Toy.people in Hc. cbn in Hc.
  apply lookup_insert_Some in Hc as [[_ <-]|[_ Hc]]; [cbn; lia|].
  apply lookup_insert_Some in Hc as [[_ <-]|[_ Hc]]; [cbn; lia|].
  rewrite lookup_empty in Hc. done.
Qed.

Lemma toy_known (column : string) (entry : N) :
  TableCatalogEntry.name_map Toy.people !! column = Some entry ->
  @known Toy.types Toy.people column.
Proof. intros Hc. exists entry. exact Hc. Qed.

(** X10 at work: INSERT INTO people (id, age, name) VALUES (?) *)
Lemma Bind_unknown_column_witness :
  @Bind Toy.types Toy.catalog (Toy.insert ["id"; "age"; "name"]%string [[Toy.Placeholder]] None) 0
  = inl (Thrown (BinderException
                   (Format "Column %s not found in table %s"
                      [ArgString "age"; ArgString "people"]))).
Proof.
  apply (@Bind_unknown_column Toy.types Toy.catalog
           (Toy.insert ["id"; "age"; "name"]%string [[Toy.Placeholder]] None)
           0 Toy.people 0 ["id"%string] "age"%string ["name"%string]).
  - reflexivity.
  - reflexivity.
  - apply Forall_cons; split; [|apply Forall_nil; exact I].
    apply (toy_known "id" 0%N). vm_compute. reflexivity.
  - vm_compute. reflexivity.
Defined.

(** X11 at work: the names of the two columns in the other order. *)
Lemma Bind_column_index_map_witness :
  (InsertStatement.columns Toy.swapped = [] ->
   BoundInsertStatement.column_index_map Toy.swapped_bound = []) /\
  (InsertStatement.columns Toy.swapped <> [] ->
   length (BoundInsertStatement.column_index_map Toy.swapped_bound)
   = length (TableCatalogEntry.columns (BoundInsertStatement.table Toy.swapped_bound)) /\
   forall j col,
     TableCatalogEntry.columns (BoundInsertStatement.table Toy.swapped_bound) !! j
     = Some col ->
     (ColumnDefinition.name col ∉ InsertStatement.columns Toy.swapped ->
      BoundInsertStatement.column_index_map Toy.swapped_bound !! j = Some (-1)%Z) /\
     (forall i,
        InsertStatement.columns Toy.swapped !! i = Some (ColumnDefinition.name col) ->
        (forall i', i < i' ->
           InsertStatement.columns Toy.swapped !! i' <> Some (ColumnDefinition.name col)) ->
        BoundInsertStatement.column_index_map Toy.swapped_bound !! j
        = Some (Z.of_nat i))).
Proof.
  apply (@Bind_column_index_map Toy.types Toy.catalog Toy.swapped 0 Toy.swapped_bound 2).
  - vm_compute. reflexivity.
  - vm_compute. reflexivity.
Defined.

(** X12 at work: the first of the two positions of [id] is the position of
    no column. *)
Lemma Bind_duplicate_column_witness :
  0%Z ∉ BoundInsertStatement.column_index_map Toy.twice_bound.
Proof.
  apply (@Bind_duplicate_column Toy.types Toy.catalog Toy.twice 0 Toy.twice_bound 3
           0 2 "id"%string).
  - vm_compute. reflexivity.
  - vm_compute. reflexivity.
  - reflexivity.
  - reflexivity.
  - lia.
Defined.

(** X13 at work. *)
Lemma Bind_row_width_witness :
  Forall2 (fun (row : list Toy.Parsed) (list : list Toy.Bound) =>
             length row = 2 /\ length list = 2)
    (InsertStatement.values Toy.swapped) (BoundInsertStatement.values Toy.swapped_bound).
Proof.
  apply (@Bind_row_width Toy.types Toy.catalog Toy.swapped 0 Toy.swapped_bound 2).
  - vm_compute. reflexivity.
  - reflexivity.
  - vm_compute. reflexivity.
Defined.

(** X14 at work: INSERT INTO people VALUES (1) *)
Lemma Bind_count_mismatch_witness :
  @Bind Toy.types Toy.catalog (Toy.insert [] [[Toy.Constant 1]] None) 0
  = inl (Thrown (BinderException
                   (Format "table %s has %d columns but %d values were supplied"
                      [ArgString "people"; ArgInt 2; ArgSize 1]))).
Proof.
  apply (@Bind_count_mismatch Toy.types Toy.catalog
           (Toy.insert [] [[Toy.Constant 1]] None) 0 Toy.people 0
           [Toy.Constant 1] []).
  - reflexivity.
  - apply Forall_nil. exact I.
  - reflexivity.
  - reflexivity.
  - vm_compute. reflexivity.
  - vm_compute. lia.
Defined.

(** X15 at work: INSERT INTO people (id) with a SELECT and three stray
    values. *)
Lemma Bind_select_ignores_values_witness :
  @Bind Toy.types Toy.catalog
    (Toy.insert ["id"%string] [[Toy.Constant 1; Toy.Constant 2; Toy.Constant 3]] (Some tt)) 0
  = @Bind Toy.types Toy.catalog (Toy.insert ["id"%string] [] (Some tt)) 0 /\
  (forall result binder',
     @Bind Toy.types Toy.catalog
       (Toy.insert ["id"%string] [[Toy.Constant 1; Toy.Constant 2; Toy.Constant 3]]
          (Some tt)) 0
     = inr (result, binder') ->
     BoundInsertStatement.values result = [] /\
     BoundInsertStatement.select_statement result <> None).
Proof.
  apply (@Bind_select_ignores_values Toy.types Toy.catalog
           (Toy.insert ["id"%string] [[Toy.Constant 1; Toy.Constant 2; Toy.Constant 3]]
              (Some tt)) [] 0).
  discriminate.
Defined.

(** X16 at work: a call that ends with the exception for an unknown column. *)
Lemma Bind_indices_in_range_witness :
  exists e,
    @unknown_column Toy.types Toy.people "age" = Thrown e.
Proof.
  apply (@Bind_indices_in_range Toy.types Toy.catalog
           (Toy.insert ["id"; "age"]%string [[Toy.Placeholder; Toy.Placeholder]] None)
           0 Toy.people 0).
  - reflexivity.
  - exact toy_people_in_range.
  - vm_compute. reflexivity.
  - vm_compute. reflexivity.
Defined.

(** X17 at work: the parameter at the position of [id] is cast to INTEGER. *)
Lemma Bind_casts_parameters_witness :
  Forall2 (fun (row : list Toy.Parsed) (list : list Toy.Bound) =>
             forall col_idx expression,
               row !! col_idx = Some expression ->
               exists e, list !! col_idx = Some e /\
                         @bound_as Toy.types Toy.catalog Toy.swapped Toy.people
                           col_idx expression e)
    (InsertStatement.values Toy.swapped) (BoundInsertStatement.values Toy.swapped_bound).
Proof.
  apply (@Bind_casts_parameters Toy.types Toy.catalog Toy.swapped 0 Toy.swapped_bound 2).
  - vm_compute. reflexivity.
  - reflexivity.
Defined.

End BindInsert.
